(** * ponder: the datapack compiler of [src/ponder/ponder.py]

    A shallow embedding of [Ponder.__init__] and [Ponder.compile], and the
    properties of the grouping step, the scheduling chain, the files
    written and the order of the file-system calls.

    Python integers are [Z]; Python strings are [string]; the [functions]
    dictionary, whose iteration order is its insertion order, is an
    association list kept free of duplicate keys; the calls that leave the
    process (logger, [input], [os.path], [pathlib], [shutil]) are the
    constructors of a free monad, interpreted by any operating system that
    implements the [OS] interface. *)

From stdpp Require Import base list strings pretty gmap sorting.
From Stdlib Require Import Ascii ZArith Lia Sorted.

#[local] Set Warnings "-register-all,-clear-no-such-hyp".

Local Open Scope string_scope.
Local Open Scope Z_scope.
Local Open Scope list_scope.

(** ** Strings *)

(** The one-character string ["\n"]. *)
Definition newline : string := String (Ascii.ascii_of_nat 10) "".

(** The one-character string holding a double quote. *)
Definition dquote : string := String (Ascii.ascii_of_nat 34) "".

(** [sep.join(l)] of Python. *)
Fixpoint join (sep : string) (l : list string) : string :=
  match l with
  | [] => ""
  | [x] => x
  | x :: l' => x +:+ sep +:+ join sep l'
  end.

(** [str(n)] and [f"{n}"] for a Python [int]. *)
Definition str_int (n : Z) : string := pretty n.

(** [c.lower()] on one character: the ASCII capitals are shifted, every
    other byte is kept. *)
Definition lower_ascii (c : ascii) : ascii :=
  let n := Ascii.nat_of_ascii c in
  if (65 <=? n)%nat && (n <=? 90)%nat then Ascii.ascii_of_nat (n + 32) else c.

(** [s.lower()]. *)
Fixpoint lower (s : string) : string :=
  match s with
  | EmptyString => EmptyString
  | String c s' => String (lower_ascii c) (lower s')
  end.

(** ** The grouping step (lines 159-166) *)

(** The provenance line that opens every generated file. *)
Definition header : string := "# Generated by creepe_ponder".

(** A compiled command: [(time, command_str)]. *)
Definition compiled := (Z * string)%type.

(** The dictionary [functions]: keys in insertion order. *)
Definition functions_dict := list (Z * list string).

(** [time in functions]. *)
Fixpoint dict_mem (time : Z) (functions : functions_dict) : bool :=
  match functions with
  | [] => false
  | (k, _) :: rest => if decide (k = time) then true else dict_mem time rest
  end.

(** [functions[time]], [None] standing for [KeyError]. *)
Fixpoint dict_get (time : Z) (functions : functions_dict) : option (list string) :=
  match functions with
  | [] => None
  | (k, v) :: rest => if decide (k = time) then Some v else dict_get time rest
  end.

(** [functions[time].append(command_str)] for a key that is present: the
    entry keeps its place. *)
Fixpoint dict_append (time : Z) (command_str : string) (functions : functions_dict)
  : functions_dict :=
  match functions with
  | [] => []
  | (k, v) :: rest =>
      if decide (k = time) then (k, v ++ [command_str]) :: rest
      else (k, v) :: dict_append time command_str rest
  end.

(** [functions.keys()]. *)
Definition dict_keys (functions : functions_dict) : list Z := functions.*1.

(** One iteration of the loop of lines 161-166. *)
Definition group_step (functions : functions_dict) (command : compiled) : functions_dict :=
  let '(time, command_str) := command in
  if dict_mem time functions then dict_append time command_str functions
  else functions ++ [(time, [header; command_str])].

(** The whole loop, from the empty dictionary of line 159. *)
Definition group_commands (commands : list compiled) : functions_dict :=
  fold_left group_step commands [].

(** ** The scheduling chain (lines 174-178) *)

(** The directive appended at line 178. *)
Definition schedule_line (ponder_name : string) (time : Z) : string :=
  "schedule function " +:+ ponder_name +:+ ":" +:+ str_int time +:+ " "
    +:+ str_int (time * 2 + 1) +:+ " append".

(** The directives of the chain, without the provenance line. *)
Definition schedule_chain (ponder_name : string) (functions : functions_dict) : list string :=
  map (schedule_line ponder_name) (dict_keys functions).

(** [command_list] as it stands at line 181. *)
Definition main_command_list (ponder_name : string) (functions : functions_dict) : list string :=
  header :: schedule_chain ponder_name functions.

(** The text written to [_{time}.mcfunction] (line 171). *)
Definition bucket_file_text (command_list : list string) : string :=
  join newline command_list.

(** The text written to [main.mcfunction] (line 181). *)
Definition main_file_text (ponder_name : string) (functions : functions_dict) : string :=
  join newline (main_command_list ponder_name functions).

(** ** Words of the specification, to compare the code with *)

(** The distinct values of a list, each at the place of its first
    occurrence. *)
Fixpoint first_seen (l : list Z) : list Z :=
  match l with
  | [] => []
  | x :: l' => x :: filter (λ y, y ≠ x) (first_seen l')
  end.

(** The texts of the pairs whose time is [t], in the order of the
    sequence. *)
Definition texts_at (t : Z) (commands : list compiled) : list string :=
  (filter (λ c : compiled, c.1 = t) commands).*2.

(** ** Characters of a string, for the proofs about rendered numbers *)

(** [c in s] for a character [c]. *)
Fixpoint str_mem (c : ascii) (s : string) : bool :=
  match s with
  | EmptyString => false
  | String d s' => if decide (c = d) then true else str_mem c s'
  end.

(** The characters [str(n)] is made of: the ten digits and the minus sign. *)
Definition int_char (c : ascii) : bool :=
  let n := Ascii.nat_of_ascii c in
  ((48 <=? n)%nat && (n <=? 57)%nat) || (n =? 45)%nat.

(** ** Paths ([pathlib.Path] on a POSIX system) *)

(** [s.split("/")]. *)
Fixpoint split_slash (s : string) : list string :=
  match s with
  | EmptyString => [""]
  | String c s' =>
      if decide (c = "/"%char) then "" :: split_slash s'
      else match split_slash s' with
           | x :: rest => String c x :: rest
           | [] => [String c ""]
           end
  end.

(** A pure path: its root ([""], ["/"] or ["//"]) and its names, which hold
    no slash, no empty name and no ["."]. *)
Record PurePath := { root : string; names : list string }.

(** The root of a path string: one slash, or three and more, give ["/"];
    exactly two give ["//"]. *)
Definition path_root (s : string) : string :=
  match s with
  | String "/" (String "/" (String "/" _)) => "/"
  | String "/" (String "/" _) => "//"
  | String "/" _ => "/"
  | _ => ""
  end.

(** The names of a path string: empty names and ["."] are dropped. *)
Definition path_names (s : string) : list string :=
  filter (λ x, x ≠ "" ∧ x ≠ ".") (split_slash s).

(** [Path(s)]. *)
Definition Path (s : string) : PurePath :=
  {| root := path_root s; names := path_names s |}.

(** [p / s]: a rooted right operand replaces the left one. *)
Definition truediv (p : PurePath) (s : string) : PurePath :=
  if decide (path_root s = "") then
    {| root := root p; names := names p ++ path_names s |}
  else Path s.

Infix "</>" := truediv (at level 40, left associativity).

(** [str(p)]. *)
Definition str (p : PurePath) : string :=
  match names p with
  | [] => if decide (root p = "") then "." else root p
  | _ => root p +:+ join "/" (names p)
  end.

(** A name that [Path] keeps. *)
Definition kept (n : string) : Prop := str_mem "/" n = false ∧ n ≠ "" ∧ n ≠ ".".

(** A name of one directory entry: no slash, and not [""], ["."] or
    [".."]. *)
Definition plain_name (s : string) : Prop :=
  str_mem "/" s = false ∧ s ≠ "" ∧ s ≠ "." ∧ s ≠ "..".

(** ** [json.dumps] on the values [compile] builds *)

(** A Python [str] inside a JSON value: its code points. *)
Definition pystr := list N.

(** The code points of a string of ASCII characters. *)
Fixpoint codes (s : string) : pystr :=
  match s with
  | EmptyString => []
  | String c s' => N.of_nat (Ascii.nat_of_ascii c) :: codes s'
  end.

Inductive json :=
| JInt (n : Z)
| JStr (s : pystr)
| JList (items : list json)
| JDict (items : list (pystr * json)).

(** One lower-case hexadecimal digit. *)
Definition hex_digit (n : N) : ascii :=
  Ascii.ascii_of_N (if (n <? 10)%N then 48 + n else 87 + n)%N.

(** [format(n, "04x")] for [n < 65536]. *)
Definition hex4 (n : N) : string :=
  String (hex_digit (n / 4096 mod 16)%N)
    (String (hex_digit (n / 256 mod 16)%N)
       (String (hex_digit (n / 16 mod 16)%N)
          (String (hex_digit (n mod 16)%N) ""))).

Definition backslash : string := String (Ascii.ascii_of_nat 92) "".

(** The replacement of one code point under [ensure_ascii=True]. *)
Definition escape_char (c : N) : string :=
  if decide (c = 34)%N then backslash +:+ dquote
  else if decide (c = 92)%N then backslash +:+ backslash
  else if decide (c = 10)%N then backslash +:+ "n"
  else if decide (c = 13)%N then backslash +:+ "r"
  else if decide (c = 9)%N then backslash +:+ "t"
  else if decide (c = 12)%N then backslash +:+ "f"
  else if decide (c = 8)%N then backslash +:+ "b"
  else if (32 <=? c)%N && (c <=? 126)%N then String (Ascii.ascii_of_N c) ""
  else if (c <? 65536)%N then backslash +:+ "u" +:+ hex4 c
  else
    let v := (c - 65536)%N in
    backslash +:+ "u" +:+ hex4 (N.lor 55296 (N.land (N.shiftr v 10) 1023))
      +:+ backslash +:+ "u" +:+ hex4 (N.lor 56320 (N.land v 1023)).

(** A quoted JSON string. *)
Definition dumps_str (s : pystr) : string :=
  dquote +:+ join "" (escape_char <$> s) +:+ dquote.

(** [json.dumps(j)] with the default separators. *)
Fixpoint dumps (j : json) : string :=
  match j with
  | JInt n => str_int n
  | JStr s => dumps_str s
  | JList items => "[" +:+ join ", " (map dumps items) +:+ "]"
  | JDict items =>
      "{" +:+ join ", " (map (λ kv, dumps_str kv.1 +:+ ": " +:+ dumps kv.2) items) +:+ "}"
  end.

(** The description of line 149, as code points. *)
Definition description : pystr :=
  [20351; 29992]%N ++ codes " creepe_ponder "
    ++ [29983; 25104; 30340; 24605; 32034; 25968; 25454; 21253]%N.

(** [meta_data] of lines 145-151. *)
Definition meta_data : json :=
  JDict [(codes "pack",
          JDict [(codes "pack_format", JInt 16);
                 (codes "supported_formats", JList [JInt 16; JInt 39]);
                 (codes "description", JStr description)])].

(** ** The authoring object *)

(** A value stored in a [state] or [nbt] dictionary. *)
Inductive pyobject :=
| PStr (s : string)
| PInt (n : Z)
| PBool (b : bool)
| PList (items : list pyobject)
| PDict (items : list (string * pyobject)).

Definition position := (Z * Z * Z)%type.

(** The records appended to [self.commands], one constructor per ['type']. *)
Inductive operation :=
| OpPlace (time : Z) (pos : position) (block : string) (state nbt : pyobject)
| OpRemove (time : Z) (pos : position) (animation : string)
| OpText (time : Z) (pos : position) (text : string) (rotation : list Z) (duration : Z)
| OpEntity (time : Z) (pos : position) (name : string) (nbt : pyobject)
| OpCommand (time : Z) (command : string).

(** ** Exceptions, log records and the calls that leave the process *)

Inductive exn :=
| ValueError
| EOFError
| FileExistsError
| FileNotFoundError
| NotADirectoryError
| IsADirectoryError
| FormatError (command_text : string)
| OSError (what : string).

(** How a call ends. *)
Inductive outcome (A : Type) :=
| Returned (a : A)
| Raised (e : exn).
Arguments Returned {A} a.
Arguments Raised {A} e.

Inductive level := Debug | Info | Warning | Critical.

(** The log records of [ponder.py], by the line that emits them, with the
    values their text interpolates. [MsgDone] reports an animation length
    of [max_time / 20] seconds. *)
Inductive message :=
| MsgInitFailed
| MsgCompiling
| MsgArguments (version : bool) (pos_offset : position) (ponder_name output_dir : string)
| MsgArchiveExists (ponder_name : string)
| MsgCancelled
| MsgDone (times count : nat) (max_time : Z) (output_dir ponder_name : string).

(** A program over the calls [ponder.py] makes: [logger.*], [input()],
    [os.path.exists], [Path.exists], [Path.mkdir(parents=True)],
    [Path.write_text], [shutil.make_archive] and [shutil.rmtree]. *)
Inductive Py (A : Type) : Type :=
| Ret (a : A)
| Raise (e : exn)
| Log (lv : level) (m : message) (k : Py A)
| Input (k : string → Py A)
| OsPathExists (path : string) (k : bool → Py A)
| PathExists (p : PurePath) (k : bool → Py A)
| Mkdir (p : PurePath) (k : Py A)
| WriteText (p : PurePath) (data : string) (encoding : option string) (k : Py A)
| MakeArchive (base_name : PurePath) (format : string) (root_dir : PurePath)
    (k : string → Py A)
| Rmtree (p : PurePath) (k : Py A).
Arguments Ret {A} a.
Arguments Raise {A} e.
Arguments Log {A} lv m k.
Arguments Input {A} k.
Arguments OsPathExists {A} path k.
Arguments PathExists {A} p k.
Arguments Mkdir {A} p k.
Arguments WriteText {A} p data encoding k.
Arguments MakeArchive {A} base_name format root_dir k.
Arguments Rmtree {A} p k.

Fixpoint bind {A B} (m : Py A) (f : A → Py B) : Py B :=
  match m with
  | Ret a => f a
  | Raise e => Raise e
  | Log lv msg k => Log lv msg (bind k f)
  | Input k => Input (λ s, bind (k s) f)
  | OsPathExists path k => OsPathExists path (λ b, bind (k b) f)
  | PathExists p k => PathExists p (λ b, bind (k b) f)
  | Mkdir p k => Mkdir p (bind k f)
  | WriteText p data enc k => WriteText p data enc (bind k f)
  | MakeArchive b fmt r k => MakeArchive b fmt r (λ s, bind (k s) f)
  | Rmtree p k => Rmtree p (bind k f)
  end.

#[export] Instance Py_ret : MRet Py := λ A a, Ret a.
#[export] Instance Py_bind : MBind Py := λ A B f m, bind m f.

Definition log (lv : level) (m : message) : Py unit := Log lv m (Ret tt).
Definition input : Py string := Input Ret.
Definition os_path_exists (path : string) : Py bool := OsPathExists path Ret.
Definition path_exists (p : PurePath) : Py bool := PathExists p Ret.
Definition mkdir (p : PurePath) : Py unit := Mkdir p (Ret tt).
Definition write_text (p : PurePath) (data : string) (encoding : option string) : Py unit :=
  WriteText p data encoding (Ret tt).
Definition make_archive (base_name : PurePath) (format : string) (root_dir : PurePath)
  : Py string := MakeArchive base_name format root_dir Ret.
Definition rmtree (p : PurePath) : Py unit := Rmtree p (Ret tt).

(** A value or an exception of a call that is not modelled as an effect. *)
Definition lift {A} (r : outcome A) : Py A :=
  match r with
  | Returned a => Ret a
  | Raised e => Raise e
  end.

(** [for x in l: body(x)]. *)
Fixpoint for_each {A} (body : A → Py unit) (l : list A) : Py unit :=
  match l with
  | [] => Ret tt
  | x :: l' => body x ;; for_each body l'
  end.

(** [max(l)]: [None] stands for the [ValueError] of an empty argument. *)
Definition max_of (l : list Z) : option Z :=
  match l with
  | [] => None
  | x :: l' => Some (fold_left Z.max l' x)
  end.

(** ** The operating system *)

(** What was called, with what, and how the call ended. *)
Inductive event :=
| EvLog (lv : level) (m : message)
| EvInput (r : outcome string)
| EvOsPathExists (path : string) (r : bool)
| EvPathExists (p : PurePath) (r : bool)
| EvMkdir (p : PurePath) (r : outcome unit)
| EvWriteText (p : PurePath) (data : string) (encoding : option string) (r : outcome unit)
| EvMakeArchive (base_name : PurePath) (format : string) (root_dir : PurePath)
    (r : outcome string)
| EvRmtree (p : PurePath) (r : outcome unit).

(** The calls that create, write or remove files and directories. *)
Definition mutates (ev : event) : bool :=
  match ev with
  | EvMkdir _ _ | EvWriteText _ _ _ _ | EvMakeArchive _ _ _ _ | EvRmtree _ _ => true
  | _ => false
  end.

(** An operating system over worlds [W]: each call answers and leaves a
    next world. The two existence tests only read the world. *)
Class OS (W : Type) := {
  sys_log : level → message → W → W;
  sys_input : W → outcome string * W;
  sys_os_path_exists : string → W → bool;
  sys_path_exists : PurePath → W → bool;
  sys_mkdir : PurePath → W → outcome unit * W;
  sys_write_text : PurePath → string → option string → W → outcome unit * W;
  sys_make_archive : PurePath → string → PurePath → W → outcome string * W;
  sys_rmtree : PurePath → W → outcome unit * W;
}.

(** The result of a run: how it ended, the last world, the calls made. *)
Definition run_result (W A : Type) := (outcome A * W * list event)%type.

(** A call that may raise, then the rest of the program. *)
Definition after {W A X} (r : outcome X * W) (ev : outcome X → event)
    (k : X → W → run_result W A) : run_result W A :=
  match r with
  | (Returned x, w1) => let '(o, w2, tr) := k x w1 in (o, w2, ev (Returned x) :: tr)
  | (Raised e, w1) => (Raised e, w1, [ev (Raised e)])
  end.

(** A call that cannot raise, then the rest of the program. *)
Definition after_total {W A} (ev : event) (rest : run_result W A) : run_result W A :=
  let '(o, w2, tr) := rest in (o, w2, ev :: tr).

(** Running a program on an operating system. *)
Fixpoint exec `{OS W} {A} (p : Py A) (w : W) : run_result W A :=
  match p with
  | Ret a => (Returned a, w, [])
  | Raise e => (Raised e, w, [])
  | Log lv m k => after_total (EvLog lv m) (exec k (sys_log lv m w))
  | Input k => after (sys_input w) EvInput (λ s, exec (k s))
  | OsPathExists path k =>
      let b := sys_os_path_exists path w in
      after_total (EvOsPathExists path b) (exec (k b) w)
  | PathExists p k =>
      let b := sys_path_exists p w in
      after_total (EvPathExists p b) (exec (k b) w)
  | Mkdir p k => after (sys_mkdir p w) (EvMkdir p) (λ _, exec k)
  | WriteText p data enc k =>
      after (sys_write_text p data enc w) (EvWriteText p data enc) (λ _, exec k)
  | MakeArchive b fmt r k =>
      after (sys_make_archive b fmt r w) (EvMakeArchive b fmt r) (λ s, exec (k s))
  | Rmtree p k => after (sys_rmtree p w) (EvRmtree p) (λ _, exec k)
  end.

(** The three parts of a result. *)
Definition outcome_of {W A} (r : run_result W A) : outcome A := r.1.1.
Definition world_of {W A} (r : run_result W A) : W := r.1.2.
Definition trace_of {W A} (r : run_result W A) : list event := r.2.

(** A run followed by another: the traces are joined, an exception ends
    the run. *)
Definition then_run {W A B} (r : run_result W A) (k : A → W → run_result W B)
  : run_result W B :=
  match r with
  | (Returned a, w1, tr1) => let '(o, w2, tr2) := k a w1 in (o, w2, tr1 ++ tr2)
  | (Raised e, w1, tr1) => (Raised e, w1, tr1)
  end.

(** A run whose trace is preceded by earlier events. *)
Definition preceded {W A} (tr0 : list event) (r : run_result W A) : run_result W A :=
  let '(o, w, tr) := r in (o, w, tr0 ++ tr).

(** The call returned normally. *)
Definition event_ok (ev : event) : bool :=
  match ev with
  | EvInput (Raised _) | EvMkdir _ (Raised _) | EvWriteText _ _ _ (Raised _)
  | EvMakeArchive _ _ _ (Raised _) | EvRmtree _ (Raised _) => false
  | _ => true
  end.

(** The calls of a trace that create, write or remove. *)
Definition mutations (tr : list event) : list event :=
  filter (λ ev, mutates ev = true) tr.

(** A call to [shutil.make_archive]. *)
Definition is_archive (ev : event) : bool :=
  match ev with
  | EvMakeArchive _ _ _ _ => true
  | _ => false
  end.

(** A call to [shutil]. *)
Definition is_shutil (ev : event) : bool :=
  match ev with
  | EvMakeArchive _ _ _ _ | EvRmtree _ _ => true
  | _ => false
  end.

(** Two programs that run alike on every operating system. *)
Definition same_run {A} (p q : Py A) : Prop :=
  ∀ W (H : OS W) (w : W), exec p w = exec q w.

(** ** The class [Ponder] *)

Module Ponder.

Record t := { size : Z; commands : list operation }.

(** [__init__] (lines 13-23). *)
Definition init (size : Z) : Py t :=
  (if (size >? 8) && negb (size mod 3 =? 0) then log Critical MsgInitFailed
   else Ret tt) ;;
  mret {| size := size; commands := [] |}.

Definition record (self : t) (op : operation) : t :=
  {| size := size self; commands := commands self ++ [op] |}.

(** The five authoring methods (lines 25-107). *)
Definition block (self : t) time pos blk state nbt : t :=
  record self (OpPlace time pos blk state nbt).
Definition remove (self : t) time pos animation : t :=
  record self (OpRemove time pos animation).
Definition text (self : t) time pos txt duration rotation : t :=
  record self (OpText time pos txt rotation duration).
Definition entity (self : t) time pos name nbt : t :=
  record self (OpEntity time pos name nbt).
Definition command (self : t) time cmd : t :=
  record self (OpCommand time cmd).

(** [datapack_dir] of line 129. *)
Definition datapack_dir (ponder_name output_dir : string) : PurePath :=
  Path output_dir </> ponder_name.

(** The file tested at line 132. *)
Definition zip_file (ponder_name output_dir : string) : string :=
  output_dir +:+ "/" +:+ ponder_name +:+ ".zip".

(** [meta_file] of line 152. *)
Definition meta_file (datapack_dir : PurePath) : PurePath :=
  datapack_dir </> "pack.mcmeta".

(** [function_dir] of line 156. *)
Definition function_dir (version : bool) (ponder_name : string)
    (datapack_dir : PurePath) : PurePath :=
  (datapack_dir </> ("data/" +:+ ponder_name))
    </> (if version then "function" else "functions").

(** [function_file] of line 170. *)
Definition function_file (function_dir : PurePath) (time : Z) : PurePath :=
  function_dir </> ("_" +:+ str_int time +:+ ".mcfunction").

(** [main_function_file] of line 180. *)
Definition main_function_file (function_dir : PurePath) : PurePath :=
  function_dir </> "main.mcfunction".

Section compile.
(** [compile_operations] of the module [compiler]: it returns the
    compiled commands or raises, and touches nothing else. *)
Variable compile_operations : t → position → outcome (list compiled).

(** Lines 168-171: one file per entry of [functions]. *)
Definition write_functions (function_dir : PurePath) (functions : functions_dict)
  : Py unit :=
  for_each (λ '(time, command_list),
      write_text (function_file function_dir time) (join newline command_list) None)
    functions.

(** Lines 138-181: the tree of the datapack is written under
    [datapack_dir]. The result is [(commands, functions)]. *)
Definition write_datapack (self : t) (version : bool) (pos_offset : position)
    (ponder_name : string) (datapack_dir : PurePath)
  : Py (list compiled * functions_dict) :=
  commands ← lift (compile_operations self pos_offset);
  there ← path_exists datapack_dir;
  (if negb there then mkdir datapack_dir else Ret tt) ;;
  write_text (meta_file datapack_dir) (dumps meta_data) (Some "Utf-8") ;;
  let function_dir := function_dir version ponder_name datapack_dir in
  mkdir function_dir ;;
  let functions := group_commands commands in
  write_functions function_dir functions ;;
  let command_list := main_command_list ponder_name functions in
  write_text (main_function_file function_dir) (join newline command_list) None ;;
  mret (commands, functions).

(** Lines 183-190: archive, remove the tree, report. Falling off the
    end of the function returns [None]. *)
Definition pack_datapack (ponder_name output_dir : string) (datapack_dir : PurePath)
    (commands : list compiled) (functions : functions_dict)
  : Py (option string) :=
  make_archive datapack_dir "zip" datapack_dir ;;
  rmtree datapack_dir ;;
  match max_of (dict_keys functions) with
  | None => Raise ValueError
  | Some max_time =>
      log Info (MsgDone (length functions) (length commands) max_time
                  output_dir ponder_name) ;;
      mret None
  end.

(** Lines 138-190. *)
Definition compile_body (self : t) (version : bool) (pos_offset : position)
    (ponder_name output_dir : string) : Py (option string) :=
  let datapack_dir := datapack_dir ponder_name output_dir in
  '(commands, functions) ← write_datapack self version pos_offset ponder_name
                              datapack_dir;
  pack_datapack ponder_name output_dir datapack_dir commands functions.

(** [compile] (lines 109-190); [None] is Python's [None]. *)
Definition compile (self : t) (version : bool) (pos_offset : position)
    (ponder_name output_dir : string) : Py (option string) :=
  log Info MsgCompiling ;;
  log Debug (MsgArguments version pos_offset ponder_name output_dir) ;;
  found ← os_path_exists (zip_file ponder_name output_dir);
  if found : bool then
    log Warning (MsgArchiveExists ponder_name) ;;
    answer ← input;
    if decide (lower answer ≠ "y") then
      log Info MsgCancelled ;;
      mret None
    else compile_body self version pos_offset ponder_name output_dir
  else compile_body self version pos_offset ponder_name output_dir.
End compile.

End Ponder.

(** The events of lines 125-133: the two log records, the test of line 132
    with its answer [found] and, when the archive is there, the warning. *)
Definition asked (version : bool) (pos_offset : position) (ponder_name output_dir : string)
    (found : bool) : list event :=
  [EvLog Info MsgCompiling;
   EvLog Debug (MsgArguments version pos_offset ponder_name output_dir);
   EvOsPathExists (Ponder.zip_file ponder_name output_dir) found]
  ++ (if found then [EvLog Warning (MsgArchiveExists ponder_name)] else []).

(** ** The calls of lines 141-181, listed

    After [compile_operations] and the test of line 141, the function
    makes directories and writes files in a fixed order. *)

Inductive action :=
| DoMkdir (p : PurePath)
| DoWrite (p : PurePath) (data : string) (encoding : option string).

Definition perform (a : action) : Py unit :=
  match a with
  | DoMkdir p => mkdir p
  | DoWrite p data enc => write_text p data enc
  end.

(** The event of an action that ended with [r]. *)
Definition performed (r : outcome unit) (a : action) : event :=
  match a with
  | DoMkdir p => EvMkdir p r
  | DoWrite p data enc => EvWriteText p data enc r
  end.

(** The answer of the operating system to an action. *)
Definition sys_perform `{OS W} (a : action) : W → outcome unit * W :=
  match a with
  | DoMkdir p => sys_mkdir p
  | DoWrite p data enc => sys_write_text p data enc
  end.

(** The write of line 171 for one entry of [functions]. *)
Definition bucket_write (function_dir : PurePath) (entry : Z * list string) : action :=
  DoWrite (Ponder.function_file function_dir entry.1) (bucket_file_text entry.2) None.

(** The actions of lines 141-181, given the answer [there] to the test of
    line 141. *)
Definition datapack_actions (version : bool) (ponder_name : string)
    (datapack_dir : PurePath) (there : bool) (functions : functions_dict) : list action :=
  let function_dir := Ponder.function_dir version ponder_name datapack_dir in
  (if there then [] else [DoMkdir datapack_dir])
    ++ [DoWrite (Ponder.meta_file datapack_dir) (dumps meta_data) (Some "Utf-8");
        DoMkdir function_dir]
    ++ (bucket_write function_dir <$> functions)
    ++ [DoWrite (Ponder.main_function_file function_dir)
          (main_file_text ponder_name functions) None].

(** ** The runs of [compile], case by case

    What [compile] can return or raise, with the calls it has made by then,
    on any operating system. *)

Section runs.
Variable compile_operations : Ponder.t → position → outcome (list compiled).
Variables (self : Ponder.t) (version : bool) (pos_offset : position).
Variables (ponder_name output_dir : string).

Let datapack_dir := Ponder.datapack_dir ponder_name output_dir.
Let archive := EvMakeArchive datapack_dir "zip" datapack_dir.

(** The events of a run that goes on to line 138: no archive was found,
    or the operator answered [y] or [Y]. *)
Inductive passed_prompt : list event → Prop :=
| passed_absent :
    passed_prompt (asked version pos_offset ponder_name output_dir false)
| passed_confirmed answer :
    lower answer = "y" →
    passed_prompt (asked version pos_offset ponder_name output_dir true
                     ++ [EvInput (Returned answer)]).

(** Lines 183-190: the archive, the removal of the tree, the report. *)
Inductive pack_runs (commands : list compiled) (functions : functions_dict)
  : outcome (option string) → list event → Prop :=
| pack_archive_raised e :
    pack_runs commands functions (Raised e) [archive (Raised e)]
| pack_rmtree_raised s e :
    pack_runs commands functions (Raised e)
      [archive (Returned s); EvRmtree datapack_dir (Raised e)]
| pack_max_raised s :
    functions = [] →
    pack_runs commands functions (Raised ValueError)
      [archive (Returned s); EvRmtree datapack_dir (Returned tt)]
| pack_reported s max_time :
    max_of (dict_keys functions) = Some max_time →
    pack_runs commands functions (Returned None)
      [archive (Returned s); EvRmtree datapack_dir (Returned tt);
       EvLog Info (MsgDone (length functions) (length commands) max_time
                     output_dir ponder_name)].

Inductive compile_runs : outcome (option string) → list event → Prop :=
| run_cancelled answer :
    lower answer ≠ "y" →
    compile_runs (Returned None)
      (asked version pos_offset ponder_name output_dir true
         ++ [EvInput (Returned answer); EvLog Info MsgCancelled])
| run_input_raised e :
    compile_runs (Raised e)
      (asked version pos_offset ponder_name output_dir true ++ [EvInput (Raised e)])
| run_compiler_raised pre e :
    passed_prompt pre →
    compile_operations self pos_offset = Raised e →
    compile_runs (Raised e) pre
| run_write_raised pre commands there n a e :
    passed_prompt pre →
    compile_operations self pos_offset = Returned commands →
    datapack_actions version ponder_name datapack_dir there (group_commands commands)
      !! n = Some a →
    compile_runs (Raised e)
      (pre ++ EvPathExists datapack_dir there
           :: (performed (Returned tt)
                 <$> take n (datapack_actions version ponder_name datapack_dir there
                               (group_commands commands)))
           ++ [performed (Raised e) a])
| run_packed pre commands there out ptr :
    passed_prompt pre →
    compile_operations self pos_offset = Returned commands →
    pack_runs commands (group_commands commands) out ptr →
    compile_runs out
      (pre ++ EvPathExists datapack_dir there
           :: (performed (Returned tt)
                 <$> datapack_actions version ponder_name datapack_dir there
                       (group_commands commands))
           ++ ptr).
End runs.

(** ** A file system in memory

    One operating system to run [compile] on: a tree of directories, text
    files and archives, a working directory, the lines waiting on standard
    input and the log. The calls follow CPython 3.11 ([pathlib], [os],
    [os.path], [shutil]) on Linux: a path is looked up name by name
    through the tree, a name over [NAME_MAX] bytes and a path of
    [PATH_MAX] bytes or more are refused. Symbolic links, permissions and
    encodings are left out. *)

Module Posix.

(** What a file holds: text, or an archive with its members (a member
    without content is a directory). *)
Inductive content :=
| Text (data : string)
| Zip (members : list (list string * option content)).

Inductive node :=
| Dir
| File (c : content).

Record world := {
  files : gmap (list string) node;
  cwd : list string;
  stdin : list string;
  logged : list (level * message);
}.

Definition set_files (w : world) (fs : gmap (list string) node) : world :=
  {| files := fs; cwd := cwd w; stdin := stdin w; logged := logged w |}.

(** The node at an absolute list of names; the root is a directory. *)
Definition node_at (fs : gmap (list string) node) (k : list string) : option node :=
  match k with
  | [] => Some Dir
  | _ => fs !! k
  end.

(** *** Paths by their names *)

(** The names of a path once every [..] is taken with the name before
    it, as [os.path.normpath] does. *)
Definition walk (start : list string) (path : list string) : list string :=
  fold_left (λ acc n, if decide (n = "..") then removelast acc else acc ++ [n])
    path start.

(** The absolute names of a path, as [os.path.abspath] gives them. The
    kernel arrives there when it arrives at all ([find] below). *)
Definition resolve (w : world) (p : PurePath) : list string :=
  walk (if decide (root p = "") then cwd w else []) (names p).

(** [os.path.abspath(str(p))]. *)
Definition abspath (w : world) (p : PurePath) : string :=
  str {| root := if decide (root p = "//") then "//" else "/"; names := resolve w p |}.

(** [p.parent]. *)
Definition parent_path (p : PurePath) : PurePath :=
  {| root := root p; names := removelast (names p) |}.

(** [Path(str(base_name) + ".zip")], where the archive is written. *)
Definition archive_path (base_name : PurePath) : PurePath :=
  Path (str base_name +:+ ".zip").

(** What lies strictly below [r], by names relative to [r]. *)
Definition snapshot (fs : gmap (list string) node) (r : list string)
  : list (list string * option content) :=
  (λ kv : list string * node,
     (drop (length r) kv.1, match kv.2 with Dir => None | File c => Some c end))
    <$> map_to_list (filter (λ kv, r `prefix_of` kv.1 ∧ kv.1 ≠ r) fs).

(** *** Looking a path up *)

Definition name_max : nat := 255.
Definition path_max : nat := 4096.

(** A path string refused before the tree is looked at: Python raises
    [ValueError] on a NUL byte, the kernel answers [ENAMETOOLONG] to
    [PATH_MAX] bytes and more. *)
Definition refused (path : string) : option exn :=
  if str_mem Ascii.zero path then Some ValueError
  else if (path_max <=? String.length path)%nat then Some (OSError "File name too long")
  else None.

Definition long (n : string) : bool := (name_max <? String.length n)%nat.

(** One name on the way: [..] leads to the parent, any other name must
    be a directory of the current one. *)
Definition enter (fs : gmap (list string) node) (cur : list string) (n : string)
  : outcome (list string) :=
  if decide (n = "..") then Returned (removelast cur)
  else if long n then Raised (OSError "File name too long")
  else match fs !! (cur ++ [n]) with
       | None => Raised FileNotFoundError
       | Some (File _) => Raised NotADirectoryError
       | Some Dir => Returned (cur ++ [n])
       end.

(** Where a path ends: at a directory it has gone back to (no name, or a
    last name [..]), or at an entry, there or not, of the directory
    before its last name. *)
Inductive place :=
| Here (k : list string)
| Entry (k : list string).

Fixpoint locate (fs : gmap (list string) node) (cur : list string) (ns : list string)
  : outcome place :=
  match ns with
  | [] => Returned (Here cur)
  | n :: rest =>
      match rest with
      | [] =>
          if decide (n = "..") then Returned (Here (removelast cur))
          else if long n then Raised (OSError "File name too long")
          else Returned (Entry (cur ++ [n]))
      | _ =>
          match enter fs cur n with
          | Raised e => Raised e
          | Returned d => locate fs d rest
          end
      end
  end.

(** The names of a place. *)
Definition key (pl : place) : list string :=
  match pl with
  | Here k | Entry k => k
  end.

(** The lookup of the path [p], handed over as the string [path]. *)
Definition find_as (path : string) (p : PurePath) (w : world) : outcome place :=
  match refused path with
  | Some e => Raised e
  | None => locate (files w) (if decide (root p = "") then cwd w else []) (names p)
  end.

Definition find (p : PurePath) (w : world) : outcome place := find_as (str p) p w.

(** [os.stat] at a place. *)
Definition stat (fs : gmap (list string) node) (pl : place) : option node :=
  match pl with
  | Here _ => Some Dir
  | Entry k => fs !! k
  end.

Definition found (fs : gmap (list string) node) (r : outcome place) : bool :=
  match r with
  | Returned pl => bool_decide (is_Some (stat fs pl))
  | Raised _ => false
  end.

(** *** The calls *)

Definition log (lv : level) (m : message) (w : world) : world :=
  {| files := files w; cwd := cwd w; stdin := stdin w;
     logged := logged w ++ [(lv, m)] |}.

Definition input (w : world) : outcome string * world :=
  match stdin w with
  | [] => (Raised EOFError, w)
  | line :: rest =>
      (Returned line,
       {| files := files w; cwd := cwd w; stdin := rest; logged := logged w |})
  end.

(** [p.exists()]. Where a name is too long CPython 3.11 raises [OSError]
    here; the class [OS] gives the test no way to raise, and the call that
    follows in [compile] raises the same error. *)
Definition path_exists (p : PurePath) (w : world) : bool :=
  found (files w) (find p w).

(** [os.path.exists(path)]: every error is [False]. *)
Definition os_path_exists (path : string) (w : world) : bool :=
  if decide (path = "") then false else found (files w) (find_as path (Path path) w).

(** [p.is_dir()]. *)
Definition is_dir (p : PurePath) (w : world) : bool :=
  match find p w with
  | Returned pl => match stat (files w) pl with Some Dir => true | _ => false end
  | Raised _ => false
  end.

(** [os.mkdir(p)]. *)
Definition os_mkdir (p : PurePath) (w : world) : outcome unit * world :=
  match find p w with
  | Raised e => (Raised e, w)
  | Returned (Here _) => (Raised FileExistsError, w)
  | Returned (Entry k) =>
      match files w !! k with
      | Some _ => (Raised FileExistsError, w)
      | None => (Returned tt, set_files w (<[k := Dir]> (files w)))
      end
  end.

(** The exceptions [except OSError] catches. *)
Definition is_os_error (e : exn) : bool :=
  match e with
  | FileExistsError | FileNotFoundError | NotADirectoryError | IsADirectoryError
  | OSError _ => true
  | ValueError | EOFError | FormatError _ => false
  end.

(** What [pathlib.Path.mkdir] does with an exception of [os.mkdir] other
    than [FileNotFoundError]. *)
Definition mkdir_failed (p : PurePath) (exist_ok : bool) (e : exn) (w : world)
  : outcome unit * world :=
  if is_os_error e && exist_ok && is_dir p w then (Returned tt, w) else (Raised e, w).

(** [p.mkdir(parents=False, exist_ok=exist_ok)]. *)
Definition mkdir_plain (p : PurePath) (exist_ok : bool) (w : world)
  : outcome unit * world :=
  match os_mkdir p w with
  | (Returned u, w1) => (Returned u, w1)
  | (Raised FileNotFoundError, w1) => (Raised FileNotFoundError, w1)
  | (Raised e, w1) => mkdir_failed p exist_ok e w1
  end.

(** [p.mkdir(parents=True, exist_ok=exist_ok)]; the fuel is the number of
    names of [p], one for each parent the call can go back to. *)
Fixpoint mkdir_parents (fuel : nat) (p : PurePath) (exist_ok : bool) (w : world)
  : outcome unit * world :=
  match os_mkdir p w with
  | (Returned u, w1) => (Returned u, w1)
  | (Raised FileNotFoundError, w1) =>
      match fuel, names p with
      | S fuel', _ :: _ =>
          match mkdir_parents fuel' (parent_path p) true w1 with
          | (Returned _, w2) => mkdir_plain p exist_ok w2
          | (Raised e, w2) => (Raised e, w2)
          end
      | _, _ => (Raised FileNotFoundError, w1)
      end
  | (Raised e, w1) => mkdir_failed p exist_ok e w1
  end.

(** [p.mkdir(parents=True)]. *)
Definition mkdir (p : PurePath) (w : world) : outcome unit * world :=
  mkdir_parents (length (names p)) p false w.

(** [p.write_text(data, encoding)]. *)
Definition write_text (p : PurePath) (data : string) (encoding : option string)
    (w : world) : outcome unit * world :=
  match find p w with
  | Raised e => (Raised e, w)
  | Returned (Here _) => (Raised IsADirectoryError, w)
  | Returned (Entry k) =>
      match files w !! k with
      | Some Dir => (Raised IsADirectoryError, w)
      | _ => (Returned tt, set_files w (<[k := File (Text data)]> (files w)))
      end
  end.

(** [head and tail] in [os.makedirs], for [head = p.parent]. *)
Definition has_head (p : PurePath) : bool :=
  bool_decide (names p ≠ [] ∧ (removelast (names p) ≠ [] ∨ root p ≠ "")).

(** [os.makedirs(p)] for a path with a last name. *)
Fixpoint makedirs (fuel : nat) (p : PurePath) (w : world) : outcome unit * world :=
  match fuel with
  | S fuel' =>
      if has_head p && negb (path_exists (parent_path p) w) then
        match makedirs fuel' (parent_path p) w with
        | (Returned _, w1) | (Raised FileExistsError, w1) => os_mkdir p w1
        | (Raised e, w1) => (Raised e, w1)
        end
      else os_mkdir p w
  | O => os_mkdir p w
  end.

(** [shutil.make_archive(base_name, format, root_dir)] for ["zip"]: the
    directory of the archive is made when it is missing, the archive is
    opened, then what lies below [os.path.normpath(root_dir)] is written
    to it, the archive itself included when it lies there. *)
Definition make_archive (base_name : PurePath) (format : string) (root_dir : PurePath)
    (w : world) : outcome string * world :=
  if decide (format ≠ "zip") then (Raised ValueError, w)
  else
    let dir := parent_path base_name in
    let made :=
      if has_head base_name && negb (path_exists dir w)
      then makedirs (length (names dir)) dir w
      else (Returned tt, w) in
    match made with
    | (Raised e, w1) => (Raised e, w1)
    | (Returned _, w1) =>
        match find (archive_path base_name) w1 with
        | Raised e => (Raised e, w1)
        | Returned (Here _) => (Raised IsADirectoryError, w1)
        | Returned (Entry k) =>
            match files w1 !! k with
            | Some Dir => (Raised IsADirectoryError, w1)
            | _ =>
                let opened := <[k := File (Zip [])]> (files w1) in
                let r := resolve w1 root_dir in
                let members :=
                  match node_at opened r with
                  | Some Dir => snapshot opened r
                  | _ => []
                  end in
                (Returned (abspath w1 (archive_path base_name)),
                 set_files w1 (<[k := File (Zip members)]> (files w1)))
            end
        end
    end.

(** [shutil.rmtree(p)]. A path without a name of its own ([.], [/], a
    last name [..]) is emptied, then [os.rmdir] fails on it: the path no
    longer leads anywhere when it goes through a name, and the kernel
    refuses [.], [/] and a last [..] otherwise. *)
Definition rmtree (p : PurePath) (w : world) : outcome unit * world :=
  match find p w with
  | Raised e => (Raised e, w)
  | Returned (Entry k) =>
      match files w !! k with
      | None => (Raised FileNotFoundError, w)
      | Some (File _) => (Raised NotADirectoryError, w)
      | Some Dir =>
          (Returned tt, set_files w (filter (λ kv, ¬ k `prefix_of` kv.1) (files w)))
      end
  | Returned (Here k) =>
      (Raised (if forallb (λ n, bool_decide (n = "..")) (names p)
               then OSError "rmdir" else FileNotFoundError),
       set_files w (filter (λ kv, ¬ (k `prefix_of` kv.1 ∧ kv.1 ≠ k)) (files w)))
  end.

#[global] Instance os : OS world := {|
  sys_log := log;
  sys_input := input;
  sys_os_path_exists := os_path_exists;
  sys_path_exists := path_exists;
  sys_mkdir := mkdir;
  sys_write_text := write_text;
  sys_make_archive := make_archive;
  sys_rmtree := rmtree;
|}.

(** *** Describing a tree *)

(** [[]; [a]; [a; b]] for [[a; b; c]]. *)
Definition proper_prefixes (k : list string) : list (list string) :=
  (λ n, take n k) <$> seq 0 (length k).

Definition is_file (o : option node) : bool :=
  match o with
  | Some (File _) => true
  | _ => false
  end.

(** Some name on the way to [k] is a file. *)
Definition blocked (fs : gmap (list string) node) (k : list string) : bool :=
  existsb (λ q, is_file (node_at fs q)) (proper_prefixes k).

(** Every entry of [fs] is in [fs'] as it was, and what [fs'] has more
    are directories. *)
Definition grows (fs fs' : gmap (list string) node) : Prop :=
  (∀ k n, fs !! k = Some n → fs' !! k = Some n)
  ∧ (∀ k n, fs' !! k = Some n → fs !! k = Some n ∨ n = Dir).

(** The world [w1] is [w] with a tree that has grown. *)
Definition extends (w w1 : world) : Prop :=
  w1 = set_files w (files w1) ∧ grows (files w) (files w1).

(** *** Worlds for the examples *)

(** An empty directory [/home], nothing typed, nothing logged. *)
Definition fresh : world :=
  {| files := {[ ["home"] := Dir ]}; cwd := ["home"]; stdin := []; logged := [] |}.

(** [/home] with an earlier [ponders.zip], and the lines the operator
    will type. *)
Definition with_archive (answers : list string) : world :=
  {| files := {[ ["home"] := Dir; ["home"; "ponders.zip"] := File (Text "old") ]};
     cwd := ["home"]; stdin := answers; logged := [] |}.

(** [/home] where [ponders.zip] is a directory, so that the archive
    cannot be written. *)
Definition with_directory (answers : list string) : world :=
  {| files := {[ ["home"] := Dir; ["home"; "ponders.zip"] := Dir ]};
     cwd := ["home"]; stdin := answers; logged := [] |}.

End Posix.

(** ** Inputs for the examples *)

(** A compiler stub that returns the same commands for every object. *)
Definition fixed_commands (l : list compiled) : Ponder.t → position → outcome (list compiled) :=
  λ _ _, Returned l.

Definition empty_ponder : Ponder.t := {| Ponder.size := 3; Ponder.commands := [] |}.

(** What [place(time=5, pos=(0,0,0), block='stone')] compiles to under the
    offset [(1,0,0)], according to the specification. *)
Definition stone_commands : list compiled := [(5, "setblock 1 0 0 minecraft:stone")].

(** The expected text of [pack.mcmeta]. *)
Definition quoted (s : string) : string := dquote +:+ s +:+ dquote.

Definition pack_mcmeta_text : string :=
  "{" +:+ quoted "pack" +:+ ": {" +:+ quoted "pack_format" +:+ ": 16, "
    +:+ quoted "supported_formats" +:+ ": [16, 39], " +:+ quoted "description" +:+ ": "
    +:+ quoted "\u4f7f\u7528 creepe_ponder \u751f\u6210\u7684\u601d\u7d22\u6570\u636e\u5305"
    +:+ "}}".

(** ** The log of the authoring object *)

(** The ['time'] of a record. *)
Definition op_time (op : operation) : Z :=
  match op with
  | OpPlace time _ _ _ _ | OpRemove time _ _ | OpText time _ _ _ _
  | OpEntity time _ _ _ | OpCommand time _ => time
  end.

(** One call of an authoring method, with its arguments. *)
Inductive authoring_call :=
| CallBlock (time : Z) (pos : position) (block : string) (state nbt : pyobject)
| CallRemove (time : Z) (pos : position) (animation : string)
| CallText (time : Z) (pos : position) (text : string) (duration : Z) (rotation : list Z)
| CallEntity (time : Z) (pos : position) (name : string) (nbt : pyobject)
| CallCommand (time : Z) (command : string).

(** The time argument of a call. *)
Definition call_time (c : authoring_call) : Z :=
  match c with
  | CallBlock time _ _ _ _ | CallRemove time _ _ | CallText time _ _ _ _
  | CallEntity time _ _ _ | CallCommand time _ => time
  end.

(** Making a call on an object. *)
Definition make_call (self : Ponder.t) (c : authoring_call) : Ponder.t :=
  match c with
  | CallBlock time pos blk state nbt => Ponder.block self time pos blk state nbt
  | CallRemove time pos animation => Ponder.remove self time pos animation
  | CallText time pos txt duration rotation => Ponder.text self time pos txt duration rotation
  | CallEntity time pos name nbt => Ponder.entity self time pos name nbt
  | CallCommand time cmd => Ponder.command self time cmd
  end.

(** A series of calls, first to last. *)
Definition make_calls (self : Ponder.t) (calls : list authoring_call) : Ponder.t :=
  fold_left make_call calls self.

(** ** The files of a run *)

(** The path of a call to [write_text]. *)
Definition written_path (ev : event) : option PurePath :=
  match ev with
  | EvWriteText p _ _ _ => Some p
  | _ => None
  end.

(** The paths a run has called [write_text] on, in the order of the calls. *)
Definition written_paths (tr : list event) : list PurePath := omap written_path tr.

Definition action_path (a : action) : option PurePath :=
  match a with
  | DoWrite p _ _ => Some p
  | DoMkdir _ => None
  end.

(** ** The commands of a bucket *)

(** The entries of a bucket after the provenance line, each with the key
    of the bucket. *)
Definition bucket_commands (entry : Z * list string) : list compiled :=
  (λ s, (entry.1, s)) <$> drop 1 entry.2.

(** ** The worlds of a run *)

(** The answers of the operating system to a list of actions: the world
    after the last one, or the exception of the first that raises. *)
Fixpoint run_actions `{OS W} (acts : list action) (w : W) : outcome unit * W :=
  match acts with
  | [] => (Returned tt, w)
  | a :: rest =>
      match sys_perform a w with
      | (Returned _, w1) => run_actions rest w1
      | (Raised e, w1) => (Raised e, w1)
      end
  end.

(** The file system a first run leaves when [ponders.zip] is a directory
    and the operator, asked, says [y]; one more [y] waits on the standard
    input. *)
Definition after_failed_archive : Posix.world :=
  world_of (exec (Ponder.compile (fixed_commands stone_commands) empty_ponder true
                    (0, 0, 0) "ponders" ".") (Posix.with_directory ["y"; "y"])).

(** The name of the directory of the functions (line 156). *)
Definition function_dir_name (version : bool) : string :=
  if version then "function" else "functions".

(** The names, from the directory of the pack, of the files [compile]
    writes for a plain [ponder_name]. *)
Definition meta_member : list string := ["pack.mcmeta"].

Definition function_member (version : bool) (ponder_name : string) (time : Z)
  : list string :=
  ["data"; ponder_name; function_dir_name version;
   "_" +:+ str_int time +:+ ".mcfunction"].

Definition main_member (version : bool) (ponder_name : string) : list string :=
  ["data"; ponder_name; function_dir_name version; "main.mcfunction"].

(** [/home] where the operator already keeps a folder [ponders] with a
    file of their own. *)
Definition with_own_folder : Posix.world :=
  {| Posix.files := {[ ["home"] := Posix.Dir;
                       ["home"; "ponders"] := Posix.Dir;
                       ["home"; "ponders"; "notes.txt"]
                         := Posix.File (Posix.Text "mine") ]};
     Posix.cwd := ["home"]; Posix.stdin := []; Posix.logged := [] |}.

(** ** A place where a pack can be written *)

(** Every name of [ns], followed from the directory [cur], is a
    directory. *)
Definition all_dirs (fs : gmap (list string) Posix.node) (cur ns : list string) : Prop :=
  ∀ m, m `prefix_of` ns → m ≠ [] → fs !! (cur ++ m) = Some Posix.Dir.

(** No name of [ns], followed from the directory [cur], is a file. *)
Definition no_files (fs : gmap (list string) Posix.node) (cur ns : list string) : Prop :=
  ∀ m, m `prefix_of` ns → m ≠ [] → Posix.is_file (fs !! (cur ++ m)) = false.

(** A path the kernel takes: its string is not refused, and none of its
    names is over [NAME_MAX]. *)
Definition within_limits (p : PurePath) : bool :=
  match Posix.refused (str p) with
  | None => true
  | Some _ => false
  end
  && forallb (λ n, negb (Posix.long n)) (names p).
(** * Properties *)

Example group_commands_ex :
  group_commands [(5, "a"); (0, "b"); (5, "c")]
  = [(5, [header; "a"; "c"]); (0, [header; "b"])].
Proof. reflexivity. Qed.

Example schedule_line_ex : schedule_line "ponders" 5 = "schedule function ponders:5 11 append".
Proof. reflexivity. Qed.

(** ** The dictionary operations *)

Section dict.
Implicit Types (d : functions_dict) (t k : Z) (s : string).

Lemma dict_mem_keys t d : dict_mem t d = true ↔ t ∈ dict_keys d.
Proof.
  induction d as [|[k v] d IH]; simpl.
  - split; [done | by intros ?%elem_of_nil].
  - rewrite elem_of_cons. destruct (decide (k = t)) as [->|Hne].
    + naive_solver.
    + rewrite IH. naive_solver.
Qed.

Lemma dict_mem_false t d : dict_mem t d = false ↔ t ∉ dict_keys d.
Proof. rewrite <-dict_mem_keys. by destruct (dict_mem t d). Qed.

Lemma dict_get_None t d : dict_get t d = None ↔ t ∉ dict_keys d.
Proof.
  induction d as [|[k v] d IH]; simpl.
  - split; [by intros _ ?%elem_of_nil | done].
  - rewrite not_elem_of_cons. destruct (decide (k = t)) as [->|Hne].
    + naive_solver.
    + rewrite IH. naive_solver.
Qed.

Lemma dict_keys_append t s d : dict_keys (dict_append t s d) = dict_keys d.
Proof.
  induction d as [|[k v] d IH]; simpl; [done|].
  destruct (decide (k = t)); simpl; [done | by f_equal].
Qed.

Lemma dict_get_append t k s d :
  dict_get t (dict_append k s d)
  = if decide (t = k) then (λ v, v ++ [s]) <$> dict_get t d else dict_get t d.
Proof.
  induction d as [|[k' v] d IH]; simpl.
  - by destruct (decide (t = k)).
  - destruct (decide (k' = k)) as [->|Hk]; simpl.
    + destruct (decide (k = t)) as [->|Ht].
      * by rewrite decide_True.
      * by rewrite decide_False by done.
    + destruct (decide (k' = t)) as [->|Ht].
      * by rewrite decide_False by done.
      * apply IH.
Qed.

Lemma dict_keys_snoc d k v : dict_keys (d ++ [(k, v)]) = dict_keys d ++ [k].
Proof. unfold dict_keys. by rewrite fmap_app. Qed.

Lemma dict_get_snoc t d k v :
  dict_get t (d ++ [(k, v)])
  = match dict_get t d with
    | Some w => Some w
    | None => if decide (k = t) then Some v else None
    end.
Proof.
  induction d as [|[k' w] d IH]; simpl; [done|].
  by destruct (decide (k' = t)).
Qed.

Lemma dict_keys_step d t s :
  dict_keys (group_step d (t, s))
  = if decide (t ∈ dict_keys d) then dict_keys d else dict_keys d ++ [t].
Proof.
  unfold group_step. destruct (dict_mem t d) eqn:Hm.
  - apply dict_mem_keys in Hm. rewrite decide_True by done.
    apply dict_keys_append.
  - apply dict_mem_false in Hm. rewrite decide_False by done.
    apply dict_keys_snoc.
Qed.

Lemma dict_get_step t d k s :
  dict_get t (group_step d (k, s))
  = if decide (t = k)
    then Some (default [header] (dict_get t d) ++ [s])
    else dict_get t d.
Proof.
  unfold group_step. destruct (dict_mem k d) eqn:Hm.
  - rewrite dict_get_append. destruct (decide (t = k)) as [->|]; [|done].
    apply dict_mem_keys in Hm.
    destruct (dict_get k d) eqn:Hg; [done|].
    by apply dict_get_None in Hg.
  - apply dict_mem_false, dict_get_None in Hm. rewrite dict_get_snoc.
    destruct (decide (t = k)) as [->|Hne].
    + by rewrite Hm, decide_True.
    + destruct (dict_get t d); [done|]. by rewrite decide_False.
Qed.

Lemma group_commands_snoc (l : list compiled) (c : compiled) :
  group_commands (l ++ [c]) = group_step (group_commands l) c.
Proof. unfold group_commands. by rewrite fold_left_app. Qed.
End dict.

(** ** First-seen order *)

Section first_seen.
Implicit Types (l : list Z) (t x : Z).

Lemma elem_of_first_seen t l : t ∈ first_seen l ↔ t ∈ l.
Proof.
  induction l as [|x l IH]; simpl; [done|].
  rewrite !elem_of_cons, list_elem_of_filter, IH.
  destruct (decide (t = x)); naive_solver.
Qed.

Lemma NoDup_first_seen l : NoDup (first_seen l).
Proof.
  induction l as [|x l IH]; simpl; [constructor|].
  apply NoDup_cons. split; [|by apply NoDup_filter].
  rewrite list_elem_of_filter. naive_solver.
Qed.

Lemma first_seen_snoc l t :
  first_seen (l ++ [t])
  = if decide (t ∈ first_seen l) then first_seen l else first_seen l ++ [t].
Proof.
  induction l as [|x l IH]; cbn [first_seen app].
  - rewrite decide_False; [done | by intros ?%elem_of_nil].
  - rewrite IH. destruct (decide (t ∈ first_seen l)) as [Hin|Hin].
    + destruct (decide (t = x)) as [->|Hne].
      * rewrite decide_True; [done | by left].
      * rewrite decide_True; [done|].
        right. by apply list_elem_of_filter.
    + rewrite filter_app. destruct (decide (t = x)) as [->|Hne].
      * rewrite decide_True by by left.
        rewrite filter_cons_False by naive_solver.
        by rewrite filter_nil, app_nil_r.
      * rewrite decide_False.
        2:{ rewrite elem_of_cons, list_elem_of_filter. naive_solver. }
        by rewrite filter_cons_True by done.
Qed.

Lemma first_seen_length l : length (first_seen l) = size (list_to_set l : gset Z).
Proof.
  unfold size, set_size. simpl.
  apply Permutation_length, NoDup_Permutation.
  - apply NoDup_first_seen.
  - apply NoDup_elements.
  - intros t. by rewrite elem_of_first_seen, elem_of_elements, elem_of_list_to_set.
Qed.
End first_seen.

(** ** What the grouping loop computes *)

Lemma dict_keys_group (commands : list compiled) :
  dict_keys (group_commands commands) = first_seen commands.*1.
Proof.
  induction commands as [|[t s] l IH] using rev_ind; [done|].
  rewrite group_commands_snoc, dict_keys_step, fmap_app, IH. simpl.
  by rewrite first_seen_snoc.
Qed.

Lemma texts_at_snoc t (l : list compiled) k s :
  texts_at t (l ++ [(k, s)])
  = if decide (t = k) then texts_at t l ++ [s] else texts_at t l.
Proof.
  unfold texts_at. rewrite filter_app, fmap_app.
  destruct (decide (t = k)) as [->|Hne].
  - by rewrite filter_cons_True by done.
  - rewrite filter_cons_False by (simpl; congruence). simpl. by rewrite app_nil_r.
Qed.

Lemma texts_at_absent t (l : list compiled) : t ∉ l.*1 → texts_at t l = [].
Proof.
  intros Hnin. unfold texts_at.
  induction l as [|[k s] l IH]; [done|].
  cbn [fmap list_fmap fst] in Hnin. apply not_elem_of_cons in Hnin as [Hne Hnin].
  rewrite filter_cons_False by (simpl; congruence). by apply IH.
Qed.

Lemma dict_get_group t (commands : list compiled) :
  dict_get t (group_commands commands)
  = if decide (t ∈ commands.*1) then Some (header :: texts_at t commands) else None.
Proof.
  induction commands as [|[k s] l IH] using rev_ind.
  - rewrite decide_False; [done | by intros ?%elem_of_nil].
  - rewrite group_commands_snoc, dict_get_step, IH, fmap_app, texts_at_snoc.
    cbn [fmap list_fmap fst].
    destruct (decide (t = k)) as [->|Hne].
    + rewrite (decide_True (P := k ∈ _ ++ _)) by (apply elem_of_app; right; by left).
      destruct (decide (k ∈ l.*1)) as [Hin|Hin]; [done|].
      by rewrite (texts_at_absent k l).
    + destruct (decide (t ∈ l.*1)) as [Hin|Hin].
      * rewrite decide_True; [done | apply elem_of_app; by left].
      * rewrite decide_False; [done|].
        rewrite elem_of_app, list_elem_of_singleton. naive_solver.
Qed.

(** ** Rendered integers *)

Section str_int.
Implicit Types (c : ascii) (s r : string) (t : Z).

Lemma str_int_inj t1 t2 : str_int t1 = str_int t2 → t1 = t2.
Proof. apply pretty_Z_inj. Qed.

Lemma int_char_pretty_N_char (n : N) : int_char (pretty_N_char n) = true.
Proof. unfold pretty_N_char. by repeat case_match. Qed.

Lemma str_mem_app c s r : str_mem c (s +:+ r) = str_mem c s || str_mem c r.
Proof.
  induction s as [|d s IH]; simpl; [done|].
  by destruct (decide (c = d)).
Qed.

Lemma str_mem_pretty_N_go c (x : N) s :
  int_char c = false → str_mem c (pretty_N_go x s) = str_mem c s.
Proof.
  intros Hc. revert s.
  induction (N.lt_wf_0 x) as [x _ IH]; intros s.
  destruct (decide (x = 0)%N) as [->|Hx]; [by rewrite pretty_N_go_0|].
  rewrite pretty_N_go_step by lia.
  rewrite IH by (apply N.div_lt; lia). simpl.
  destruct (decide (c = _)) as [->|]; [|done].
  by rewrite int_char_pretty_N_char in Hc.
Qed.

Lemma str_mem_str_int c t : int_char c = false → str_mem c (str_int t) = false.
Proof.
  intros Hc. unfold str_int, pretty, pretty_Z.
  assert (Hpos : ∀ p : positive, str_mem c (pretty p) = false).
  { intros p. unfold pretty, pretty_positive, pretty, pretty_N.
    rewrite decide_False by done. by rewrite str_mem_pretty_N_go. }
  destruct t as [|p|p].
  - simpl. destruct (decide (c = _)) as [->|]; done.
  - apply Hpos.
  - rewrite str_mem_app, Hpos. simpl.
    destruct (decide (c = _)) as [->|]; done.
Qed.

(** Two strings free of [c], each followed by [c], are equal when the
    wholes are. *)
Lemma app_sep_inj c s1 s2 r1 r2 :
  str_mem c s1 = false → str_mem c s2 = false →
  s1 +:+ String c r1 = s2 +:+ String c r2 → s1 = s2 ∧ r1 = r2.
Proof.
  revert s2. induction s1 as [|d s1 IH]; intros [|e s2]; simpl.
  - intros _ _ [= ->]. done.
  - intros _ He [= <- _]. by rewrite decide_True in He.
  - intros Hd _ [= -> _]. by rewrite decide_True in Hd.
  - intros Hd He [= -> Heq].
    destruct (decide (c = e)); [done|].
    destruct (IH s2 Hd He Heq) as [-> ->]. done.
Qed.

Lemma schedule_line_inj (ponder_name : string) t1 t2 :
  schedule_line ponder_name t1 = schedule_line ponder_name t2 → t1 = t2.
Proof.
  unfold schedule_line. intros Heq.
  apply (inj (String.app _)), (inj (String.app _)) in Heq.
  apply (inj (String.app _)) in Heq.
  apply app_sep_inj in Heq as [Heq _]; [by apply str_int_inj|..];
    by apply str_mem_str_int.
Qed.

Lemma schedule_line_not_header (ponder_name : string) t :
  schedule_line ponder_name t ≠ header.
Proof. discriminate. Qed.
End str_int.


(** ** Running programs *)

Section exec.
Context `{OS W}.

Lemma exec_bind {A B} (m : Py A) (f : A → Py B) (w : W) :
  exec (m ≫= f) w = then_run (exec m w) (λ a, exec (f a)).
Proof.
  unfold mbind, Py_bind. revert w.
  induction m as [a|e|lv msg k IH|k IH|path k IH|p k IH|p k IH|p d enc k IH
                 |b fmt r k IH|p k IH]; intros w; simpl.
  - by destruct (exec (f a) w) as [[o w2] tr2].
  - done.
  - rewrite IH. destruct (exec k _) as [[[a|e] w1] tr1]; simpl; [|done].
    by destruct (exec (f a) w1) as [[o w2] tr2].
  - destruct (sys_input w) as [[s|e] w0]; simpl; [|done].
    rewrite IH. destruct (exec (k s) w0) as [[[a|e] w1] tr1]; simpl; [|done].
    by destruct (exec (f a) w1) as [[o w2] tr2].
  - rewrite IH. destruct (exec (k _) w) as [[[a|e] w1] tr1]; simpl; [|done].
    by destruct (exec (f a) w1) as [[o w2] tr2].
  - rewrite IH. destruct (exec (k _) w) as [[[a|e] w1] tr1]; simpl; [|done].
    by destruct (exec (f a) w1) as [[o w2] tr2].
  - destruct (sys_mkdir p w) as [[u|e] w0]; simpl; [|done].
    rewrite IH. destruct (exec k w0) as [[[a|e] w1] tr1]; simpl; [|done].
    by destruct (exec (f a) w1) as [[o w2] tr2].
  - destruct (sys_write_text p d enc w) as [[u|e] w0]; simpl; [|done].
    rewrite IH. destruct (exec k w0) as [[[a|e] w1] tr1]; simpl; [|done].
    by destruct (exec (f a) w1) as [[o w2] tr2].
  - destruct (sys_make_archive b fmt r w) as [[s|e] w0]; simpl; [|done].
    rewrite IH. destruct (exec (k s) w0) as [[[a|e] w1] tr1]; simpl; [|done].
    by destruct (exec (f a) w1) as [[o w2] tr2].
  - destruct (sys_rmtree p w) as [[u|e] w0]; simpl; [|done].
    rewrite IH. destruct (exec k w0) as [[[a|e] w1] tr1]; simpl; [|done].
    by destruct (exec (f a) w1) as [[o w2] tr2].
Qed.
End exec.

(** ** Programs that run alike *)

Lemma then_run_assoc {W A B C} (r : run_result W A)
    (k1 : A → W → run_result W B) (k2 : B → W → run_result W C) :
  then_run (then_run r k1) k2 = then_run r (λ a w, then_run (k1 a w) k2).
Proof.
  destruct r as [[[a|e] w1] tr1]; simpl; [|done].
  destruct (k1 a w1) as [[[b|e] w2] tr2]; simpl; [|done].
  destruct (k2 b w2) as [[o w3] tr3]. by rewrite app_assoc.
Qed.

Lemma then_run_ext {W A B} (r : run_result W A) (k k' : A → W → run_result W B) :
  (∀ a w, k a w = k' a w) → then_run r k = then_run r k'.
Proof. intros Hk. destruct r as [[[a|e] w1] tr1]; simpl; [|done]. by rewrite Hk. Qed.

Global Instance same_run_equivalence {A} : Equivalence (@same_run A).
Proof.
  split.
  - by intros p W H w.
  - intros p q Hpq W H w. by rewrite Hpq.
  - intros p q r Hpq Hqr W H w. by rewrite Hpq, Hqr.
Qed.

Global Instance bind_same_run {A B} :
  Proper (pointwise_relation A same_run ==> same_run ==> same_run) (mbind (M := Py) (B := B)).
Proof.
  intros f g Hfg p q Hpq W H w.
  rewrite !exec_bind, Hpq. apply then_run_ext. intros a w1. apply Hfg.
Qed.

Lemma bind_assoc_run {A B C} (m : Py A) (f : A → Py B) (g : B → Py C) :
  same_run ((m ≫= f) ≫= g) (m ≫= λ a, f a ≫= g).
Proof.
  intros W H w. rewrite !exec_bind, then_run_assoc.
  apply then_run_ext. intros a w1. by rewrite exec_bind.
Qed.

Lemma bind_ret_run {A} (m : Py A) : same_run (m ≫= mret) m.
Proof.
  intros W H w. rewrite exec_bind.
  destruct (exec m w) as [[[a|e] w1] tr1]; simpl; [|done]. by rewrite app_nil_r.
Qed.

Lemma for_each_app_run {A} (body : A → Py unit) (l1 l2 : list A) :
  same_run (for_each body (l1 ++ l2)) (for_each body l1 ;; for_each body l2).
Proof.
  induction l1 as [|x l1 IH]; simpl.
  - intros W H w. simpl. by destruct (exec _ w) as [[o w1] tr1].
  - etrans; [|symmetry; apply bind_assoc_run].
    apply bind_same_run; [|done]. intros _. apply IH.
Qed.

Lemma for_each_fmap_run {A B} (g : A → B) (body : B → Py unit) (l : list A) :
  same_run (for_each body (g <$> l)) (for_each (body ∘ g) l).
Proof.
  induction l as [|x l IH]; simpl; [done|].
  apply bind_same_run; [|done]. intros _. apply IH.
Qed.

Lemma bind_unit_run (m : Py unit) : same_run (m ;; Ret tt) m.
Proof.
  intros W H w. rewrite exec_bind.
  destruct (exec m w) as [[[[]|e] w1] tr1]; simpl; [|done]. by rewrite app_nil_r.
Qed.

Lemma for_each_cons_bind_run {A B} (body : A → Py unit) x (l : list A) (g : Py B) :
  same_run (for_each body (x :: l) ;; g) (body x ;; (for_each body l ;; g)).
Proof. simpl. apply bind_assoc_run. Qed.

(** ** The stages of [compile] *)

Section stages.
Variable compile_operations : Ponder.t → position → outcome (list compiled).
Variables (self : Ponder.t) (version : bool) (pos_offset : position).
Variables (ponder_name output_dir : string).

Lemma write_functions_script (function_dir : PurePath) (functions : functions_dict) :
  same_run (Ponder.write_functions function_dir functions)
    (for_each perform (bucket_write function_dir <$> functions)).
Proof.
  unfold Ponder.write_functions. rewrite for_each_fmap_run.
  induction functions as [|[time command_list] l IH]; cbn [for_each]; [done|].
  apply bind_same_run; [|done]. intros _. apply IH.
Qed.

Lemma write_datapack_script (datapack_dir : PurePath) :
  same_run
    (Ponder.write_datapack compile_operations self version pos_offset ponder_name
       datapack_dir)
    (commands ← lift (compile_operations self pos_offset);
     there ← path_exists datapack_dir;
     for_each perform
       (datapack_actions version ponder_name datapack_dir there
          (group_commands commands)) ;;
     mret (commands, group_commands commands)).
Proof.
  unfold Ponder.write_datapack.
  apply bind_same_run; [|done]. intros commands.
  apply bind_same_run; [|done]. intros there.
  unfold datapack_actions.
  rewrite for_each_app_run, bind_assoc_run.
  apply bind_same_run.
  2:{ destruct there; cbn [negb for_each]; [done|]. symmetry. apply bind_unit_run. }
  intros _. cbn [app].
  rewrite for_each_cons_bind_run. apply bind_same_run; [|done]. intros _.
  rewrite for_each_cons_bind_run. apply bind_same_run; [|done]. intros _.
  rewrite for_each_app_run, bind_assoc_run.
  apply bind_same_run; [|by rewrite write_functions_script]. intros _.
  rewrite for_each_cons_bind_run. apply bind_same_run; [|done]. intros _.
  done.
Qed.
End stages.

(** ** Runs of the stages on any operating system *)

Section runs.
Context `{OS W}.
Variable compile_operations : Ponder.t → position → outcome (list compiled).
Variables (self : Ponder.t) (version : bool) (pos_offset : position).
Variables (ponder_name output_dir : string).

Lemma exec_perform (a : action) (w : W) :
  exec (perform a) w
  = match sys_perform a w with
    | (Returned _, w1) => (Returned tt, w1, [performed (Returned tt) a])
    | (Raised e, w1) => (Raised e, w1, [performed (Raised e) a])
    end.
Proof.
  destruct a as [p|p data enc]; simpl.
  - by destruct (sys_mkdir p w) as [[[]|e] w1].
  - by destruct (sys_write_text p data enc w) as [[[]|e] w1].
Qed.

(** A list of actions runs to its end, or stops at the first one that
    raises. *)
Lemma exec_perform_all (acts : list action) (w : W) out w' tr :
  exec (for_each perform acts) w = (out, w', tr) →
  (out = Returned tt ∧ tr = performed (Returned tt) <$> acts)
  ∨ (∃ n a e, acts !! n = Some a ∧ out = Raised e
       ∧ tr = (performed (Returned tt) <$> take n acts) ++ [performed (Raised e) a]).
Proof.
  revert w tr. induction acts as [|a acts IH]; intros w tr; cbn [for_each].
  - simpl. intros [= <- <- <-]. by left.
  - rewrite exec_bind, exec_perform.
    destruct (sys_perform a w) as [[[]|e] w1]; simpl.
    + destruct (exec (for_each perform acts) w1) as [[o w2] tr2] eqn:Hrest.
      intros [= <- <- <-].
      destruct (IH _ _ Hrest) as [[-> ->]|(n & b & e & Hn & -> & ->)].
      * by left.
      * right. by exists (S n), b, e.
    + intros [= <- <- <-]. right. by exists 0%nat, a, e.
Qed.

Lemma exec_pack_datapack (datapack_dir : PurePath) (commands : list compiled)
    (functions : functions_dict) (w : W) :
  exec (Ponder.pack_datapack ponder_name output_dir datapack_dir commands functions) w
  = match sys_make_archive datapack_dir "zip" datapack_dir w with
    | (Raised e, w1) =>
        (Raised e, w1, [EvMakeArchive datapack_dir "zip" datapack_dir (Raised e)])
    | (Returned s, w1) =>
        match sys_rmtree datapack_dir w1 with
        | (Raised e, w2) =>
            (Raised e, w2,
             [EvMakeArchive datapack_dir "zip" datapack_dir (Returned s);
              EvRmtree datapack_dir (Raised e)])
        | (Returned _, w2) =>
            match max_of (dict_keys functions) with
            | None =>
                (Raised ValueError, w2,
                 [EvMakeArchive datapack_dir "zip" datapack_dir (Returned s);
                  EvRmtree datapack_dir (Returned tt)])
            | Some max_time =>
                let m := MsgDone (length functions) (length commands) max_time
                           output_dir ponder_name in
                (Returned None, sys_log Info m w2,
                 [EvMakeArchive datapack_dir "zip" datapack_dir (Returned s);
                  EvRmtree datapack_dir (Returned tt); EvLog Info m])
            end
        end
    end.
Proof.
  unfold Ponder.pack_datapack. simpl.
  destruct (sys_make_archive _ _ _ w) as [[s|e] w1]; simpl; [|done].
  destruct (sys_rmtree _ w1) as [[[]|e] w2]; simpl; [|done].
  by destruct (max_of _).
Qed.

(** The runs of lines 138-181. *)
Lemma write_datapack_run (datapack_dir : PurePath) (w : W) out w' tr :
  exec (Ponder.write_datapack compile_operations self version pos_offset ponder_name
          datapack_dir) w = (out, w', tr) →
  match compile_operations self pos_offset with
  | Raised e => out = Raised e ∧ w' = w ∧ tr = []
  | Returned commands =>
      let there := sys_path_exists datapack_dir w in
      let acts := datapack_actions version ponder_name datapack_dir there
                    (group_commands commands) in
      (out = Returned (commands, group_commands commands)
       ∧ tr = EvPathExists datapack_dir there :: (performed (Returned tt) <$> acts))
      ∨ (∃ n a e, acts !! n = Some a ∧ out = Raised e
           ∧ tr = EvPathExists datapack_dir there
                    :: (performed (Returned tt) <$> take n acts)
                    ++ [performed (Raised e) a])
  end.
Proof.
  rewrite write_datapack_script, exec_bind.
  destruct (compile_operations self pos_offset) as [commands|e]; simpl.
  2:{ by intros [= <- <- <-]. }
  rewrite exec_bind.
  destruct (exec (for_each perform _) w) as [[o1 w1] tr1] eqn:Hacts.
  apply exec_perform_all in Hacts as [[-> ->]|(n & a & e & Hn & -> & ->)]; simpl.
  - intros [= <- <- <-]. left. by rewrite app_nil_r.
  - intros [= <- <- <-]. right. by exists n, a, e.
Qed.
(** The runs of lines 183-190. *)
Lemma pack_datapack_run (datapack_dir : PurePath) (commands : list compiled)
    (functions : functions_dict) (w : W) out w' tr :
  exec (Ponder.pack_datapack ponder_name output_dir datapack_dir commands functions) w
    = (out, w', tr) →
  let archive := EvMakeArchive datapack_dir "zip" datapack_dir in
  (∃ e, out = Raised e ∧ tr = [archive (Raised e)])
  ∨ (∃ s e, out = Raised e
       ∧ tr = [archive (Returned s); EvRmtree datapack_dir (Raised e)])
  ∨ (∃ s, functions = [] ∧ out = Raised ValueError
       ∧ tr = [archive (Returned s); EvRmtree datapack_dir (Returned tt)])
  ∨ (∃ s max_time, max_of (dict_keys functions) = Some max_time
       ∧ out = Returned None
       ∧ tr = [archive (Returned s); EvRmtree datapack_dir (Returned tt);
               EvLog Info (MsgDone (length functions) (length commands) max_time
                             output_dir ponder_name)]).
Proof.
  rewrite exec_pack_datapack.
  destruct (sys_make_archive _ _ _ w) as [[s|e] w1].
  2:{ intros [= <- <- <-]. left. by exists e. }
  destruct (sys_rmtree _ w1) as [[[]|e] w2].
  2:{ intros [= <- <- <-]. right. left. by exists s, e. }
  destruct (max_of (dict_keys functions)) as [max_time|] eqn:Hmax.
  - intros [= <- <- <-]. do 3 right. by exists s, max_time.
  - intros [= <- <- <-]. right. right. left. exists s.
    split; [|done]. by destruct functions.
Qed.

(** The runs of lines 138-190. *)
Lemma compile_body_run (w : W) out w' tr :
  exec (Ponder.compile_body compile_operations self version pos_offset ponder_name
          output_dir) w = (out, w', tr) →
  let datapack_dir := Ponder.datapack_dir ponder_name output_dir in
  match compile_operations self pos_offset with
  | Raised e => out = Raised e ∧ w' = w ∧ tr = []
  | Returned commands =>
      let functions := group_commands commands in
      let there := sys_path_exists datapack_dir w in
      let acts := datapack_actions version ponder_name datapack_dir there functions in
      (∃ n a e, acts !! n = Some a ∧ out = Raised e
         ∧ tr = EvPathExists datapack_dir there
                  :: (performed (Returned tt) <$> take n acts)
                  ++ [performed (Raised e) a])
      ∨ (∃ w1 ptr,
           exec (Ponder.pack_datapack ponder_name output_dir datapack_dir commands
                   functions) w1 = (out, w', ptr)
           ∧ tr = EvPathExists datapack_dir there
                    :: (performed (Returned tt) <$> acts) ++ ptr)
  end.
Proof.
  unfold Ponder.compile_body. rewrite exec_bind.
  destruct (exec (Ponder.write_datapack _ _ _ _ _ _) w) as [[o1 w1] tr1] eqn:Hwrite.
  apply write_datapack_run in Hwrite.
  destruct (compile_operations self pos_offset) as [commands|e].
  - destruct Hwrite as [[-> ->]|(n & a & e & Hn & -> & ->)]; cbn [then_run].
    + destruct (exec _ w1) as [[o2 w2] tr2] eqn:Hpack.
      intros [= <- <- <-]. right. by exists w1, tr2.
    + intros [= <- <- <-]. left. by exists n, a, e.
  - destruct Hwrite as (-> & -> & ->). cbn [then_run]. by intros [= <- <- <-].
Qed.

Abbreviation asked_here := (asked version pos_offset ponder_name output_dir).

Lemma exec_compile (w : W) :
  let w0 := sys_log Debug (MsgArguments version pos_offset ponder_name output_dir)
              (sys_log Info MsgCompiling w) in
  let body := Ponder.compile_body compile_operations self version pos_offset
                ponder_name output_dir in
  exec (Ponder.compile compile_operations self version pos_offset ponder_name
          output_dir) w
  = if sys_os_path_exists (Ponder.zip_file ponder_name output_dir) w0 then
      match sys_input (sys_log Warning (MsgArchiveExists ponder_name) w0) with
      | (Raised e, w1) => (Raised e, w1, asked_here true ++ [EvInput (Raised e)])
      | (Returned answer, w1) =>
          if decide (lower answer ≠ "y") then
            (Returned None, sys_log Info MsgCancelled w1,
             asked_here true ++ [EvInput (Returned answer); EvLog Info MsgCancelled])
          else preceded (asked_here true ++ [EvInput (Returned answer)]) (exec body w1)
      end
    else preceded (asked_here false) (exec body w0).
Proof.
  intros w0 body. unfold Ponder.compile. fold body.
  cbn -[body]. fold w0.
  destruct (sys_os_path_exists _ w0); cbn -[body].
  - destruct (sys_input _) as [[answer|e] w1]; cbn -[body]; [|done].
    destruct (decide (lower answer ≠ "y")); cbn -[body]; [done|].
    by destruct (exec body w1) as [[o w2] tr2].
  - by destruct (exec body w0) as [[o w2] tr2].
Qed.

(** The runs of [compile]: cancelled, ended by [input()], or gone on to
    line 138. *)
Lemma compile_run (w : W) out w' tr :
  exec (Ponder.compile compile_operations self version pos_offset ponder_name
          output_dir) w = (out, w', tr) →
  (∃ answer, lower answer ≠ "y" ∧ out = Returned None
     ∧ tr = asked_here true ++ [EvInput (Returned answer); EvLog Info MsgCancelled])
  ∨ (∃ e, out = Raised e ∧ tr = asked_here true ++ [EvInput (Raised e)])
  ∨ (∃ pre w1 btr,
       (pre = asked_here false
        ∨ ∃ answer, lower answer = "y" ∧ pre = asked_here true ++ [EvInput (Returned answer)])
       ∧ exec (Ponder.compile_body compile_operations self version pos_offset
                 ponder_name output_dir) w1 = (out, w', btr)
       ∧ tr = pre ++ btr).
Proof.
  rewrite exec_compile.
  destruct (sys_os_path_exists _ _).
  - destruct (sys_input _) as [[answer|e] w1].
    + destruct (decide (lower answer ≠ "y")) as [Hno|Hyes].
      * intros [= <- <- <-]. left. by exists answer.
      * destruct (exec _ w1) as [[o w2] tr2] eqn:Hbody. intros [= <- <- <-].
        do 2 right. exists (asked_here true ++ [EvInput (Returned answer)]), w1, tr2.
        split_and!; [|done..]. right. exists answer.
        split; [|done]. by destruct (decide (lower answer = "y")).
    + intros [= <- <- <-]. right. left. by exists e.
  - destruct (exec _ _) as [[o w2] tr2] eqn:Hbody. intros [= <- <- <-].
    do 2 right. eexists (asked_here false), _, tr2. split_and!; [by left|done..].
Qed.
End runs.

(** ** Every run of [compile] is one of the listed runs *)

Section compile_runs.
Context `{OS W}.
Variable compile_operations : Ponder.t → position → outcome (list compiled).
Variables (self : Ponder.t) (version : bool) (pos_offset : position).
Variables (ponder_name output_dir : string).

Lemma pack_runs_exec (commands : list compiled) (functions : functions_dict) (w : W)
    out w' tr :
  exec (Ponder.pack_datapack ponder_name output_dir
          (Ponder.datapack_dir ponder_name output_dir) commands functions) w
    = (out, w', tr) →
  pack_runs ponder_name output_dir commands functions out tr.
Proof.
  intros Hrun. apply pack_datapack_run in Hrun
    as [(e & -> & ->)|[(s & e & -> & ->)|[(s & Hf & -> & ->)|(s & m & Hm & -> & ->)]]].
  - constructor.
  - constructor.
  - by constructor.
  - by constructor.
Qed.

Lemma compile_runs_exec (w : W) :
  let r := exec (Ponder.compile compile_operations self version pos_offset
                   ponder_name output_dir) w in
  compile_runs compile_operations self version pos_offset ponder_name output_dir
    (outcome_of r) (trace_of r).
Proof.
  intros r. destruct r as [[out w'] tr] eqn:Hrun. unfold r in Hrun. clear r.
  unfold outcome_of, trace_of. simpl.
  apply compile_run in Hrun
    as [(answer & Hno & -> & ->)|[(e & -> & ->)|(pre & w1 & btr & Hpre & Hbody & ->)]].
  - by constructor.
  - constructor.
  - assert (Hpassed : passed_prompt version pos_offset ponder_name output_dir pre).
    { destruct Hpre as [->|(answer & Hyes & ->)]; by constructor. }
    apply compile_body_run in Hbody.
    destruct (compile_operations self pos_offset) as [commands|e] eqn:Hco.
    + destruct Hbody as [(n & a & e & Hn & -> & ->)|(w2 & ptr & Hpack & ->)].
      * by eapply run_write_raised.
      * eapply run_packed; [done..|]. by eapply pack_runs_exec.
    + destruct Hbody as (-> & -> & ->). rewrite app_nil_r.
      by apply run_compiler_raised.
Qed.
End compile_runs.

(** ** The grouping step and the scheduling chain *)

Lemma filter_eq_NoDup (l : list Z) (t : Z) :
  NoDup l → t ∈ l → filter (λ k, k = t) l = [t].
Proof.
  induction 1 as [|x l Hx Hl IH]; [by intros ?%elem_of_nil|].
  intros [->|Hin]%elem_of_cons.
  - rewrite filter_cons_True by done. f_equal.
    apply elem_of_nil_inv. intros k [-> Hk]%list_elem_of_filter. done.
  - rewrite filter_cons_False by (intros ->; done). by apply IH.
Qed.

Lemma filter_fmap_inj (f : Z → string) (l : list Z) (t : Z) :
  (∀ k, f k = f t → k = t) →
  filter (λ s, s = f t) (f <$> l) = f <$> filter (λ k, k = t) l.
Proof.
  intros Hinj. induction l as [|x l IH]; [done|]. cbn [fmap list_fmap].
  destruct (decide (x = t)) as [->|Hne].
  - rewrite !filter_cons_True by done. cbn [fmap list_fmap]. by f_equal.
  - rewrite !filter_cons_False; [done..|]. intros Heq. by apply Hne, Hinj.
Qed.

(** The dictionary, entry by entry. *)
Lemma group_commands_entries (commands : list compiled) :
  group_commands commands
  = (λ t, (t, header :: texts_at t commands)) <$> first_seen commands.*1.
Proof.
  rewrite <-dict_keys_group.
  assert (Hget : ∀ t, t ∈ dict_keys (group_commands commands) →
            dict_get t (group_commands commands) = Some (header :: texts_at t commands)).
  { intros t Ht. rewrite dict_get_group, decide_True; [done|].
    by rewrite dict_keys_group, elem_of_first_seen in Ht. }
  assert (Hnd : NoDup (dict_keys (group_commands commands))).
  { rewrite dict_keys_group. apply NoDup_first_seen. }
  revert Hget Hnd. generalize (group_commands commands) as d.
  intros d. generalize (λ t, header :: texts_at t commands) as v. intros v.
  induction d as [|[k x] d IH]; intros Hget Hnd; [done|].
  cbn [dict_keys fmap list_fmap fst] in *. apply NoDup_cons in Hnd as [Hk Hnd].
  f_equal.
  - specialize (Hget k (list_elem_of_here _ _)). simpl in Hget.
    rewrite decide_True in Hget by done. congruence.
  - apply IH; [|done]. intros t Ht.
    specialize (Hget t (list_elem_of_further _ _ _ Ht)). simpl in Hget.
    rewrite decide_False in Hget; [done|]. intros ->. done.
Qed.

(** C1. For every [ponder_name] and every time [t] of the compiled
    commands, [functions] has exactly one key [t], the command list of
    [main.mcfunction] holds exactly one line equal to the directive of [t],
    no other key yields that line, and the directive is
    [schedule function {ponder_name}:{t} {2*t + 1} append]. *)
Theorem schedule_directive_exactly_once (ponder_name : string)
    (commands : list compiled) (t : Z) :
  t ∈ commands.*1 →
  let functions := group_commands commands in
  let directive := "schedule function " +:+ ponder_name +:+ ":" +:+ str_int t +:+ " "
                     +:+ str_int (2 * t + 1) +:+ " append" in
  schedule_line ponder_name t = directive
  ∧ length (filter (λ k, k = t) (dict_keys functions)) = 1%nat
  ∧ length (filter (λ s, s = directive) (main_command_list ponder_name functions)) = 1%nat
  ∧ ∀ k, schedule_line ponder_name k = directive → k = t.
Proof.
  intros Ht functions directive.
  assert (Hline : schedule_line ponder_name t = directive).
  { unfold schedule_line, directive. by rewrite (Z.mul_comm t 2). }
  assert (Hinj : ∀ k, schedule_line ponder_name k = schedule_line ponder_name t → k = t).
  { intros k. apply schedule_line_inj. }
  assert (Hone : filter (λ k, k = t) (dict_keys functions) = [t]).
  { apply filter_eq_NoDup; unfold functions; rewrite dict_keys_group.
    - apply NoDup_first_seen.
    - by apply elem_of_first_seen. }
  split_and!; [done|by rewrite Hone| |by rewrite <-Hline].
  rewrite <-Hline. unfold main_command_list, schedule_chain.
  rewrite filter_cons_False by (intros Heq; by apply (schedule_line_not_header ponder_name t)).
  by rewrite (filter_fmap_inj _ _ _ Hinj), Hone.
Qed.

Lemma schedule_directive_exactly_once_witness :
  let functions := group_commands [(5, "setblock 1 0 0 minecraft:stone")] in
  schedule_line "ponders" 5 = "schedule function ponders:5 11 append"
  ∧ length (filter (λ k, k = 5) (dict_keys functions)) = 1%nat
  ∧ length (filter (λ s, s = "schedule function ponders:5 11 append")
              (main_command_list "ponders" functions)) = 1%nat
  ∧ ∀ k, schedule_line "ponders" k = "schedule function ponders:5 11 append" → k = 5.
Proof.
  apply (schedule_directive_exactly_once "ponders"
           [(5, "setblock 1 0 0 minecraft:stone")] 5).
  apply list_elem_of_here.
Defined.

(** C2. The grouping step makes as many buckets as the commands have
    distinct times, no time twice, and the entry of a time [t] is the
    provenance line followed by exactly the texts of the pairs whose time is
    [t], in the order of the sequence; a time that does not occur has no
    entry. *)
Theorem grouping_buckets (commands : list compiled) :
  let functions := group_commands commands in
  length functions = size (list_to_set commands.*1 : gset Z)
  ∧ NoDup (dict_keys functions)
  ∧ ∀ t, dict_get t functions
         = if decide (t ∈ commands.*1) then Some (header :: texts_at t commands)
           else None.
Proof.
  intros functions. split_and!.
  - rewrite <-first_seen_length, <-dict_keys_group. unfold dict_keys.
    by rewrite length_fmap.
  - unfold functions. rewrite dict_keys_group. apply NoDup_first_seen.
  - intros t. apply dict_get_group.
Qed.

(** ** The order of the buckets *)

Lemma StronglySorted_filter_lt (P : Z → Prop) `{!∀ x, Decision (P x)} (l : list Z) :
  StronglySorted Z.lt l → StronglySorted Z.lt (filter P l).
Proof.
  induction 1 as [|x l Hl IH Hx]; [constructor|].
  destruct (decide (P x)).
  - rewrite filter_cons_True by done. apply StronglySorted_cons. split; [|done].
    apply Forall_forall. intros y [_ Hy]%list_elem_of_filter.
    by apply (proj1 (Forall_forall _ _) Hx).
  - by rewrite filter_cons_False.
Qed.

Lemma first_seen_sorted (l : list Z) :
  Sorted Z.le l → StronglySorted Z.lt (first_seen l).
Proof.
  intros Hl. apply Sorted.Sorted_StronglySorted in Hl.
  2:{ unfold Relations_1.Transitive. lia. }
  induction Hl as [|x l Hl IH Hx]; [constructor|].
  cbn [first_seen]. apply StronglySorted_cons. split.
  - apply Forall_forall. intros y [Hne Hy]%list_elem_of_filter.
    apply (proj1 (elem_of_first_seen y l)) in Hy.
    pose proof (proj1 (Forall_forall _ _) Hx y Hy). lia.
  - by apply StronglySorted_filter_lt.
Qed.

(** C3, as the code has it. Buckets are created in the order in which
    their times are first seen, and the directives of [main.mcfunction]
    follow the buckets in that order; when the times of the commands never
    decrease the chain is strictly increasing, and commands out of order can
    leave it unsorted, as the times 5, 0 do. *)
Theorem bucket_order_first_seen (ponder_name : string) (commands : list compiled) :
  let functions := group_commands commands in
  dict_keys functions = first_seen commands.*1
  ∧ schedule_chain ponder_name functions
    = schedule_line ponder_name <$> first_seen commands.*1
  ∧ (Sorted Z.le commands.*1 → StronglySorted Z.lt (dict_keys functions))
  ∧ dict_keys (group_commands [(5, "a"); (0, "b")]) = [5; 0].
Proof.
  intros functions. unfold schedule_chain, functions. rewrite dict_keys_group.
  split_and!; [done..| |done]. apply first_seen_sorted.
Qed.

Lemma bucket_order_first_seen_witness :
  StronglySorted Z.lt (dict_keys (group_commands [(0, "a"); (0, "b"); (3, "c")])).
Proof.
  apply (bucket_order_first_seen "ponders" [(0, "a"); (0, "b"); (3, "c")]).
  repeat constructor; simpl; lia.
Defined.

(** C3, as the claim has it, fails: the times 1, 2, 1 are not in
    non-decreasing order and the chain 1, 2 is sorted all the same. *)
Lemma bucket_order_counterexample :
  let commands := [(1, "a"); (2, "b"); (1, "c")] in
  ¬ Sorted Z.le commands.*1
  ∧ schedule_chain "ponders" (group_commands commands)
    = ["schedule function ponders:1 3 append"; "schedule function ponders:2 5 append"]
  ∧ StronglySorted Z.lt (dict_keys (group_commands commands)).
Proof.
  split_and!.
  - intros Hs. apply Sorted_inv in Hs as [Hs _]. apply Sorted_inv in Hs as [_ Hs].
    apply HdRel_inv in Hs. simpl in Hs. lia.
  - reflexivity.
  - repeat constructor; simpl; lia.
Qed.

(** ** [json.dumps(meta_data)] *)

Lemma dumps_meta_data : dumps meta_data = pack_mcmeta_text.
Proof. reflexivity. Qed.

(** ** The constructor *)

(** C9. For every integer [size], [Ponder(size)] returns an object with
    that size and no commands, whatever the operating system; the only call
    it can make is one [logger.critical], made exactly when [size > 8] and
    [size % 3 != 0], and nothing is raised. *)
Theorem init_never_raises `{OS W} (size : Z) (w : W) :
  let r := exec (Ponder.init size) w in
  let oversized := bool_decide (size > 8 ∧ size mod 3 ≠ 0) in
  outcome_of r = Returned {| Ponder.size := size; Ponder.commands := [] |}
  ∧ trace_of r = (if oversized then [EvLog Critical MsgInitFailed] else [])
  ∧ world_of r = (if oversized then sys_log Critical MsgInitFailed w else w).
Proof.
  intros r oversized. unfold r, Ponder.init.
  assert (Hov : (size >? 8) && negb (size mod 3 =? 0) = oversized).
  { unfold oversized. destruct (Z.gtb_spec size 8), (Z.eqb_spec (size mod 3) 0); simpl.
    - rewrite bool_decide_eq_false_2; [done | intros [_ ?]; done].
    - rewrite bool_decide_eq_true_2; [done | lia].
    - rewrite bool_decide_eq_false_2; [done | lia].
    - rewrite bool_decide_eq_false_2; [done | lia]. }
  rewrite Hov. by destruct oversized.
Qed.

(** ** Declining the overwrite prompt *)

Lemma lower_ascii_y (c : ascii) :
  lower_ascii c = "y"%char → c = "y"%char ∨ c = "Y"%char.
Proof.
  destruct c as [[] [] [] [] [] [] [] []]; vm_compute; intros Hc;
    first [by left | by right | discriminate Hc].
Qed.

Lemma lower_y (s : string) : lower s = "y" ↔ s = "y" ∨ s = "Y".
Proof.
  split.
  - destruct s as [|c [|d s]]; simpl; [done| |done].
    intros [= Hc]. destruct (lower_ascii_y c Hc) as [-> | ->]; auto.
  - by intros [-> | ->].
Qed.

(** C5. When the test of line 132 finds the archive and the operator
    answers anything but [y] or [Y], [compile] returns [None] after the
    calls listed here: two log records, the test, the warning, [input()]
    and the record of the cancellation. None of them creates, writes or
    removes a file or a directory, and whatever logging and reading the
    answer leave alone is as it was. *)
Theorem compile_cancel_no_side_effect `{OS W}
    (compile_operations : Ponder.t → position → outcome (list compiled))
    (self : Ponder.t) (version : bool) (pos_offset : position)
    (ponder_name output_dir : string) (w w1 : W) (answer : string)
    {F : Type} (obs : W → F) :
  let w0 := sys_log Debug (MsgArguments version pos_offset ponder_name output_dir)
              (sys_log Info MsgCompiling w) in
  sys_os_path_exists (output_dir +:+ "/" +:+ ponder_name +:+ ".zip") w0 = true →
  sys_input (sys_log Warning (MsgArchiveExists ponder_name) w0) = (Returned answer, w1) →
  answer ≠ "y" → answer ≠ "Y" →
  (∀ lv m w, obs (sys_log lv m w) = obs w) →
  (∀ w, obs (sys_input w).2 = obs w) →
  let r := exec (Ponder.compile compile_operations self version pos_offset ponder_name
                   output_dir) w in
  outcome_of r = Returned None
  ∧ trace_of r = asked version pos_offset ponder_name output_dir true
                 ++ [EvInput (Returned answer); EvLog Info MsgCancelled]
  ∧ Forall (λ ev, mutates ev = false) (trace_of r)
  ∧ obs (world_of r) = obs w.
Proof.
  intros w0 Hfound Hinput Hy HY Hlog Hin r.
  assert (Hlower : lower answer ≠ "y").
  { intros [?|?]%lower_y; done. }
  unfold r. rewrite exec_compile. fold w0.
  unfold Ponder.zip_file. rewrite Hfound, Hinput, decide_True by done.
  split_and!; [done|done| |].
  - repeat constructor.
  - unfold world_of. simpl. rewrite Hlog.
    change w1 with (Returned answer, w1).2. rewrite <-Hinput, Hin.
    unfold w0. by rewrite !Hlog.
Qed.

Lemma compile_cancel_no_side_effect_witness :
  let r := exec (Ponder.compile (fixed_commands stone_commands) empty_ponder true
                   (0, 0, 0) "ponders" ".") (Posix.with_archive ["n"]) in
  outcome_of r = Returned None
  ∧ trace_of r = asked true (0, 0, 0) "ponders" "." true
                 ++ [EvInput (Returned "n"); EvLog Info MsgCancelled]
  ∧ Forall (λ ev, mutates ev = false) (trace_of r)
  ∧ Posix.files (world_of r) = Posix.files (Posix.with_archive ["n"]).
Proof.
  refine (compile_cancel_no_side_effect (fixed_commands stone_commands) empty_ponder
            true (0, 0, 0) "ponders" "." (Posix.with_archive ["n"])
            (Posix.input
               (Posix.log Warning (MsgArchiveExists "ponders")
                  (Posix.log Debug (MsgArguments true (0, 0, 0) "ponders" ".")
                     (Posix.log Info MsgCompiling (Posix.with_archive ["n"]))))).2
            "n" Posix.files _ _ _ _ _ _).
  - vm_compute. reflexivity.
  - reflexivity.
  - discriminate.
  - discriminate.
  - reflexivity.
  - intros w. unfold sys_input. simpl. unfold Posix.input.
    destruct (Posix.stdin w); reflexivity.
Defined.

(** ** Events of the listed runs *)

Section events.
Variable compile_operations : Ponder.t → position → outcome (list compiled).
Variables (self : Ponder.t) (version : bool) (pos_offset : position).
Variables (ponder_name output_dir : string).

Abbreviation events_asked := (asked version pos_offset ponder_name output_dir).
Abbreviation passed := (passed_prompt version pos_offset ponder_name output_dir).

Lemma performed_mutates r (a : action) : mutates (performed r a) = true.
Proof. by destruct a. Qed.

Lemma performed_not_shutil r (a : action) : is_shutil (performed r a) = false.
Proof. by destruct a. Qed.

Lemma performed_raised_not_ok e (a : action) : event_ok (performed (Raised e) a) = false.
Proof. by destruct a. Qed.

Lemma mutations_app (l1 l2 : list event) :
  mutations (l1 ++ l2) = mutations l1 ++ mutations l2.
Proof. apply filter_app. Qed.

Lemma mutations_performed r (acts : list action) :
  mutations (performed r <$> acts) = performed r <$> acts.
Proof.
  induction acts as [|a acts IH]; [done|]. cbn [fmap list_fmap].
  unfold mutations in *. rewrite filter_cons_True by apply performed_mutates.
  by rewrite IH.
Qed.

Lemma mutations_asked found : mutations (events_asked found) = [].
Proof. by destruct found. Qed.

Lemma mutations_passed (pre : list event) : passed pre → mutations pre = [].
Proof. intros [|answer _]; [done|]. by rewrite mutations_app. Qed.

Lemma passed_not_shutil (pre : list event) :
  passed pre → Forall (λ ev, is_shutil ev = false) pre.
Proof. intros [|answer _]; repeat constructor. Qed.

Lemma passed_not_cancelled (pre : list event) :
  passed pre → EvLog Info MsgCancelled ∉ pre.
Proof.
  intros [|answer _]; unfold asked; cbn [app];
    rewrite !not_elem_of_cons; split_and!; try discriminate; apply not_elem_of_nil.
Qed.




End events.

(** ** The text of the files *)



(** The writes among the actions of lines 141-181. *)
Lemma write_actions version (ponder_name : string) (datapack_dir : PurePath) there
    (commands : list compiled) p data enc :
  DoWrite p data enc
    ∈ datapack_actions version ponder_name datapack_dir there (group_commands commands) →
  let function_dir := Ponder.function_dir version ponder_name datapack_dir in
  (p = Ponder.meta_file datapack_dir ∧ data = dumps meta_data ∧ enc = Some "Utf-8")
  ∨ (∃ t, t ∈ commands.*1 ∧ p = Ponder.function_file function_dir t
        ∧ data = join newline (header :: texts_at t commands) ∧ enc = None)
  ∨ (p = Ponder.main_function_file function_dir
     ∧ data = join newline (header :: (schedule_line ponder_name <$> first_seen commands.*1))
     ∧ enc = None).
Proof.
  intros Hin function_dir. unfold datapack_actions in Hin.
  apply elem_of_app in Hin as [Hin|Hin].
  { destruct there; [by apply elem_of_nil in Hin|].
    by apply list_elem_of_singleton in Hin. }
  apply elem_of_cons in Hin as [[= -> -> ->]|Hin]; [by left|].
  apply elem_of_cons in Hin as [?|Hin]; [done|].
  apply elem_of_app in Hin as [Hin|Hin].
  - right. left. rewrite group_commands_entries, <-list_fmap_compose in Hin.
    apply list_elem_of_fmap in Hin as (t & [= -> -> ->] & Ht).
    exists t. split_and!; [|done..]. by apply elem_of_first_seen.
  - right. right. apply list_elem_of_singleton in Hin as [= -> -> ->].
    split_and!; [done| |done].
    unfold main_file_text, main_command_list, schedule_chain.
    by rewrite dict_keys_group.
Qed.

(** ** Paths *)

Lemma split_slash_plain (s : string) : str_mem "/" s = false → split_slash s = [s].
Proof.
  induction s as [|c s IH]; [done|]. simpl.
  destruct (decide ("/"%char = c)) as [<-|Hne]; [done|].
  intros Hs. rewrite decide_False by done. by rewrite IH.
Qed.

Lemma path_names_plain (s : string) :
  str_mem "/" s = false → s ≠ "" → s ≠ "." → path_names s = [s].
Proof.
  intros Hs Hne Hdot. unfold path_names. rewrite split_slash_plain by done.
  by rewrite filter_cons_True.
Qed.

Lemma truediv_relative (p : PurePath) (s : string) :
  path_root s = "" → p </> s = {| root := root p; names := names p ++ path_names s |}.
Proof. intros Hs. unfold truediv. by rewrite decide_True. Qed.

Lemma function_file_names (function_dir : PurePath) (t : Z) :
  Ponder.function_file function_dir t
  = {| root := root function_dir;
       names := names function_dir ++ ["_" +:+ str_int t +:+ ".mcfunction"] |}.
Proof.
  unfold Ponder.function_file. rewrite truediv_relative by done.
  rewrite path_names_plain; [done| |done..].
  change ("_" +:+ str_int t +:+ ".mcfunction")
    with (String "_" (str_int t +:+ ".mcfunction")).
  cbn [str_mem]. rewrite decide_False by done.
  by rewrite str_mem_app, str_mem_str_int.
Qed.

Lemma function_file_inj (function_dir : PurePath) (t1 t2 : Z) :
  Ponder.function_file function_dir t1 = Ponder.function_file function_dir t2 → t1 = t2.
Proof.
  rewrite !function_file_names. intros [= Heq%app_inv_head].
  injection Heq as Heq.
  change (str_int t1 +:+ ".mcfunction" = str_int t2 +:+ ".mcfunction") in Heq.
  apply app_sep_inj in Heq as [Heq _]; [by apply str_int_inj|..];
    by apply str_mem_str_int.
Qed.

Lemma function_dir_names (version : bool) (ponder_name : string) (datapack_dir : PurePath) :
  Ponder.function_dir version ponder_name datapack_dir
  = {| root := root datapack_dir;
       names := names datapack_dir ++ "data" :: path_names ponder_name
                  ++ [if version then "function" else "functions"] |}.
Proof.
  unfold Ponder.function_dir.
  rewrite (truediv_relative datapack_dir) by done.
  rewrite truediv_relative by by destruct version.
  cbn [root names]. f_equal. rewrite <-app_assoc. f_equal.
  change (path_names ("data/" +:+ ponder_name)) with ("data" :: path_names ponder_name).
  by destruct version.
Qed.

(** ** The layout of the datapack *)

(** The events of the actions of lines 141-181, by the times first seen. *)
Lemma performed_datapack_actions version (ponder_name : string) (datapack_dir : PurePath)
    there (commands : list compiled) :
  let function_dir := Ponder.function_dir version ponder_name datapack_dir in
  performed (Returned tt)
    <$> datapack_actions version ponder_name datapack_dir there (group_commands commands)
  = (if there then [] else [EvMkdir datapack_dir (Returned tt)])
    ++ [EvWriteText (Ponder.meta_file datapack_dir) pack_mcmeta_text (Some "Utf-8")
          (Returned tt);
        EvMkdir function_dir (Returned tt)]
    ++ ((λ t, EvWriteText (Ponder.function_file function_dir t)
                (join newline (header :: texts_at t commands)) None (Returned tt))
          <$> first_seen commands.*1)
    ++ [EvWriteText (Ponder.main_function_file function_dir)
          (join newline (header :: (schedule_line ponder_name <$> first_seen commands.*1)))
          None (Returned tt)].
Proof.
  intros function_dir. unfold datapack_actions. fold function_dir.
  rewrite !fmap_app, group_commands_entries, <-!list_fmap_compose.
  unfold main_file_text, main_command_list, schedule_chain.
  rewrite <-group_commands_entries, dict_keys_group.
  by destruct there.
Qed.

(** A run in which the operator does not cancel and no call raises goes
    through every action, the archive and the removal of the tree, and ends
    at line 189: with the report, or with the [ValueError] of [max] when
    there is no bucket. *)
Lemma uninterrupted_run
    (compile_operations : Ponder.t → position → outcome (list compiled))
    (self : Ponder.t) (version : bool) (pos_offset : position)
    (ponder_name output_dir : string) (commands : list compiled) out tr :
  compile_runs compile_operations self version pos_offset ponder_name output_dir out tr →
  compile_operations self pos_offset = Returned commands →
  Forall (λ ev, event_ok ev = true) tr →
  EvLog Info MsgCancelled ∉ tr →
  let datapack_dir := Ponder.datapack_dir ponder_name output_dir in
  ∃ pre there archive_name tail,
    passed_prompt version pos_offset ponder_name output_dir pre
    ∧ tr = pre ++ EvPathExists datapack_dir there
               :: (performed (Returned tt)
                     <$> datapack_actions version ponder_name datapack_dir there
                           (group_commands commands))
               ++ [EvMakeArchive datapack_dir "zip" datapack_dir (Returned archive_name);
                   EvRmtree datapack_dir (Returned tt)]
               ++ tail
    ∧ ((group_commands commands = [] ∧ out = Raised ValueError ∧ tail = [])
       ∨ (∃ max_time, max_of (dict_keys (group_commands commands)) = Some max_time
            ∧ out = Returned None
            ∧ tail = [EvLog Info (MsgDone (length (group_commands commands))
                                    (length commands) max_time output_dir
                                    ponder_name)])).
Proof.
  intros Hrun Hco Hok Hnc datapack_dir.
  destruct Hrun as
    [answer Hno|e|pre e Hpre Hco'|pre commands' there n a e Hpre Hco' Hn
    |pre commands' there out ptr Hpre Hco' Hpack].
  - exfalso. apply Hnc. unfold asked. cbn [app]. rewrite !elem_of_cons. auto 10.
  - exfalso. apply Forall_app in Hok as [_ Hok].
    rewrite Forall_singleton in Hok. simpl in Hok. done.
  - congruence.
  - exfalso. apply Forall_app in Hok as [_ Hok]. apply Forall_cons in Hok as [_ Hok].
    apply Forall_app in Hok as [_ Hok]. rewrite Forall_singleton in Hok.
    by rewrite performed_raised_not_ok in Hok.
  - assert (commands' = commands) as -> by congruence.
    apply Forall_app in Hok as [_ Hok]. apply Forall_cons in Hok as [_ Hok].
    apply Forall_app in Hok as [_ Hok].
    destruct Hpack as [e|s e|s Hnil|s max_time Hmax].
    + rewrite Forall_singleton in Hok. simpl in Hok. done.
    + apply Forall_cons in Hok as [_ Hok].
      rewrite Forall_singleton in Hok. simpl in Hok. done.
    + exists pre, there, s, []. split_and!; [done..|]. by left.
    + eexists pre, there, s, [_]. split_and!; [done..|]. right. by exists max_time.
Qed.

(** C7. On a run in which the operator does not cancel and no call raises,
    the calls that create, write or remove are, in this order: the
    directory of the pack unless it is there already; [pack.mcmeta] at its
    root with the JSON text (pack_format 16, supported_formats [16, 39]);
    the directory [data/{ponder_name}/function], or [functions] when
    [version] is false; one [_{time}.mcfunction] for each distinct time, no
    file twice; [main.mcfunction]; then the archive and the removal of the
    tree. *)
Theorem datapack_layout `{OS W}
    (compile_operations : Ponder.t → position → outcome (list compiled))
    (self : Ponder.t) (version : bool) (pos_offset : position)
    (ponder_name output_dir : string) (w : W) (commands : list compiled) :
  let r := exec (Ponder.compile compile_operations self version pos_offset ponder_name
                   output_dir) w in
  compile_operations self pos_offset = Returned commands →
  Forall (λ ev, event_ok ev = true) (trace_of r) →
  EvLog Info MsgCancelled ∉ trace_of r →
  let datapack_dir := Path output_dir </> ponder_name in
  let function_dir :=
    datapack_dir </> ("data/" +:+ ponder_name)
      </> (if version then "function" else "functions") in
  let times := first_seen commands.*1 in
  let function_file t := function_dir </> ("_" +:+ str_int t +:+ ".mcfunction") in
  (∃ (there : bool) archive_name,
     mutations (trace_of r)
     = (if there then [] else [EvMkdir datapack_dir (Returned tt)])
       ++ [EvWriteText (datapack_dir </> "pack.mcmeta") pack_mcmeta_text (Some "Utf-8")
             (Returned tt);
           EvMkdir function_dir (Returned tt)]
       ++ ((λ t, EvWriteText (function_file t)
                   (join newline (header :: texts_at t commands)) None (Returned tt))
             <$> times)
       ++ [EvWriteText (function_dir </> "main.mcfunction")
             (join newline (header :: (schedule_line ponder_name <$> times)))
             None (Returned tt);
           EvMakeArchive datapack_dir "zip" datapack_dir (Returned archive_name);
           EvRmtree datapack_dir (Returned tt)])
  ∧ root function_dir = root datapack_dir
  ∧ names function_dir
    = names datapack_dir ++ "data" :: path_names ponder_name
        ++ [if version then "function" else "functions"]
  ∧ NoDup (function_file <$> times)
  ∧ length times = size (list_to_set commands.*1 : gset Z).
Proof.
  intros r Hco Hok Hnc datapack_dir function_dir times function_file.
  pose proof (function_dir_names version ponder_name datapack_dir) as Hfd.
  change (Ponder.function_dir version ponder_name datapack_dir) with function_dir in Hfd.
  split_and!.
  2:{ by rewrite Hfd. }
  2:{ by rewrite Hfd. }
  2:{ apply NoDup_fmap_2_strong; [|apply NoDup_first_seen].
      intros t1 t2 _ _. apply function_file_inj. }
  2:{ apply first_seen_length. }
  pose proof (compile_runs_exec compile_operations self version pos_offset ponder_name
                output_dir w) as Hrun.
  cbv zeta in Hrun. fold r in Hrun.
  destruct (uninterrupted_run _ _ _ _ _ _ _ _ _ Hrun Hco Hok Hnc)
    as (pre & there & s & tail & Hpre & -> & Htail).
  exists there, s.
  assert (mutations tail = []) as Hquiet.
  { by destruct Htail as [(_ & _ & ->)|(max_time & _ & _ & ->)]. }
  rewrite mutations_app, (mutations_passed _ _ _ _ _ Hpre), app_nil_l.
  change (EvPathExists ?p ?b :: ?l) with ([EvPathExists p b] ++ l).
  rewrite !mutations_app, mutations_performed, performed_datapack_actions, Hquiet.
  rewrite app_nil_r, <-!app_assoc. done.
Qed.

(** C10. When the compiler returns no command, the operator does not
    cancel and no call raises, [compile] raises [ValueError]; by then
    [pack.mcmeta] and a [main.mcfunction] that holds the provenance line
    alone have been written, and the last two calls, both returned, are
    the archive and the removal of the tree. *)
Theorem no_command_raises_after_packing `{OS W}
    (compile_operations : Ponder.t → position → outcome (list compiled))
    (self : Ponder.t) (version : bool) (pos_offset : position)
    (ponder_name output_dir : string) (w : W) :
  let r := exec (Ponder.compile compile_operations self version pos_offset ponder_name
                   output_dir) w in
  compile_operations self pos_offset = Returned [] →
  Forall (λ ev, event_ok ev = true) (trace_of r) →
  EvLog Info MsgCancelled ∉ trace_of r →
  let datapack_dir := Path output_dir </> ponder_name in
  let function_dir :=
    datapack_dir </> ("data/" +:+ ponder_name)
      </> (if version then "function" else "functions") in
  outcome_of r = Raised ValueError
  ∧ ∃ (there : bool) archive_name before,
      mutations before = []
      ∧ trace_of r
        = before
          ++ (if there then [] else [EvMkdir datapack_dir (Returned tt)])
          ++ [EvWriteText (datapack_dir </> "pack.mcmeta") pack_mcmeta_text
                (Some "Utf-8") (Returned tt);
              EvMkdir function_dir (Returned tt);
              EvWriteText (function_dir </> "main.mcfunction") header None (Returned tt);
              EvMakeArchive datapack_dir "zip" datapack_dir (Returned archive_name);
              EvRmtree datapack_dir (Returned tt)].
Proof.
  intros r Hco Hok Hnc datapack_dir function_dir.
  pose proof (compile_runs_exec compile_operations self version pos_offset ponder_name
                output_dir w) as Hrun.
  cbv zeta in Hrun. fold r in Hrun.
  destruct (uninterrupted_run _ _ _ _ _ _ _ _ _ Hrun Hco Hok Hnc)
    as (pre & there & s & tail & Hpre & -> & Htail).
  destruct Htail as [(_ & -> & ->)|(max_time & Hmax & _ & _)]; [|done].
  split; [done|].
  exists there, s, (pre ++ [EvPathExists datapack_dir there]). split.
  - by rewrite mutations_app, (mutations_passed _ _ _ _ _ Hpre).
  - rewrite performed_datapack_actions, <-!app_assoc. cbn [app]. by destruct there.
Qed.

(** ** The archive and the removal of the tree *)

Lemma split_at_only (P : event → bool) (l1 l2 pre post : list event) (a b : event) :
  Forall (λ x, P x = false) l1 → Forall (λ x, P x = false) l2 →
  P a = true → P b = true →
  l1 ++ a :: l2 = pre ++ b :: post → pre = l1 ∧ a = b ∧ post = l2.
Proof.
  intros Hl1 Hl2 Ha Hb. revert pre.
  induction Hl1 as [|x l1 Hx Hl1 IH]; intros [|y pre]; simpl; intros [= Hhead Htail].
  - done.
  - subst. exfalso. apply Forall_app in Hl2 as [_ Hl2].
    apply Forall_cons in Hl2 as [Hl2 _]. congruence.
  - subst. congruence.
  - subst. by destruct (IH _ Htail) as (-> & -> & ->).
Qed.

Section shutil.
Variable compile_operations : Ponder.t → position → outcome (list compiled).
Variables (self : Ponder.t) (version : bool) (pos_offset : position).
Variables (ponder_name output_dir : string).

Let datapack_dir := Ponder.datapack_dir ponder_name output_dir.

(** A run makes no call to [shutil], or ends with the calls of lines
    183-190. *)
Lemma run_shutil out tr :
  compile_runs compile_operations self version pos_offset ponder_name output_dir out tr →
  Forall (λ ev, is_shutil ev = false) tr
  ∨ ∃ pre commands ptr,
      tr = pre ++ ptr ∧ Forall (λ ev, is_shutil ev = false) pre
      ∧ pack_runs ponder_name output_dir commands (group_commands commands) out ptr.
Proof.
  assert (Hperf : ∀ r acts, Forall (λ ev, is_shutil ev = false) (performed r <$> acts)).
  { intros r acts. apply Forall_fmap, Forall_forall. intros a _.
    apply performed_not_shutil. }
  intros [answer Hno|e|pre e Hpre Hco|pre commands there n a e Hpre Hco Hn
         |pre commands there out' ptr Hpre Hco Hpack].
  - left. repeat constructor.
  - left. repeat constructor.
  - left. by eapply passed_not_shutil.
  - left. apply Forall_app. split; [by eapply passed_not_shutil|].
    constructor; [done|]. apply Forall_app. split; [done|].
    apply Forall_singleton, performed_not_shutil.
  - right. eexists (pre ++ EvPathExists _ there :: (performed (Returned tt) <$> _)),
      commands, ptr.
    split_and!; [|.. |done].
    + by rewrite <-app_assoc.
    + apply Forall_app. split; [by eapply passed_not_shutil|]. by constructor.
Qed.

Lemma shutil_not_archive (l : list event) :
  Forall (λ ev, is_shutil ev = false) l → Forall (λ ev, is_archive ev = false) l.
Proof. intros Hl. eapply Forall_impl; [done|]. by intros []. Qed.
End shutil.

(** ** The files of the buckets and the main file *)

(** The writes that are among the actions of lines 141-181. *)
Lemma datapack_actions_writes version (ponder_name : string) (datapack_dir : PurePath)
    there (commands : list compiled) :
  let function_dir := Ponder.function_dir version ponder_name datapack_dir in
  let acts := datapack_actions version ponder_name datapack_dir there
                (group_commands commands) in
  DoWrite (Ponder.meta_file datapack_dir) pack_mcmeta_text (Some "Utf-8") ∈ acts
  ∧ (∀ t, t ∈ commands.*1 →
       DoWrite (Ponder.function_file function_dir t)
         (join newline (header :: texts_at t commands)) None ∈ acts)
  ∧ DoWrite (Ponder.main_function_file function_dir)
      (join newline (header :: (schedule_line ponder_name <$> first_seen commands.*1)))
      None ∈ acts.
Proof.
  intros function_dir acts.
  assert (Hev : ∀ p data enc,
    EvWriteText p data enc (Returned tt) ∈ performed (Returned tt) <$> acts →
    DoWrite p data enc ∈ acts).
  { intros p data enc (a & Ha & Hin)%list_elem_of_fmap. by destruct a; simplify_eq/=. }
  split_and!; [|intros t Ht|]; apply Hev; unfold acts;
    rewrite performed_datapack_actions; fold function_dir.
  - rewrite elem_of_app. right. rewrite elem_of_app. left. by left.
  - rewrite elem_of_app. right. rewrite elem_of_app. right. rewrite elem_of_app. left.
    apply list_elem_of_fmap. exists t. split; [done|]. by apply elem_of_first_seen.
  - rewrite elem_of_app. right. rewrite elem_of_app. right. rewrite elem_of_app. right.
    by left.
Qed.



(** ** A path and its string *)

Lemma str_app_assoc (s1 s2 s3 : string) : (s1 +:+ s2) +:+ s3 = s1 +:+ s2 +:+ s3.
Proof.
  induction s1 as [|c s1 IH]; [done|].
  change (String c ((s1 +:+ s2) +:+ s3) = String c (s1 +:+ s2 +:+ s3)). by f_equal.
Qed.

Lemma str_length_app (s1 s2 : string) :
  String.length (s1 +:+ s2) = (String.length s1 + String.length s2)%nat.
Proof.
  induction s1 as [|c s1 IH]; [done|].
  change (S (String.length (s1 +:+ s2)) = S (String.length s1 + String.length s2)).
  by f_equal.
Qed.

Lemma str_app_suffix_ne (s suffix : string) : suffix ≠ "" → s ≠ s +:+ suffix.
Proof.
  intros Hne Heq. apply (f_equal String.length) in Heq.
  rewrite str_length_app in Heq. destruct suffix; [done|]. simpl in Heq. lia.
Qed.

Lemma split_slash_no_slash (s x : string) : x ∈ split_slash s → str_mem "/" x = false.
Proof.
  revert x. induction s as [|c s IH]; intros x; simpl.
  - by intros ->%list_elem_of_singleton.
  - destruct (decide (c = "/"%char)) as [->|Hc].
    + intros [->|Hx]%elem_of_cons; [done|]. by apply IH.
    + destruct (split_slash s) as [|y rest].
      * intros ->%list_elem_of_singleton. simpl. by rewrite decide_False.
      * intros [->|Hx]%elem_of_cons.
        -- simpl. rewrite decide_False by done. apply IH. by left.
        -- apply IH. by right.
Qed.

Lemma split_slash_app (x r : string) :
  str_mem "/" x = false → split_slash (x +:+ "/" +:+ r) = x :: split_slash r.
Proof.
  change ("/" +:+ r) with (String "/" r).
  induction x as [|c x IH]; simpl; [done|].
  destruct (decide ("/"%char = c)) as [<-|Hc]; [done|]. intros Hx.
  rewrite decide_False by done. by rewrite IH.
Qed.

Lemma join_cons (sep x : string) (l : list string) :
  l ≠ [] → join sep (x :: l) = x +:+ sep +:+ join sep l.
Proof. by destruct l. Qed.

Lemma split_slash_join (ns : list string) :
  Forall (λ n, str_mem "/" n = false) ns → ns ≠ [] → split_slash (join "/" ns) = ns.
Proof.
  induction 1 as [|x ns Hx Hns IH]; [done|]. intros _.
  destruct ns as [|y ns]; [by apply split_slash_plain|].
  rewrite join_cons by done. rewrite split_slash_app by done. by rewrite IH.
Qed.

Lemma join_snoc_suffix (ns : list string) (name suffix : string) :
  join "/" (ns ++ [name]) +:+ suffix = join "/" (ns ++ [name +:+ suffix]).
Proof.
  induction ns as [|x ns IH]; [done|]. cbn [app].
  rewrite !join_cons by (by destruct ns). by rewrite !str_app_assoc, IH.
Qed.

Lemma path_root_cases (s : string) : path_root s = "" ∨ path_root s = "/" ∨ path_root s = "//".
Proof.
  destruct s as [|c1 [|c2 [|c3 s]]]; simpl; auto;
    repeat (case_match; auto).
Qed.

Lemma path_root_plain (s : string) : str_mem "/" s = false → path_root s = "".
Proof.
  destruct s as [|c s]; [done|]. simpl.
  destruct (decide ("/"%char = c)) as [<-|Hc]; [done|]. intros _.
  unfold path_root. repeat (case_match; simplify_eq/=; try done).
Qed.

Lemma path_names_kept (s : string) : Forall kept (path_names s).
Proof.
  apply Forall_forall. intros n [[Hne Hdot] Hn]%list_elem_of_filter.
  split_and!; [|done..]. by eapply split_slash_no_slash.
Qed.

Lemma filter_all {A} (P : A → Prop) `{!∀ x, Decision (P x)} (l : list A) :
  Forall P l → filter P l = l.
Proof.
  induction 1 as [|x l Hx Hl IH]; [done|].
  rewrite filter_cons_True by done. by rewrite IH.
Qed.

(** [Path(str(p) + suffix)] for a path with a last name. *)
Lemma Path_str_suffix (r : string) (ns : list string) (name suffix : string) :
  r = "" ∨ r = "/" ∨ r = "//" →
  Forall kept ns → kept name → str_mem "/" suffix = false → suffix ≠ "" →
  Path (str {| root := r; names := ns ++ [name] |} +:+ suffix)
  = {| root := r; names := ns ++ [name +:+ suffix] |}.
Proof.
  intros Hr Hns (Hname & Hne & Hdot) Hsuffix Hsne.
  assert (Hlast : kept (name +:+ suffix)).
  { split_and!.
    - by rewrite str_mem_app, Hname, Hsuffix.
    - by destruct name.
    - destruct name as [|c [|d name]]; [done| |done]. simpl. by destruct suffix. }
  assert (Hall : Forall kept (ns ++ [name +:+ suffix])).
  { apply Forall_app. split; [done|]. by apply Forall_singleton. }
  unfold str. cbn [root names].
  destruct (ns ++ [name]) as [|n0 rest] eqn:Hnames; [by destruct ns|].
  rewrite <-Hnames, str_app_assoc, join_snoc_suffix. clear Hnames n0 rest.
  assert (Hsplit : split_slash (join "/" (ns ++ [name +:+ suffix]))
                   = ns ++ [name +:+ suffix]).
  { apply split_slash_join; [|by destruct ns].
    eapply Forall_impl; [done|]. by intros n (? & _). }
  assert (Hfilter : filter (λ x, x ≠ "" ∧ x ≠ ".") (ns ++ [name +:+ suffix])
                    = ns ++ [name +:+ suffix]).
  { apply filter_all. eapply Forall_impl; [done|]. by intros n (_ & ? & ?). }
  assert (Hhead : ∃ c tail, join "/" (ns ++ [name +:+ suffix]) = String c tail
                            ∧ c ≠ "/"%char).
  { destruct (ns ++ [name +:+ suffix]) as [|n0 rest] eqn:Hnames; [by destruct ns|].
    apply Forall_cons in Hall as [(Hn0 & Hn0e & _) _].
    destruct n0 as [|c n0]; [done|]. simpl in Hn0.
    destruct (decide ("/"%char = c)) as [<-|Hc]; [done|].
    destruct rest; simpl; eauto. }
  destruct Hhead as (c & tail & Hjoin & Hc).
  unfold Path, path_names.
  set (J := join "/" (ns ++ [name +:+ suffix])) in *.
  destruct Hr as [->|[->| ->]].
  - change ("" +:+ J) with J.
    rewrite Hsplit, Hfilter. f_equal. rewrite Hjoin. unfold path_root.
    repeat (case_match; simplify_eq/=; try done).
  - change ("/" +:+ J) with (String "/" J).
    change (split_slash (String "/" J)) with ("" :: split_slash J).
    rewrite Hsplit, filter_cons_False by naive_solver. rewrite Hfilter.
    f_equal. rewrite Hjoin. unfold path_root.
    repeat (case_match; simplify_eq/=; try done).
  - change ("//" +:+ J) with (String "/" (String "/" J)).
    change (split_slash (String "/" (String "/" J))) with ("" :: "" :: split_slash J).
    rewrite Hsplit, !filter_cons_False by naive_solver. rewrite Hfilter.
    f_equal. rewrite Hjoin. unfold path_root.
    repeat (case_match; simplify_eq/=; try done).
Qed.

Lemma datapack_dir_plain (ponder_name output_dir : string) :
  plain_name ponder_name →
  Ponder.datapack_dir ponder_name output_dir
  = {| root := path_root output_dir; names := path_names output_dir ++ [ponder_name] |}.
Proof.
  intros (Hslash & Hne & Hdot & _). unfold Ponder.datapack_dir.
  rewrite truediv_relative by by apply path_root_plain.
  by rewrite path_names_plain.
Qed.

Lemma split_slash_cons (s : string) : ∃ x rest, split_slash s = x :: rest.
Proof.
  induction s as [|c s (x & rest & IH)]; simpl; [by eauto|].
  destruct (decide (c = "/"%char)); [by eauto|]. rewrite IH. by eauto.
Qed.

Lemma split_slash_concat (a b : string) :
  split_slash (a +:+ "/" +:+ b) = split_slash a ++ split_slash b.
Proof.
  change ("/" +:+ b) with (String "/" b).
  induction a as [|c a IH]; [done|].
  change (String c a +:+ String "/" b) with (String c (a +:+ String "/" b)).
  cbn [split_slash]. destruct (decide (c = "/"%char)); [by rewrite IH|].
  rewrite IH. by destruct (split_slash_cons a) as (x & rest & ->).
Qed.

(** For a plain [ponder_name], the archive goes to
    [Path(output_dir) / (ponder_name + ".zip")]. *)
Lemma archive_path_plain (ponder_name output_dir : string) :
  plain_name ponder_name →
  Posix.archive_path (Ponder.datapack_dir ponder_name output_dir)
  = {| root := path_root output_dir;
       names := path_names output_dir ++ [ponder_name +:+ ".zip"] |}.
Proof.
  intros Hplain. rewrite datapack_dir_plain by done. unfold Posix.archive_path.
  destruct Hplain as (Hslash & Hne & Hdot & _).
  apply Path_str_suffix; [apply path_root_cases|apply path_names_kept|done..].
Qed.

Lemma zip_path_plain (ponder_name output_dir : string) :
  plain_name ponder_name →
  Path output_dir </> (ponder_name +:+ ".zip")
  = Posix.archive_path (Ponder.datapack_dir ponder_name output_dir).
Proof.
  intros Hplain. rewrite archive_path_plain by done.
  destruct Hplain as (Hslash & Hne & Hdot & _).
  assert (Hzip : str_mem "/" (ponder_name +:+ ".zip") = false)
    by by rewrite str_mem_app, Hslash.
  rewrite truediv_relative by by apply path_root_plain.
  rewrite path_names_plain; [done..| |].
  - by destruct ponder_name.
  - destruct ponder_name as [|c [|d name]]; done.
Qed.

Lemma walk_snoc (start ns : list string) (n : string) :
  n ≠ ".." → Posix.walk start (ns ++ [n]) = Posix.walk start ns ++ [n].
Proof.
  intros Hn. unfold Posix.walk. rewrite fold_left_app. simpl.
  by rewrite decide_False.
Qed.

Lemma zip_name_not_parent (ponder_name : string) : ponder_name +:+ ".zip" ≠ "..".
Proof.
  intros Heq. apply (f_equal String.length) in Heq.
  rewrite str_length_app in Heq. simpl in Heq. lia.
Qed.

(** For a plain [ponder_name] the archive lies outside the tree. *)
Lemma archive_outside_tree (ponder_name output_dir : string) (w : Posix.world) :
  plain_name ponder_name →
  ¬ Posix.resolve w (Ponder.datapack_dir ponder_name output_dir)
      `prefix_of` Posix.resolve w
                    (Posix.archive_path (Ponder.datapack_dir ponder_name output_dir)).
Proof.
  intros Hplain. rewrite archive_path_plain, datapack_dir_plain by done.
  unfold Posix.resolve. cbn [root names].
  destruct Hplain as (_ & _ & _ & Hparent).
  rewrite !walk_snoc by (done || apply zip_name_not_parent).
  intros Hprefix%prefix_app_inv%prefix_cons_inv_1.
  by apply (str_app_suffix_ne ponder_name ".zip") in Hprefix.
Qed.

(** For a plain [ponder_name] and an [output_dir] that is not the empty
    string, the file tested at line 132 is the archive. *)
Lemma zip_file_is_archive (ponder_name output_dir : string) (w : Posix.world) :
  plain_name ponder_name → output_dir ≠ "" →
  Posix.resolve w (Path (Ponder.zip_file ponder_name output_dir))
  = Posix.resolve w (Posix.archive_path (Ponder.datapack_dir ponder_name output_dir)).
Proof.
  intros Hplain Hod. rewrite archive_path_plain by done.
  destruct Hplain as (Hslash & Hne & Hdot & _).
  unfold Posix.resolve, Path, Ponder.zip_file. cbn [root names]. f_equal.
  - destruct output_dir as [|c rest]; [done|].
    change (String c rest +:+ ?s) with (String c (rest +:+ s)).
    destruct (decide (c = "/"%char)) as [->|Hc].
    + rewrite !decide_False; [done|..].
      * unfold path_root. repeat (case_match; simplify_eq/=; try done).
      * unfold path_root. repeat (case_match; simplify_eq/=; try done).
    + rewrite !decide_True; [done|..].
      * unfold path_root. repeat (case_match; simplify_eq/=; try done).
      * unfold path_root. repeat (case_match; simplify_eq/=; try done).
  - unfold path_names. rewrite split_slash_concat, filter_app. f_equal.
    rewrite split_slash_plain by (by rewrite str_mem_app, Hslash).
    rewrite filter_cons_True; [done|]. split.
    + by destruct ponder_name.
    + destruct ponder_name as [|c [|d name]]; done.
Qed.

(** ** The calls on the file system in memory *)

Section posix_calls.
Implicit Types (w : Posix.world) (fs : gmap (list string) Posix.node).
Implicit Types (k cur : list string) (p : PurePath).

Lemma posix_resolve_cwd w w1 p :
  Posix.cwd w1 = Posix.cwd w → Posix.resolve w1 p = Posix.resolve w p.
Proof. intros Hcwd. unfold Posix.resolve. by rewrite Hcwd. Qed.

Lemma set_files_files w : Posix.set_files w (Posix.files w) = w.
Proof. by destruct w. Qed.

Lemma set_files_twice w fs fs' :
  Posix.set_files (Posix.set_files w fs) fs' = Posix.set_files w fs'.
Proof. done. Qed.

(** *** Growing trees *)

Lemma grows_refl fs : Posix.grows fs fs.
Proof. split; [done|]. intros k n Hk. by left. Qed.

Lemma grows_trans fs1 fs2 fs3 :
  Posix.grows fs1 fs2 → Posix.grows fs2 fs3 → Posix.grows fs1 fs3.
Proof.
  intros [Hkeep1 Hnew1] [Hkeep2 Hnew2]. split.
  - intros k n Hk. by apply Hkeep2, Hkeep1.
  - intros k n Hk. destruct (Hnew2 k n Hk) as [Hk2|Hdir]; [|by right].
    by apply Hnew1.
Qed.

Lemma grows_insert fs k : fs !! k = None → Posix.grows fs (<[k := Posix.Dir]> fs).
Proof.
  intros Hnone. split.
  - intros q n Hq. rewrite lookup_insert_ne; [done|]. intros ->. congruence.
  - intros q n. destruct (decide (k = q)) as [->|Hne].
    + rewrite lookup_insert_eq. intros [= <-]. by right.
    + rewrite lookup_insert_ne by done. by left.
Qed.

Lemma extends_refl w : Posix.extends w w.
Proof. split; [by rewrite set_files_files|apply grows_refl]. Qed.

Lemma extends_trans w1 w2 w3 :
  Posix.extends w1 w2 → Posix.extends w2 w3 → Posix.extends w1 w3.
Proof.
  intros [Hw2 Hg2] [Hw3 Hg3]. split; [|by eapply grows_trans].
  rewrite Hw3 at 1. rewrite Hw2 at 1. done.
Qed.

Lemma extends_cwd w w1 : Posix.extends w w1 → Posix.cwd w1 = Posix.cwd w.
Proof. intros [-> _]. done. Qed.

Lemma extends_set_files w fs :
  Posix.grows (Posix.files w) fs → Posix.extends w (Posix.set_files w fs).
Proof. intros Hg. split; done. Qed.

Lemma node_at_lookup fs k (n : Posix.node) :
  fs !! k = Some n → is_Some (Posix.node_at fs k).
Proof. destruct k; [done|]. cbn [Posix.node_at]. by eauto. Qed.

Lemma node_at_grows fs fs' k :
  Posix.grows fs fs' → is_Some (Posix.node_at fs k) → is_Some (Posix.node_at fs' k).
Proof.
  intros [Hkeep _]. destruct k as [|x k]; [done|]. cbn [Posix.node_at].
  intros [n Hn]. exists n. by apply Hkeep.
Qed.

(** *** Looking a path up *)

Lemma enter_walk fs cur n d :
  Posix.enter fs cur n = Returned d → d = Posix.walk cur [n].
Proof.
  unfold Posix.enter, Posix.walk. cbn [fold_left].
  destruct (decide (n = "..")); [by intros [= <-]|].
  destruct (Posix.long n); [done|].
  destruct (fs !! (cur ++ [n])) as [[|c]|]; [|done..]. by intros [= <-].
Qed.

(** The directory a name other than [..] leads into is there. *)
Lemma enter_dir fs cur n d :
  Posix.enter fs cur n = Returned d → n ≠ ".." →
  d = cur ++ [n] ∧ fs !! d = Some Posix.Dir.
Proof.
  unfold Posix.enter. intros Henter Hn. rewrite decide_False in Henter by done.
  destruct (Posix.long n); [done|].
  destruct (fs !! (cur ++ [n])) as [[|c]|] eqn:Hd; [|done..].
  by injection Henter as <-.
Qed.

Lemma walk_cons start n ns :
  Posix.walk start (n :: ns) = Posix.walk (Posix.walk start [n]) ns.
Proof. done. Qed.

(** A lookup that succeeds ends where [os.path.abspath] says. *)
Lemma locate_walk fs cur ns pl :
  Posix.locate fs cur ns = Returned pl → Posix.key pl = Posix.walk cur ns.
Proof.
  revert cur. induction ns as [|n ns IH]; intros cur; cbn [Posix.locate].
  - by intros [= <-].
  - destruct ns as [|m ns].
    + unfold Posix.walk. cbn [fold_left].
      destruct (decide (n = "..")); [by intros [= <-]|].
      destruct (Posix.long n); [done|]. by intros [= <-].
    + destruct (Posix.enter fs cur n) as [d|e] eqn:Henter; [|done].
      intros Hloc. apply IH in Hloc. apply enter_walk in Henter as ->.
      by rewrite walk_cons.
Qed.

Lemma locate_entry fs cur ns k :
  Posix.locate fs cur ns = Returned (Posix.Entry k) → k ≠ [].
Proof.
  revert cur. induction ns as [|n ns IH]; intros cur; cbn [Posix.locate]; [done|].
  destruct ns as [|m ns].
  - destruct (decide (n = "..")); [done|]. destruct (Posix.long n); [done|].
    intros [= <-]. by destruct cur.
  - destruct (Posix.enter fs cur n) as [d|e]; [|done]. apply IH.
Qed.

(** A lookup does not depend on what lies outside its way: it is the
    same in a tree that has grown, unless it failed on a missing name. *)
Lemma enter_grows fs fs' cur n d :
  Posix.grows fs fs' → Posix.enter fs cur n = Returned d →
  Posix.enter fs' cur n = Returned d.
Proof.
  intros [Hkeep _]. unfold Posix.enter.
  destruct (decide (n = "..")); [done|]. destruct (Posix.long n); [done|].
  destruct (fs !! (cur ++ [n])) as [[|c]|] eqn:Hd; [|done..].
  by rewrite (Hkeep _ _ Hd).
Qed.

Lemma locate_grows fs fs' cur ns pl :
  Posix.grows fs fs' → Posix.locate fs cur ns = Returned pl →
  Posix.locate fs' cur ns = Returned pl.
Proof.
  intros Hg. revert cur. induction ns as [|n ns IH]; intros cur; cbn [Posix.locate];
    [done|].
  destruct ns as [|m ns]; [done|].
  destruct (Posix.enter fs cur n) as [d|e] eqn:Henter; [|done].
  rewrite (enter_grows _ _ _ _ _ Hg Henter). apply IH.
Qed.

Lemma find_as_resolve (path : string) p w pl :
  Posix.find_as path p w = Returned pl → Posix.key pl = Posix.resolve w p.
Proof.
  unfold Posix.find_as. destruct (Posix.refused path); [done|]. apply locate_walk.
Qed.

Lemma find_resolve p w pl :
  Posix.find p w = Returned pl → Posix.key pl = Posix.resolve w p.
Proof. apply find_as_resolve. Qed.

Lemma find_entry p w k :
  Posix.find p w = Returned (Posix.Entry k) → k = Posix.resolve w p ∧ k ≠ [].
Proof.
  intros Hfind. split; [by apply find_resolve in Hfind|].
  unfold Posix.find, Posix.find_as in Hfind.
  destruct (Posix.refused _); [done|]. by eapply locate_entry.
Qed.

Lemma find_here p w k :
  Posix.find p w = Returned (Posix.Here k) → k = Posix.resolve w p.
Proof. intros Hfind. by apply find_resolve in Hfind. Qed.

Lemma find_extends p w w1 pl :
  Posix.extends w w1 → Posix.find p w = Returned pl → Posix.find p w1 = Returned pl.
Proof.
  intros Hext. pose proof (extends_cwd _ _ Hext) as Hcwd. destruct Hext as [_ Hg].
  unfold Posix.find, Posix.find_as.
  destruct (Posix.refused _); [done|]. rewrite Hcwd. by apply locate_grows.
Qed.

(** *** [mkdir] *)

Lemma os_mkdir_spec p w :
  match Posix.os_mkdir p w with
  | (Returned _, w1) =>
      w1 = Posix.set_files w (<[Posix.resolve w p := Posix.Dir]> (Posix.files w))
      ∧ Posix.files w !! Posix.resolve w p = None
  | (Raised _, w1) => w1 = w
  end.
Proof.
  unfold Posix.os_mkdir. destruct (Posix.find p w) as [[k|k]|e] eqn:Hfind; [done| |done].
  apply find_entry in Hfind as [-> _].
  by destruct (Posix.files w !! Posix.resolve w p).
Qed.

Lemma os_mkdir_extends p w : Posix.extends w (Posix.os_mkdir p w).2.
Proof.
  pose proof (os_mkdir_spec p w) as Hspec.
  destruct (Posix.os_mkdir p w) as [[u|e] w1]; cbn [snd].
  - destruct Hspec as [-> Hnone]. by apply extends_set_files, grows_insert.
  - rewrite Hspec. apply extends_refl.
Qed.

Lemma mkdir_failed_world p (exist_ok : bool) (e : exn) w :
  (Posix.mkdir_failed p exist_ok e w).2 = w.
Proof. unfold Posix.mkdir_failed. by destruct (_ && _). Qed.

Lemma mkdir_plain_extends p (exist_ok : bool) w :
  Posix.extends w (Posix.mkdir_plain p exist_ok w).2.
Proof.
  unfold Posix.mkdir_plain. pose proof (os_mkdir_extends p w) as Hext.
  destruct (Posix.os_mkdir p w) as [[u|e] w1]; cbn [snd] in *; [done|].
  destruct e; try done; by rewrite mkdir_failed_world.
Qed.

Lemma mkdir_parents_extends (fuel : nat) p (exist_ok : bool) w :
  Posix.extends w (Posix.mkdir_parents fuel p exist_ok w).2.
Proof.
  revert p exist_ok w. induction fuel as [|fuel IH]; intros p exist_ok w;
    cbn [Posix.mkdir_parents]; pose proof (os_mkdir_extends p w) as Hext;
    destruct (Posix.os_mkdir p w) as [[u|e] w1]; cbn [snd] in *; try done.
  - destruct e; try done; by rewrite mkdir_failed_world.
  - destruct e; try (by rewrite mkdir_failed_world).
    destruct (names p) as [|n ns]; [done|].
    specialize (IH (Posix.parent_path p) true w1).
    destruct (Posix.mkdir_parents fuel _ true w1) as [[u|e] w2]; cbn [snd] in *.
    + pose proof (mkdir_plain_extends p exist_ok w2).
      eapply extends_trans; [done|]. by eapply extends_trans.
    + by eapply extends_trans.
Qed.

Lemma posix_mkdir_extends p w : Posix.extends w (Posix.mkdir p w).2.
Proof. apply mkdir_parents_extends. Qed.

(** [os.mkdir] returns on a missing entry only. *)
Lemma os_mkdir_present p w :
  is_Some (Posix.node_at (Posix.files w) (Posix.resolve w p)) →
  ∃ e, (Posix.os_mkdir p w).1 = Raised e.
Proof.
  intros Hthere. unfold Posix.os_mkdir.
  destruct (Posix.find p w) as [[k|k]|e] eqn:Hfind; [by eauto| |by eauto].
  apply find_entry in Hfind as [-> Hne].
  destruct (Posix.resolve w p) as [|x k] eqn:Hk; [done|].
  cbn [Posix.node_at] in Hthere. destruct Hthere as [n ->]. by eauto.
Qed.

Lemma mkdir_plain_present p w :
  is_Some (Posix.node_at (Posix.files w) (Posix.resolve w p)) →
  ∃ e, (Posix.mkdir_plain p false w).1 = Raised e.
Proof.
  intros Hthere. unfold Posix.mkdir_plain.
  destruct (os_mkdir_present p w Hthere) as (e & He).
  destruct (Posix.os_mkdir p w) as [[u|e'] w1]; cbn [fst] in He; [done|].
  destruct e'; unfold Posix.mkdir_failed; rewrite ?andb_false_r; cbn [andb fst];
    by eauto.
Qed.

(** [mkdir(parents=True)] without [exist_ok] raises on what exists. *)
Lemma posix_mkdir_exists p w :
  is_Some (Posix.node_at (Posix.files w) (Posix.resolve w p)) →
  ∃ e, (Posix.mkdir p w).1 = Raised e.
Proof.
  intros Hthere. unfold Posix.mkdir.
  destruct (length (names p)) as [|fuel]; cbn [Posix.mkdir_parents];
    destruct (os_mkdir_present p w Hthere) as (e & He);
    pose proof (os_mkdir_spec p w) as Hspec;
    destruct (Posix.os_mkdir p w) as [[u|e'] w1]; cbn [fst] in He; try done;
    subst w1.
  - destruct e'; unfold Posix.mkdir_failed; rewrite ?andb_false_r; cbn [andb fst];
      by eauto.
  - destruct e'; unfold Posix.mkdir_failed; rewrite ?andb_false_r; cbn [andb fst];
      try by eauto.
    destruct (names p) as [|n ns]; [by eauto|].
    pose proof (mkdir_parents_extends fuel (Posix.parent_path p) true w) as Hext.
    destruct (Posix.mkdir_parents fuel _ true w) as [[u|e'] w2]; cbn [snd fst] in *;
      [|by eauto].
    apply mkdir_plain_present.
    rewrite (posix_resolve_cwd w w2) by by apply extends_cwd.
    eapply node_at_grows; [|done]. apply Hext.
Qed.

(** *** [write_text] *)

Lemma write_text_spec p (data : string) enc w :
  match Posix.write_text p data enc w with
  | (Returned _, w1) =>
      w1 = Posix.set_files w
             (<[Posix.resolve w p := Posix.File (Posix.Text data)]> (Posix.files w))
      ∧ Posix.resolve w p ≠ []
  | (Raised _, w1) => w1 = w
  end.
Proof.
  unfold Posix.write_text.
  destruct (Posix.find p w) as [[k|k]|e] eqn:Hfind; [done| |done].
  apply find_entry in Hfind as [-> Hne].
  by destruct (Posix.files w !! Posix.resolve w p) as [[|c]|].
Qed.

(** *** [shutil] *)

Lemma makedirs_extends (fuel : nat) p w : Posix.extends w (Posix.makedirs fuel p w).2.
Proof.
  revert p w. induction fuel as [|fuel IH]; intros p w; cbn [Posix.makedirs];
    [apply os_mkdir_extends|].
  destruct (_ && _); [|apply os_mkdir_extends].
  specialize (IH (Posix.parent_path p) w).
  destruct (Posix.makedirs fuel _ w) as [[u|e] w1]; cbn [snd] in *.
  - eapply extends_trans; [done|apply os_mkdir_extends].
  - destruct e; try done; eapply extends_trans; [done|apply os_mkdir_extends].
Qed.

(** [shutil.make_archive] by the worlds: [w0] is the world once the
    directory of the archive is there. *)
Lemma make_archive_spec (base_name root_dir : PurePath) w :
  ∃ w0,
    Posix.extends w w0
    ∧ match Posix.make_archive base_name "zip" root_dir w with
      | (Raised _, w1) => w1 = w0
      | (Returned _, w1) =>
          let target := Posix.resolve w (Posix.archive_path base_name) in
          let opened := <[target := Posix.File (Posix.Zip [])]> (Posix.files w0) in
          let r := Posix.resolve w root_dir in
          w1 = Posix.set_files w
                 (<[target := Posix.File
                                (Posix.Zip match Posix.node_at opened r with
                                           | Some Posix.Dir => Posix.snapshot opened r
                                           | _ => []
                                           end)]> (Posix.files w0))
          ∧ target ≠ []
          ∧ Posix.find (Posix.archive_path base_name) w0 = Returned (Posix.Entry target)
      end.
Proof.
  unfold Posix.make_archive. rewrite decide_False by (by intros ?).
  set (made := if _ && _ then _ else _).
  assert (Hmade : Posix.extends w made.2).
  { unfold made. destruct (_ && _); [apply makedirs_extends|apply extends_refl]. }
  destruct made as [[u|e] w0]; cbn [snd] in Hmade; exists w0; (split; [done|]);
    [|done].
  pose proof (extends_cwd _ _ Hmade) as Hcwd.
  destruct (Posix.find _ w0) as [[k|k]|e] eqn:Hfind; [done| |done].
  destruct (find_entry _ _ _ Hfind) as [-> Hne].
  rewrite !(posix_resolve_cwd w w0) in * by done.
  destruct Hmade as [Hw0 _].
  destruct (Posix.files w0 !! _) as [[|c]|]; [done|split_and!; [|done..]..];
    by rewrite Hw0 at 1.
Qed.

(** [shutil.rmtree] by the worlds. *)
Lemma rmtree_spec p w :
  let k := Posix.resolve w p in
  match Posix.rmtree p w with
  | (Returned _, w1) =>
      w1 = Posix.set_files w (filter (λ kv, ¬ k `prefix_of` kv.1) (Posix.files w))
      ∧ Posix.files w !! k = Some Posix.Dir
      ∧ Posix.find p w = Returned (Posix.Entry k)
  | (Raised _, w1) =>
      w1 = w
      ∨ w1 = Posix.set_files w
               (filter (λ kv, ¬ (k `prefix_of` kv.1 ∧ kv.1 ≠ k)) (Posix.files w))
  end.
Proof.
  intros k. unfold Posix.rmtree.
  destruct (Posix.find p w) as [[q|q]|e] eqn:Hfind.
  - apply find_here in Hfind as ->. by right.
  - destruct (find_entry _ _ _ Hfind) as [-> Hne]. fold k.
    destruct (Posix.files w !! k) as [[|c]|]; [done|by left..].
  - by left.
Qed.
End posix_calls.
(** ** The archive and the tree on the file system in memory *)

Section posix.
Variables (ponder_name output_dir : string).

Abbreviation datapack_here := (Ponder.datapack_dir ponder_name output_dir).

Lemma posix_make_archive_returned (base_name root_dir : PurePath) (format : string)
    (w w1 : Posix.world) (s : string) :
  Posix.make_archive base_name format root_dir w = (Returned s, w1) →
  ∃ fs members,
    w1 = Posix.set_files w
           (<[Posix.resolve w (Posix.archive_path base_name)
              := Posix.File (Posix.Zip members)]> fs).
Proof.
  intros Hrun. destruct (decide (format = "zip")) as [->|Hformat].
  - destruct (make_archive_spec base_name root_dir w) as (w0 & _ & Hspec).
    rewrite Hrun in Hspec. destruct Hspec as [-> _]. by eauto.
  - unfold Posix.make_archive in Hrun. by rewrite decide_True in Hrun.
Qed.

Lemma posix_rmtree_returned (p : PurePath) (w w1 : Posix.world) (u : unit) :
  Posix.rmtree p w = (Returned u, w1) →
  w1 = Posix.set_files w
         (filter (λ kv, ¬ Posix.resolve w p `prefix_of` kv.1) (Posix.files w)).
Proof.
  intros Hrun. pose proof (rmtree_spec p w) as Hspec. rewrite Hrun in Hspec.
  by destruct Hspec as [-> _].
Qed.

(** After [shutil.rmtree] has returned, nothing is left at or below the
    directory of the pack, and the archive written just before is there
    unless its own path lies in that directory. *)
Lemma posix_pack_datapack (commands : list compiled) (functions : functions_dict)
    (w : Posix.world) out w' tr :
  exec (Ponder.pack_datapack ponder_name output_dir datapack_here commands functions) w
    = (out, w', tr) →
  EvRmtree datapack_here (Returned tt) ∈ tr →
  let k := Posix.resolve w' datapack_here in
  let target := Posix.resolve w' (Posix.archive_path datapack_here) in
  (∀ q, k `prefix_of` q → Posix.files w' !! q = None)
  ∧ (¬ k `prefix_of` target →
     ∃ members, Posix.files w' !! target = Some (Posix.File (Posix.Zip members))).
Proof.
  rewrite exec_pack_datapack. cbn [sys_make_archive sys_rmtree sys_log Posix.os].
  destruct (Posix.make_archive _ _ _ w) as [[s|e] w1] eqn:Harchive.
  2:{ intros [= <- <- <-] Hin. apply list_elem_of_singleton in Hin. done. }
  destruct (Posix.rmtree _ w1) as [[u|e] w2] eqn:Hrmtree.
  2:{ intros [= <- <- <-] Hin. rewrite !elem_of_cons, elem_of_nil in Hin.
      naive_solver. }
  apply posix_make_archive_returned in Harchive as (fs & members & ->).
  apply posix_rmtree_returned in Hrmtree as ->.
  assert (Hfinal : ∀ w3,
    Posix.cwd w3 = Posix.cwd w →
    Posix.files w3
    = filter (λ kv, ¬ Posix.resolve w datapack_here `prefix_of` kv.1)
        (<[Posix.resolve w (Posix.archive_path datapack_here)
           := Posix.File (Posix.Zip members)]> fs) →
    (∀ q, Posix.resolve w3 datapack_here `prefix_of` q → Posix.files w3 !! q = None)
    ∧ (¬ Posix.resolve w3 datapack_here
           `prefix_of` Posix.resolve w3 (Posix.archive_path datapack_here) →
       ∃ members,
         Posix.files w3 !! Posix.resolve w3 (Posix.archive_path datapack_here)
         = Some (Posix.File (Posix.Zip members)))).
  { intros w3 Hcwd Hfiles. unfold Posix.resolve. rewrite Hcwd, Hfiles.
    fold (Posix.resolve w datapack_here).
    fold (Posix.resolve w (Posix.archive_path datapack_here)). split.
    - intros q Hq. apply map_lookup_filter_None. right. intros x _ Hx. by apply Hx.
    - intros Hout. exists members. apply map_lookup_filter_Some. split; [|done].
      apply lookup_insert_eq. }
  destruct (max_of _); intros [= <- <- <-] _; by apply Hfinal.
Qed.
End posix.

(** On the file system in memory, once [compile] has seen
    [shutil.rmtree] return, nothing is left at or below the directory of
    the pack and the archive is there, unless the path of the archive
    lies in that directory. *)
Lemma posix_compile_leaves_archive
    (compile_operations : Ponder.t → position → outcome (list compiled))
    (self : Ponder.t) (version : bool) (pos_offset : position)
    (ponder_name output_dir : string) (w : Posix.world) :
  let r := exec (Ponder.compile compile_operations self version pos_offset ponder_name
                   output_dir) w in
  let datapack_dir := Ponder.datapack_dir ponder_name output_dir in
  EvRmtree datapack_dir (Returned tt) ∈ trace_of r →
  let k := Posix.resolve (world_of r) datapack_dir in
  let target := Posix.resolve (world_of r) (Posix.archive_path datapack_dir) in
  (∀ q, k `prefix_of` q → Posix.files (world_of r) !! q = None)
  ∧ (¬ k `prefix_of` target →
     ∃ members,
       Posix.files (world_of r) !! target = Some (Posix.File (Posix.Zip members))).
Proof.
  intros r datapack_dir. destruct r as [[out w'] tr] eqn:Hrun. unfold r in Hrun. clear r.
  unfold trace_of, world_of. cbn [fst snd]. intros Hin.
  assert (Hpassed : ∀ pre,
    passed_prompt version pos_offset ponder_name output_dir pre →
    EvRmtree datapack_dir (Returned tt) ∉ pre).
  { intros pre Hpre Hpin.
    apply (proj1 (Forall_forall _ _) (passed_not_shutil _ _ _ _ _ Hpre)) in Hpin.
    done. }
  apply compile_run in Hrun
    as [(answer & Hno & -> & ->)|[(e & -> & ->)|(pre & w1 & btr & Hpre & Hbody & ->)]].
  - exfalso. revert Hin. unfold asked. cbn [app].
    rewrite !elem_of_cons, elem_of_nil. naive_solver.
  - exfalso. revert Hin. unfold asked. cbn [app].
    rewrite !elem_of_cons, elem_of_nil. naive_solver.
  - assert (Hp : passed_prompt version pos_offset ponder_name output_dir pre).
    { destruct Hpre as [->|(answer & Hyes & ->)]; by constructor. }
    apply elem_of_app in Hin as [Hin|Hin]; [by apply Hpassed in Hin|].
    apply compile_body_run in Hbody.
    destruct (compile_operations self pos_offset) as [commands|e].
    + destruct Hbody as [(n & a & e & Hn & -> & ->)|(w2 & ptr & Hpack & ->)].
      * exfalso. apply elem_of_cons in Hin as [Hin|Hin]; [done|].
        apply elem_of_app in Hin as [Hin|Hin].
        -- apply list_elem_of_fmap in Hin as (a' & Ha' & _).
           pose proof (performed_not_shutil (Returned tt) a') as Hns.
           by rewrite <-Ha' in Hns.
        -- apply list_elem_of_singleton in Hin.
           pose proof (performed_not_shutil (Raised e) a) as Hns.
           by rewrite <-Hin in Hns.
      * apply elem_of_cons in Hin as [Hin|Hin]; [done|].
        apply elem_of_app in Hin as [Hin|Hin].
        -- exfalso. apply list_elem_of_fmap in Hin as (a' & Ha' & _).
           pose proof (performed_not_shutil (Returned tt) a') as Hns.
           by rewrite <-Ha' in Hns.
        -- by eapply posix_pack_datapack.
    + destruct Hbody as (-> & -> & ->). by apply elem_of_nil in Hin.
Qed.

(** C8, with the conditions the code needs. On any operating system:
    when [shutil.make_archive] raises, its exception is what [compile]
    raises, the call is the last one made and [shutil.rmtree] is never
    called; when it returns, the very next call is [shutil.rmtree] on the
    directory of the pack, whatever else holds; and [shutil.rmtree] is
    called nowhere else. On the file system in memory, once that
    [shutil.rmtree] has returned nothing is left at or below the directory
    of the pack, and for a plain [ponder_name] the archive
    [{output_dir}/{ponder_name}.zip] is there. *)
Theorem archive_then_rmtree
    (compile_operations : Ponder.t → position → outcome (list compiled))
    (self : Ponder.t) (version : bool) (pos_offset : position)
    (ponder_name output_dir : string) :
  let compile := Ponder.compile compile_operations self version pos_offset ponder_name
                   output_dir in
  let datapack_dir := Path output_dir </> ponder_name in
  (∀ (W : Type) (H : OS W) (w : W),
     let r := exec compile w in
     (∀ b f rd e,
        EvMakeArchive b f rd (Raised e) ∈ trace_of r →
        outcome_of r = Raised e
        ∧ (∀ p res, EvRmtree p res ∉ trace_of r)
        ∧ ∃ pre,
            trace_of r = pre ++ [EvMakeArchive datapack_dir "zip" datapack_dir (Raised e)])
     ∧ (∀ pre b f rd s post,
          trace_of r = pre ++ EvMakeArchive b f rd (Returned s) :: post →
          b = datapack_dir ∧ f = "zip" ∧ rd = datapack_dir
          ∧ ∃ res post', post = EvRmtree datapack_dir res :: post')
     ∧ (∀ p res,
          EvRmtree p res ∈ trace_of r →
          p = datapack_dir
          ∧ ∃ pre s post,
              trace_of r
              = pre ++ EvMakeArchive datapack_dir "zip" datapack_dir (Returned s)
                    :: EvRmtree datapack_dir res :: post))
  ∧ (∀ w : Posix.world,
       let r := exec compile w in
       let k := Posix.resolve (world_of r) datapack_dir in
       let archive :=
         Posix.resolve (world_of r) (Path output_dir </> (ponder_name +:+ ".zip")) in
       EvRmtree datapack_dir (Returned tt) ∈ trace_of r →
       (∀ q, k `prefix_of` q → Posix.files (world_of r) !! q = None)
       ∧ (plain_name ponder_name →
          ∃ members,
            Posix.files (world_of r) !! archive = Some (Posix.File (Posix.Zip members)))).
Proof.
  intros compile datapack_dir. split.
  2:{ intros w r k archive Hin.
      destruct (posix_compile_leaves_archive compile_operations self version pos_offset
                  ponder_name output_dir w Hin) as [Hgone Hzip].
      split; [done|]. intros Hplain. unfold archive.
      rewrite zip_path_plain by done. apply Hzip. by apply archive_outside_tree. }
  intros W H w r.
  pose proof (compile_runs_exec compile_operations self version pos_offset ponder_name
                output_dir w) as Hrun.
  cbv zeta in Hrun. fold compile in Hrun. fold r in Hrun. revert Hrun.
  generalize (trace_of r) (outcome_of r). intros tr out Hrun.
  apply run_shutil in Hrun as [Hnone|(pre & commands & ptr & -> & Hpre & Hpack)].
  { split_and!.
    - intros b f rd e Hin. by apply (proj1 (Forall_forall _ _) Hnone) in Hin.
    - intros pre b f rd s post ->. apply Forall_app in Hnone as [_ Hnone].
      by apply Forall_cons in Hnone as [? _].
    - intros p res Hin. by apply (proj1 (Forall_forall _ _) Hnone) in Hin. }
  assert (Hpre_in : ∀ ev, is_shutil ev = true → ev ∉ pre).
  { intros ev Hev Hin. apply (proj1 (Forall_forall _ _) Hpre) in Hin. congruence. }
  fold (Ponder.datapack_dir ponder_name output_dir) in datapack_dir.
  split_and!.
  - intros b f rd e [Hin|Hin]%elem_of_app; [by apply Hpre_in in Hin|].
    destruct Hpack as [e'|s e'|s Hnil|s max_time Hmax];
      repeat (apply elem_of_cons in Hin as [Hin|Hin]; [simplify_eq|]);
      try by apply elem_of_nil in Hin.
    split_and!; [done| |by exists pre].
    intros p res [Hin'|Hin']%elem_of_app; [by apply Hpre_in in Hin'|].
    apply list_elem_of_singleton in Hin'. done.
  - intros pre' b f rd s post Heq.
    apply shutil_not_archive in Hpre.
    destruct Hpack as [e'|s' e'|s' Hnil|s' max_time Hmax];
      apply (split_at_only is_archive) in Heq as (_ & Heq & Hpost);
      try done; try (by repeat constructor); simplify_eq; eauto 10.
  - intros p res [Hin|Hin]%elem_of_app; [by apply Hpre_in in Hin|].
    destruct Hpack as [e'|s e'|s Hnil|s max_time Hmax];
      repeat (apply elem_of_cons in Hin as [Hin|Hin]; [simplify_eq|]);
      try by apply elem_of_nil in Hin.
    + split; [done|]. by exists pre, s, [].
    + split; [done|]. by exists pre, s, [].
    + split; [done|]. by eexists pre, s, [_].
Qed.

(** C8, as the claim has it, fails. With [ponder_name = "."] the directory
    of the pack is the working directory and the archive [..zip] is
    written into it: [shutil.make_archive] returns, [shutil.rmtree] is
    called, empties the working directory, the archive with it, and
    raises, since a directory cannot be removed by the name [.]. The
    archive is not left, and [compile] raises. *)
Lemma archive_lost_counterexample :
  let r := exec (Ponder.compile (fixed_commands stone_commands) empty_ponder true
                   (0, 0, 0) "." ".") Posix.fresh in
  let datapack_dir := Path "." </> "." in
  let archive := Posix.resolve (world_of r) (Path "." </> ("." +:+ ".zip")) in
  trace_of r
  = [EvLog Info MsgCompiling;
     EvLog Debug (MsgArguments true (0, 0, 0) "." ".");
     EvOsPathExists "./..zip" false;
     EvPathExists datapack_dir true;
     EvWriteText (datapack_dir </> "pack.mcmeta") pack_mcmeta_text (Some "Utf-8")
       (Returned tt);
     EvMkdir (datapack_dir </> "data/." </> "function") (Returned tt);
     EvWriteText (datapack_dir </> "data/." </> "function" </> "_5.mcfunction")
       (header +:+ newline +:+ "setblock 1 0 0 minecraft:stone") None (Returned tt);
     EvWriteText (datapack_dir </> "data/." </> "function" </> "main.mcfunction")
       (header +:+ newline +:+ "schedule function .:5 11 append") None (Returned tt);
     EvMakeArchive datapack_dir "zip" datapack_dir (Returned "/home/..zip");
     EvRmtree datapack_dir (Raised (OSError "rmdir"))]
  ∧ outcome_of r = Raised (OSError "rmdir")
  ∧ archive = ["home"; "..zip"]
  ∧ Posix.files (world_of r) !! archive = None
  ∧ (map_to_list (Posix.files (world_of r))).*1 = [["home"]].
Proof. split_and!; vm_compute; reflexivity. Qed.

(** ** What [compile] returns *)

(** On any operating system, a run of [compile] that returns, returns
    [None]. *)
Lemma compile_returns_None `{OS W}
    (compile_operations : Ponder.t → position → outcome (list compiled))
    (self : Ponder.t) (version : bool) (pos_offset : position)
    (ponder_name output_dir : string) (w : W) (v : option string) :
  outcome_of (exec (Ponder.compile compile_operations self version pos_offset
                      ponder_name output_dir) w) = Returned v →
  v = None.
Proof.
  pose proof (compile_runs_exec compile_operations self version pos_offset ponder_name
                output_dir w) as Hrun.
  cbv zeta in Hrun. revert Hrun.
  generalize (trace_of (exec (Ponder.compile compile_operations self version pos_offset
                                ponder_name output_dir) w)).
  generalize (outcome_of (exec (Ponder.compile compile_operations self version pos_offset
                                  ponder_name output_dir) w)).
  intros out tr Hrun ->. inversion Hrun as [| | | |? ? ? ? ? ? ? Hpack]; subst; [done|].
  by inversion Hpack.
Qed.

(** C4, at the input where the claim and the docstring ask for a path: one
    compiled command, an empty directory, default arguments. The archive
    is written to [ponders.zip], [shutil.make_archive] returns its path
    [/home/ponders.zip], and [compile] returns [None]. *)
Theorem compile_returns_None_after_archive :
  let datapack_dir := Path "." </> "ponders" in
  let r := exec (Ponder.compile (fixed_commands stone_commands) empty_ponder true
                   (0, 0, 0) "ponders" ".") Posix.fresh in
  outcome_of r = Returned None
  ∧ EvMakeArchive datapack_dir "zip" datapack_dir (Returned "/home/ponders.zip")
    ∈ trace_of r
  ∧ ∃ members,
      Posix.files (world_of r) !! ["home"; "ponders.zip"]
      = Some (Posix.File (Posix.Zip members)).
Proof.
  split_and!.
  - vm_compute. reflexivity.
  - apply list_elem_of_In. vm_compute. auto 20.
  - eexists. vm_compute. reflexivity.
Qed.

(** ** The theorems at concrete inputs *)


Lemma datapack_layout_witness :
  let r := exec (Ponder.compile (fixed_commands stone_commands) empty_ponder true
                   (0, 0, 0) "ponders" ".") Posix.fresh in
  let datapack_dir := Path "." </> "ponders" in
  let function_dir := datapack_dir </> "data/ponders" </> "function" in
  ∃ (there : bool) archive_name,
    mutations (trace_of r)
    = (if there then [] else [EvMkdir datapack_dir (Returned tt)])
      ++ [EvWriteText (datapack_dir </> "pack.mcmeta") pack_mcmeta_text (Some "Utf-8")
            (Returned tt);
          EvMkdir function_dir (Returned tt)]
      ++ ((λ t, EvWriteText (function_dir </> ("_" +:+ str_int t +:+ ".mcfunction"))
                  (join newline (header :: texts_at t stone_commands)) None (Returned tt))
            <$> first_seen stone_commands.*1)
      ++ [EvWriteText (function_dir </> "main.mcfunction")
            (join newline
               (header :: (schedule_line "ponders" <$> first_seen stone_commands.*1)))
            None (Returned tt);
          EvMakeArchive datapack_dir "zip" datapack_dir (Returned archive_name);
          EvRmtree datapack_dir (Returned tt)].
Proof.
  intros r datapack_dir function_dir.
  refine (proj1 (datapack_layout (fixed_commands stone_commands) empty_ponder true
                   (0, 0, 0) "ponders" "." Posix.fresh stone_commands _ _ _)).
  - reflexivity.
  - vm_compute. repeat constructor.
  - intros Hin. apply list_elem_of_In in Hin. vm_compute in Hin.
    repeat (destruct Hin as [Hin|Hin]; [discriminate Hin|]). exact Hin.
Defined.

Lemma archive_then_rmtree_witness :
  (let r := exec (Ponder.compile (fixed_commands stone_commands) empty_ponder true
                    (0, 0, 0) "ponders" ".") (Posix.with_directory ["y"]) in
   let datapack_dir := Path "." </> "ponders" in
   outcome_of r = Raised IsADirectoryError
   ∧ (∀ p res, EvRmtree p res ∉ trace_of r)
   ∧ ∃ pre,
       trace_of r
       = pre ++ [EvMakeArchive datapack_dir "zip" datapack_dir
                   (Raised IsADirectoryError)])
  ∧ (let r := exec (Ponder.compile (fixed_commands stone_commands) empty_ponder true
                      (0, 0, 0) "ponders" ".") Posix.fresh in
     let datapack_dir := Path "." </> "ponders" in
     let k := Posix.resolve (world_of r) datapack_dir in
     let archive := Posix.resolve (world_of r) (Path "." </> ("ponders" +:+ ".zip")) in
     EvRmtree datapack_dir (Returned tt) ∈ trace_of r
     ∧ k = ["home"; "ponders"] ∧ archive = ["home"; "ponders.zip"]
     ∧ (∀ q, k `prefix_of` q → Posix.files (world_of r) !! q = None)
     ∧ ∃ members,
         Posix.files (world_of r) !! archive = Some (Posix.File (Posix.Zip members))).
Proof.
  split.
  - intros r datapack_dir.
    refine (proj1 (proj1 (archive_then_rmtree (fixed_commands stone_commands)
                            empty_ponder true (0, 0, 0) "ponders" ".")
                     Posix.world Posix.os (Posix.with_directory ["y"]))
              datapack_dir "zip" datapack_dir IsADirectoryError _).
    apply list_elem_of_In. vm_compute. auto 20.
  - intros r datapack_dir k archive.
    assert (Hin : EvRmtree datapack_dir (Returned tt) ∈ trace_of r).
    { apply list_elem_of_In. vm_compute. auto 20. }
    destruct (proj2 (archive_then_rmtree (fixed_commands stone_commands) empty_ponder
                       true (0, 0, 0) "ponders" ".") Posix.fresh Hin) as [Hgone Hzip].
    split_and!; [exact Hin|reflexivity|reflexivity|exact Hgone|].
    apply Hzip. by split_and!.
Defined.

Lemma no_command_raises_after_packing_witness :
  let r := exec (Ponder.compile (fixed_commands []) empty_ponder true (0, 0, 0)
                   "ponders" ".") Posix.fresh in
  outcome_of r = Raised ValueError.
Proof.
  intros r.
  refine (proj1 (no_command_raises_after_packing (fixed_commands []) empty_ponder true
                   (0, 0, 0) "ponders" "." Posix.fresh _ _ _)).
  - reflexivity.
  - vm_compute. repeat constructor.
  - intros Hin. apply list_elem_of_In in Hin. vm_compute in Hin.
    repeat (destruct Hin as [Hin|Hin]; [discriminate Hin|]). exact Hin.
Defined.

(** ** Runs on the file system in memory *)

(** Without commands the archive is there all the same, with
    [pack.mcmeta] and a [main.mcfunction] of one line, and the tree is
    gone. *)
Example no_command_archive :
  let r := exec (Ponder.compile (fixed_commands []) empty_ponder true (0, 0, 0)
                   "ponders" ".") Posix.fresh in
  outcome_of r = Raised ValueError
  ∧ Posix.files (world_of r) !! ["home"; "ponders"] = None
  ∧ ∃ members,
      Posix.files (world_of r) !! ["home"; "ponders.zip"]
      = Some (Posix.File (Posix.Zip members))
      ∧ (["pack.mcmeta"], Some (Posix.Text pack_mcmeta_text)) ∈ members
      ∧ (["data"; "ponders"; "function"; "main.mcfunction"], Some (Posix.Text header))
          ∈ members.
Proof.
  split_and!; [by vm_compute..|].
  eexists. split_and!.
  - vm_compute. reflexivity.
  - apply list_elem_of_In. vm_compute. auto 20.
  - apply list_elem_of_In. vm_compute. auto 20.
Qed.

(** With one command: the tree is gone, the archive is there, and its
    path lies outside the tree. *)
Example archive_left_alone :
  let r := exec (Ponder.compile (fixed_commands stone_commands) empty_ponder true
                   (0, 0, 0) "ponders" ".") Posix.fresh in
  let datapack_dir := Path "." </> "ponders" in
  Posix.resolve (world_of r) datapack_dir = ["home"; "ponders"]
  ∧ Posix.resolve (world_of r) (Posix.archive_path datapack_dir) = ["home"; "ponders.zip"]
  ∧ ¬ ["home"; "ponders"] `prefix_of` ["home"; "ponders.zip"]
  ∧ (map_to_list (Posix.files (world_of r))).*1 ≡ₚ [["home"]; ["home"; "ponders.zip"]].
Proof.
  split_and!.
  - vm_compute. reflexivity.
  - vm_compute. reflexivity.
  - intros [rest Hrest]. discriminate Hrest.
  - vm_compute. apply perm_swap.
Qed.

(** When the archive cannot be written the tree stays. *)
Example failed_archive_keeps_tree :
  let r := exec (Ponder.compile (fixed_commands stone_commands) empty_ponder true
                   (0, 0, 0) "ponders" ".") (Posix.with_directory ["y"]) in
  outcome_of r = Raised IsADirectoryError
  ∧ Posix.files (world_of r) !! ["home"; "ponders"; "pack.mcmeta"]
    = Some (Posix.File (Posix.Text pack_mcmeta_text))
  ∧ Posix.files (world_of r)
      !! ["home"; "ponders"; "data"; "ponders"; "function"; "_5.mcfunction"]
    = Some (Posix.File
              (Posix.Text (header +:+ newline +:+ "setblock 1 0 0 minecraft:stone"))).
Proof. split_and!; by vm_compute. Qed.

(** * Further properties *)

(** ** The authoring methods (lines 25-107) *)

Lemma make_call_commands (self : Ponder.t) (c : authoring_call) :
  ∃ op, Ponder.commands (make_call self c) = Ponder.commands self ++ [op]
        ∧ op_time op = call_time c
        ∧ Ponder.size (make_call self c) = Ponder.size self.
Proof. destruct c; eexists; split_and!; reflexivity. Qed.

(** X1. Whatever series of authoring calls is made on an object, its size
    stays, the records it had stay where they were, one record is added
    per call, and the times of the added records are the time arguments in
    the order of the calls: the log is never sorted or merged by time. *)
Theorem authoring_log_in_call_order (self : Ponder.t) (calls : list authoring_call) :
  let after := make_calls self calls in
  Ponder.size after = Ponder.size self
  ∧ ∃ added,
      Ponder.commands after = Ponder.commands self ++ added
      ∧ op_time <$> added = call_time <$> calls.
Proof.
  unfold make_calls. revert self.
  induction calls as [|c calls IH]; intros self; simpl.
  - split; [done|]. exists []. by rewrite app_nil_r.
  - destruct (make_call_commands self c) as (op & Hop & Htime & Hsize).
    destruct (IH (make_call self c)) as (Hsz & added & Hadded & Htimes).
    split; [congruence|]. exists (op :: added).
    rewrite Hadded, Hop, <-app_assoc. split; [done|].
    cbn [fmap list_fmap]. by rewrite Htime, Htimes.
Qed.

(** ** Runs that end before line 141 *)

Lemma mutations_cancelled version pos_offset (ponder_name output_dir : string) l :
  Forall (λ ev, mutates ev = false) l →
  mutations (asked version pos_offset ponder_name output_dir true ++ l) = [].
Proof.
  intros Hl. rewrite mutations_app. unfold mutations at 1. simpl.
  induction Hl as [|ev l Hev Hl IH]; [done|].
  unfold mutations in *. by rewrite filter_cons_False by congruence.
Qed.

(** X2. When [compile_operations] raises, no directory is made and no
    file is written, archived or removed, on any operating system; and
    unless the operator cancelled or [input()] itself raised, [compile]
    raises the exception of [compile_operations]. *)
Theorem compiler_error_writes_nothing `{OS W}
    (compile_operations : Ponder.t → position → outcome (list compiled))
    (self : Ponder.t) (version : bool) (pos_offset : position)
    (ponder_name output_dir : string) (w : W) (e : exn) :
  compile_operations self pos_offset = Raised e →
  let r := exec (Ponder.compile compile_operations self version pos_offset ponder_name
                   output_dir) w in
  mutations (trace_of r) = []
  ∧ (outcome_of r = Raised e
     ∨ (outcome_of r = Returned None ∧ EvLog Info MsgCancelled ∈ trace_of r)
     ∨ ∃ e', outcome_of r = Raised e' ∧ EvInput (Raised e') ∈ trace_of r).
Proof.
  intros Hco r.
  pose proof (compile_runs_exec compile_operations self version pos_offset ponder_name
                output_dir w) as Hrun.
  cbv zeta in Hrun. fold r in Hrun. revert Hrun.
  generalize (trace_of r) (outcome_of r). intros tr out Hrun.
  destruct Hrun as
    [answer Hno|e'|pre e' Hpre Hco'|pre commands there n a e' Hpre Hco' Hn
    |pre commands there out ptr Hpre Hco' Hpack]; try congruence.
  - split; [by apply mutations_cancelled; repeat constructor|].
    right. left. split; [done|]. rewrite elem_of_app, !elem_of_cons. auto.
  - split; [by apply mutations_cancelled; repeat constructor|].
    right. right. exists e'. split; [done|].
    rewrite elem_of_app, !elem_of_cons. auto.
  - split; [by eapply mutations_passed|]. left. congruence.
Qed.

Lemma compiler_error_writes_nothing_witness :
  let r := exec (Ponder.compile (λ _ _, Raised (FormatError "tp <1 1>")) empty_ponder
                   true (0, 0, 0) "ponders" ".") Posix.fresh in
  mutations (trace_of r) = []
  ∧ (outcome_of r = Raised (FormatError "tp <1 1>")
     ∨ (outcome_of r = Returned None ∧ EvLog Info MsgCancelled ∈ trace_of r)
     ∨ ∃ e', outcome_of r = Raised e' ∧ EvInput (Raised e') ∈ trace_of r).
Proof.
  apply (compiler_error_writes_nothing (λ _ _, Raised (FormatError "tp <1 1>"))
           empty_ponder true (0, 0, 0) "ponders" "." Posix.fresh).
  reflexivity.
Defined.

(** ** The prompt (lines 131-136) *)

Section prompt.
Context `{OS W}.
Variable compile_operations : Ponder.t → position → outcome (list compiled).
Variables (self : Ponder.t) (version : bool) (pos_offset : position).
Variables (ponder_name output_dir : string).

Lemma performed_not_input r (acts : list action) res :
  EvInput res ∉ performed r <$> acts.
Proof. intros (a & Ha & _)%list_elem_of_fmap. by destruct a. Qed.

Lemma performed_not_log r (acts : list action) lv m :
  EvLog lv m ∉ performed r <$> acts.
Proof. intros (a & Ha & _)%list_elem_of_fmap. by destruct a. Qed.

(** Lines 138-190 never read the standard input and never log a
    warning. *)
Lemma compile_body_quiet (w : W) ev :
  ev ∈ trace_of (exec (Ponder.compile_body compile_operations self version pos_offset
                         ponder_name output_dir) w) →
  (∀ res, ev ≠ EvInput res) ∧ (∀ m, ev ≠ EvLog Warning m)
  ∧ ev ≠ EvLog Info MsgCancelled.
Proof.
  destruct (exec _ w) as [[out w'] tr] eqn:Hrun. unfold trace_of. cbn [snd].
  apply compile_body_run in Hrun. intros Hin.
  assert (Hperf : ∀ r a, (∀ res, performed r a ≠ EvInput res)
                         ∧ (∀ m, performed r a ≠ EvLog Warning m)
                         ∧ performed r a ≠ EvLog Info MsgCancelled).
  { intros r a. by destruct a. }
  destruct (compile_operations self pos_offset) as [commands|e].
  - destruct Hrun as [(n & a & e & Hn & -> & ->)|(w1 & ptr & Hpack & ->)].
    + apply elem_of_cons in Hin as [->|Hin]; [done|].
      apply elem_of_app in Hin as [Hin|Hin].
      * apply list_elem_of_fmap in Hin as (b & -> & _). apply Hperf.
      * apply list_elem_of_singleton in Hin as ->. apply Hperf.
    + apply elem_of_cons in Hin as [->|Hin]; [done|].
      apply elem_of_app in Hin as [Hin|Hin].
      * apply list_elem_of_fmap in Hin as (b & -> & _). apply Hperf.
      * apply pack_datapack_run in Hpack
          as [(e & _ & ->)|[(s & e & _ & ->)|[(s & _ & _ & ->)|(s & m & _ & _ & ->)]]];
          repeat (apply elem_of_cons in Hin as [->|Hin]; [done|]);
          by apply elem_of_nil in Hin.
  - destruct Hrun as (_ & _ & ->). by apply elem_of_nil in Hin.
Qed.
End prompt.

(** X3. When the test of line 132 finds no archive, [compile] never calls
    [input()], logs no warning and cannot be cancelled: after the two log
    records and the test it goes straight to line 138. *)
Theorem no_archive_no_prompt `{OS W}
    (compile_operations : Ponder.t → position → outcome (list compiled))
    (self : Ponder.t) (version : bool) (pos_offset : position)
    (ponder_name output_dir : string) (w : W) :
  let w0 := sys_log Debug (MsgArguments version pos_offset ponder_name output_dir)
              (sys_log Info MsgCompiling w) in
  sys_os_path_exists (output_dir +:+ "/" +:+ ponder_name +:+ ".zip") w0 = false →
  let r := exec (Ponder.compile compile_operations self version pos_offset ponder_name
                   output_dir) w in
  let body := exec (Ponder.compile_body compile_operations self version pos_offset
                      ponder_name output_dir) w0 in
  (∀ res, EvInput res ∉ trace_of r)
  ∧ (∀ m, EvLog Warning m ∉ trace_of r)
  ∧ (EvLog Info MsgCancelled ∉ trace_of r)
  ∧ outcome_of r = outcome_of body
  ∧ world_of r = world_of body
  ∧ trace_of r = asked version pos_offset ponder_name output_dir false ++ trace_of body.
Proof.
  intros w0 Hfound r body. unfold r. rewrite exec_compile. fold w0.
  unfold Ponder.zip_file. rewrite Hfound. fold body.
  pose proof (compile_body_quiet compile_operations self version pos_offset ponder_name
                output_dir w0) as Hquiet.
  fold body in Hquiet. destruct body as [[out w'] tr].
  unfold trace_of, outcome_of, world_of in *. cbn [preceded fst snd] in *.
  split_and!; [| | |done..].
  - intros res [Hin|Hin]%elem_of_app.
    + revert Hin. unfold asked. cbn [app]. rewrite !elem_of_cons, elem_of_nil.
      naive_solver.
    + destruct (Hquiet _ Hin) as (Hq & _). by apply (Hq res).
  - intros m [Hin|Hin]%elem_of_app.
    + revert Hin. unfold asked. cbn [app]. rewrite !elem_of_cons, elem_of_nil.
      naive_solver.
    + destruct (Hquiet _ Hin) as (_ & Hq & _). by apply (Hq m).
  - intros [Hin|Hin]%elem_of_app.
    + revert Hin. unfold asked. cbn [app]. rewrite !elem_of_cons, elem_of_nil.
      naive_solver.
    + by destruct (Hquiet _ Hin) as (_ & _ & Hq).
Qed.

Lemma no_archive_no_prompt_witness :
  let w0 := sys_log Debug (MsgArguments true (0, 0, 0) "ponders" ".")
              (sys_log Info MsgCompiling Posix.fresh) in
  let r := exec (Ponder.compile (fixed_commands stone_commands) empty_ponder true
                   (0, 0, 0) "ponders" ".") Posix.fresh in
  let body := exec (Ponder.compile_body (fixed_commands stone_commands) empty_ponder
                      true (0, 0, 0) "ponders" ".") w0 in
  (∀ res, EvInput res ∉ trace_of r)
  ∧ (∀ m, EvLog Warning m ∉ trace_of r)
  ∧ (EvLog Info MsgCancelled ∉ trace_of r)
  ∧ outcome_of r = outcome_of body
  ∧ world_of r = world_of body
  ∧ trace_of r = asked true (0, 0, 0) "ponders" "." false ++ trace_of body.
Proof.
  refine (no_archive_no_prompt (fixed_commands stone_commands) empty_ponder true
            (0, 0, 0) "ponders" "." Posix.fresh _).
  vm_compute. reflexivity.
Defined.

(** X4. When the archive is found and the operator answers [y] or [Y],
    [compile] is not cancelled: after the prompt it does what lines
    138-190 do from the world [input()] left, and ends as they end. *)
Theorem confirmed_overwrite_goes_on `{OS W}
    (compile_operations : Ponder.t → position → outcome (list compiled))
    (self : Ponder.t) (version : bool) (pos_offset : position)
    (ponder_name output_dir : string) (w w1 : W) (answer : string) :
  let w0 := sys_log Debug (MsgArguments version pos_offset ponder_name output_dir)
              (sys_log Info MsgCompiling w) in
  sys_os_path_exists (output_dir +:+ "/" +:+ ponder_name +:+ ".zip") w0 = true →
  sys_input (sys_log Warning (MsgArchiveExists ponder_name) w0) = (Returned answer, w1) →
  answer = "y" ∨ answer = "Y" →
  let r := exec (Ponder.compile compile_operations self version pos_offset ponder_name
                   output_dir) w in
  let body := exec (Ponder.compile_body compile_operations self version pos_offset
                      ponder_name output_dir) w1 in
  (EvLog Info MsgCancelled ∉ trace_of r)
  ∧ outcome_of r = outcome_of body
  ∧ world_of r = world_of body
  ∧ trace_of r = asked version pos_offset ponder_name output_dir true
                 ++ [EvInput (Returned answer)] ++ trace_of body.
Proof.
  intros w0 Hfound Hinput Hanswer r body. unfold r. rewrite exec_compile. fold w0.
  unfold Ponder.zip_file. rewrite Hfound, Hinput.
  rewrite decide_False by (intros Hne; by apply Hne, lower_y).
  pose proof (compile_body_quiet compile_operations self version pos_offset ponder_name
                output_dir w1) as Hquiet.
  fold body in Hquiet |- *. destruct body as [[out w'] tr].
  unfold trace_of, outcome_of, world_of in *. cbn [preceded fst snd] in *.
  split_and!; [|done..|by rewrite <-app_assoc].
  intros [Hin|Hin]%elem_of_app.
  - revert Hin. unfold asked. cbn [app]. rewrite !elem_of_cons, elem_of_nil.
    naive_solver.
  - by destruct (Hquiet _ Hin) as (_ & _ & Hq).
Qed.

Lemma confirmed_overwrite_goes_on_witness :
  let w1 := (sys_input
               (sys_log Warning (MsgArchiveExists "ponders")
                  (sys_log Debug (MsgArguments true (0, 0, 0) "ponders" ".")
                     (sys_log Info MsgCompiling (Posix.with_archive ["Y"]))))).2 in
  let r := exec (Ponder.compile (fixed_commands stone_commands) empty_ponder true
                   (0, 0, 0) "ponders" ".") (Posix.with_archive ["Y"]) in
  let body := exec (Ponder.compile_body (fixed_commands stone_commands) empty_ponder
                      true (0, 0, 0) "ponders" ".") w1 in
  (EvLog Info MsgCancelled ∉ trace_of r)
  ∧ outcome_of r = outcome_of body
  ∧ world_of r = world_of body
  ∧ trace_of r = asked true (0, 0, 0) "ponders" "." true
                 ++ [EvInput (Returned "Y")] ++ trace_of body.
Proof.
  refine (confirmed_overwrite_goes_on (fixed_commands stone_commands) empty_ponder true
            (0, 0, 0) "ponders" "." (Posix.with_archive ["Y"]) _ "Y" _ _ _).
  - vm_compute. reflexivity.
  - reflexivity.
  - by right.
Defined.

(** X5. When [input()] raises at the prompt, [compile] raises the same
    exception at once: [input()] is its last call and nothing has been
    made, written or removed. *)
Theorem prompt_failure_writes_nothing `{OS W}
    (compile_operations : Ponder.t → position → outcome (list compiled))
    (self : Ponder.t) (version : bool) (pos_offset : position)
    (ponder_name output_dir : string) (w w1 : W) (e : exn) :
  let w0 := sys_log Debug (MsgArguments version pos_offset ponder_name output_dir)
              (sys_log Info MsgCompiling w) in
  sys_os_path_exists (output_dir +:+ "/" +:+ ponder_name +:+ ".zip") w0 = true →
  sys_input (sys_log Warning (MsgArchiveExists ponder_name) w0) = (Raised e, w1) →
  let r := exec (Ponder.compile compile_operations self version pos_offset ponder_name
                   output_dir) w in
  outcome_of r = Raised e
  ∧ world_of r = w1
  ∧ trace_of r = asked version pos_offset ponder_name output_dir true
                 ++ [EvInput (Raised e)]
  ∧ mutations (trace_of r) = [].
Proof.
  intros w0 Hfound Hinput r. unfold r. rewrite exec_compile. fold w0.
  unfold Ponder.zip_file. by rewrite Hfound, Hinput.
Qed.

Lemma prompt_failure_writes_nothing_witness :
  let r := exec (Ponder.compile (fixed_commands stone_commands) empty_ponder true
                   (0, 0, 0) "ponders" ".") (Posix.with_archive []) in
  outcome_of r = Raised EOFError
  ∧ world_of r = Posix.log Warning (MsgArchiveExists "ponders")
                   (Posix.log Debug (MsgArguments true (0, 0, 0) "ponders" ".")
                      (Posix.log Info MsgCompiling (Posix.with_archive [])))
  ∧ trace_of r = asked true (0, 0, 0) "ponders" "." true ++ [EvInput (Raised EOFError)]
  ∧ mutations (trace_of r) = [].
Proof.
  apply (prompt_failure_writes_nothing (fixed_commands stone_commands) empty_ponder true
           (0, 0, 0) "ponders" "." (Posix.with_archive [])).
  - vm_compute. reflexivity.
  - reflexivity.
Defined.

(** ** The report (lines 189-190) *)

Lemma fold_left_max_spec (l : list Z) (x : Z) :
  let m := fold_left Z.max l x in
  (m = x ∨ m ∈ l) ∧ x ≤ m ∧ Forall (λ t, t ≤ m) l.
Proof.
  revert x. induction l as [|y l IH]; intros x; cbn [fold_left].
  - split_and!; [by left|lia|constructor].
  - destruct (IH (Z.max x y)) as (Hin & Hle & Hall). split_and!.
    + destruct Hin as [->|Hin]; [|right; by right].
      destruct (Z.max_spec x y) as [[_ ->]|[_ ->]]; [right; by left|by left].
    + lia.
    + constructor; [lia|done].
Qed.

Lemma max_of_spec (l : list Z) (m : Z) :
  max_of l = Some m → m ∈ l ∧ Forall (λ t, t ≤ m) l.
Proof.
  destruct l as [|x l]; [done|]. intros [= <-].
  destruct (fold_left_max_spec l x) as (Hin & Hle & Hall). split.
  - destruct Hin as [->|Hin]; [by left|by right].
  - by constructor.
Qed.

(** X6. When [compile] returns without having been cancelled, there was
    at least one command, the archive was made and the tree removed, and
    the last call is the report of line 189: its counts are the number of
    distinct times and the number of commands, and the time it divides by
    20 is the greatest time of the commands. *)
Theorem final_report `{OS W}
    (compile_operations : Ponder.t → position → outcome (list compiled))
    (self : Ponder.t) (version : bool) (pos_offset : position)
    (ponder_name output_dir : string) (w : W) :
  let r := exec (Ponder.compile compile_operations self version pos_offset ponder_name
                   output_dir) w in
  let datapack_dir := Ponder.datapack_dir ponder_name output_dir in
  outcome_of r = Returned None →
  EvLog Info MsgCancelled ∉ trace_of r →
  ∃ commands before archive_name max_time,
    compile_operations self pos_offset = Returned commands
    ∧ commands ≠ []
    ∧ trace_of r
      = before ++ [EvMakeArchive datapack_dir "zip" datapack_dir (Returned archive_name);
                   EvRmtree datapack_dir (Returned tt);
                   EvLog Info (MsgDone (size (list_to_set commands.*1 : gset Z))
                                 (length commands) max_time output_dir ponder_name)]
    ∧ max_time ∈ commands.*1
    ∧ ∀ t, t ∈ commands.*1 → t ≤ max_time.
Proof.
  intros r datapack_dir.
  pose proof (compile_runs_exec compile_operations self version pos_offset ponder_name
                output_dir w) as Hrun.
  cbv zeta in Hrun. fold r in Hrun. revert Hrun.
  generalize (trace_of r) (outcome_of r). intros tr out Hrun Hout Hnc.
  destruct Hrun as
    [answer Hno|e|pre e Hpre Hco|pre commands there n a e Hpre Hco Hn
    |pre commands there out ptr Hpre Hco Hpack]; try discriminate.
  { exfalso. apply Hnc. rewrite elem_of_app, !elem_of_cons. auto. }
  destruct Hpack as [e|s e|s Hnil|s max_time Hmax]; try discriminate.
  rewrite dict_keys_group in Hmax. apply max_of_spec in Hmax as [Hin Hall].
  rewrite elem_of_first_seen in Hin.
  exists commands, (pre ++ EvPathExists datapack_dir there
                      :: (performed (Returned tt)
                            <$> datapack_actions version ponder_name datapack_dir there
                                  (group_commands commands))), s, max_time.
  split_and!; [done| | |done|].
  - intros ->. by apply elem_of_nil in Hin.
  - rewrite <-first_seen_length, <-dict_keys_group. unfold dict_keys.
    rewrite length_fmap, <-app_assoc. done.
  - intros t Ht. rewrite Forall_forall in Hall. apply Hall.
    by rewrite elem_of_first_seen.
Qed.

Lemma final_report_witness :
  let r := exec (Ponder.compile (fixed_commands stone_commands) empty_ponder true
                   (0, 0, 0) "ponders" ".") Posix.fresh in
  ∃ commands before archive_name max_time,
    fixed_commands stone_commands empty_ponder (0, 0, 0) = Returned commands
    ∧ commands ≠ []
    ∧ trace_of r
      = before ++ [EvMakeArchive (Ponder.datapack_dir "ponders" ".") "zip"
                     (Ponder.datapack_dir "ponders" ".") (Returned archive_name);
                   EvRmtree (Ponder.datapack_dir "ponders" ".") (Returned tt);
                   EvLog Info (MsgDone (size (list_to_set commands.*1 : gset Z))
                                 (length commands) max_time "." "ponders")]
    ∧ max_time ∈ commands.*1
    ∧ ∀ t, t ∈ commands.*1 → t ≤ max_time.
Proof.
  apply (final_report (fixed_commands stone_commands) empty_ponder true (0, 0, 0)
           "ponders" "." Posix.fresh).
  - vm_compute. reflexivity.
  - intros Hin. apply list_elem_of_In in Hin. vm_compute in Hin.
    repeat (destruct Hin as [Hin|Hin]; [discriminate Hin|]). exact Hin.
Defined.

(** ** No file is written twice *)

Lemma written_paths_performed r (acts : list action) :
  written_paths (performed r <$> acts) = omap action_path acts.
Proof.
  unfold written_paths. induction acts as [|[p|p data enc] acts IH]; simpl; by f_equal.
Qed.

Lemma written_paths_passed version pos_offset (ponder_name output_dir : string) pre :
  passed_prompt version pos_offset ponder_name output_dir pre → written_paths pre = [].
Proof. by intros [|answer _]. Qed.

Lemma written_paths_pack (ponder_name output_dir : string) commands functions out ptr :
  pack_runs ponder_name output_dir commands functions out ptr → written_paths ptr = [].
Proof. by intros [e|s e|s _|s m _]. Qed.

Lemma meta_file_names (datapack_dir : PurePath) :
  Ponder.meta_file datapack_dir
  = {| root := root datapack_dir; names := names datapack_dir ++ ["pack.mcmeta"] |}.
Proof. unfold Ponder.meta_file. by rewrite truediv_relative. Qed.

Lemma main_function_file_names (function_dir : PurePath) :
  Ponder.main_function_file function_dir
  = {| root := root function_dir; names := names function_dir ++ ["main.mcfunction"] |}.
Proof. unfold Ponder.main_function_file. by rewrite truediv_relative. Qed.

Lemma action_paths_datapack version (ponder_name : string) (datapack_dir : PurePath) there
    (functions : functions_dict) :
  let function_dir := Ponder.function_dir version ponder_name datapack_dir in
  omap action_path (datapack_actions version ponder_name datapack_dir there functions)
  = Ponder.meta_file datapack_dir
      :: (Ponder.function_file function_dir <$> dict_keys functions)
      ++ [Ponder.main_function_file function_dir].
Proof.
  intros function_dir. unfold datapack_actions. fold function_dir.
  rewrite !omap_app. destruct there; cbn [omap list_omap action_path app]; f_equal;
    f_equal; unfold dict_keys; induction functions as [|[t v] d IH]; simpl; by f_equal.
Qed.

Lemma NoDup_action_paths version (ponder_name : string) (datapack_dir : PurePath) there
    (commands : list compiled) :
  NoDup (omap action_path
           (datapack_actions version ponder_name datapack_dir there
              (group_commands commands))).
Proof.
  rewrite action_paths_datapack, dict_keys_group.
  set (function_dir := Ponder.function_dir version ponder_name datapack_dir).
  apply NoDup_cons. split.
  - rewrite meta_file_names. unfold function_dir. rewrite function_dir_names.
    intros [Hin|Hin]%elem_of_app.
    + apply list_elem_of_fmap in Hin as (t & Heq & _).
      rewrite function_file_names in Heq. cbn [root names] in Heq.
      injection Heq as Heq. rewrite <-app_assoc in Heq. by apply app_inv_head in Heq.
    + apply list_elem_of_singleton in Hin. rewrite main_function_file_names in Hin.
      cbn [root names] in Hin. injection Hin as Hin. rewrite <-app_assoc in Hin.
      by apply app_inv_head in Hin.
  - apply NoDup_app. split_and!.
    + apply NoDup_fmap_2_strong; [|apply NoDup_first_seen].
      intros t1 t2 _ _. apply function_file_inj.
    + intros p (t & -> & _)%list_elem_of_fmap Hin%list_elem_of_singleton.
      rewrite function_file_names, main_function_file_names in Hin.
      injection Hin as Hin. by apply app_inv_head in Hin.
    + apply NoDup_singleton.
Qed.

(** X7. In one run of [compile] no path is handed to [write_text] twice,
    whatever the name of the ponder, the output directory and the
    commands: [pack.mcmeta], the files of the buckets and
    [main.mcfunction] are different paths, and no file of the run
    overwrites another. *)
Theorem no_file_written_twice `{OS W}
    (compile_operations : Ponder.t → position → outcome (list compiled))
    (self : Ponder.t) (version : bool) (pos_offset : position)
    (ponder_name output_dir : string) (w : W) :
  NoDup (written_paths
           (trace_of (exec (Ponder.compile compile_operations self version pos_offset
                              ponder_name output_dir) w))).
Proof.
  pose proof (compile_runs_exec compile_operations self version pos_offset ponder_name
                output_dir w) as Hrun.
  cbv zeta in Hrun. revert Hrun.
  generalize (trace_of (exec (Ponder.compile compile_operations self version pos_offset
                                ponder_name output_dir) w))
             (outcome_of (exec (Ponder.compile compile_operations self version pos_offset
                                  ponder_name output_dir) w)).
  intros tr out Hrun.
  destruct Hrun as
    [answer Hno|e|pre e Hpre Hco|pre commands there n a e Hpre Hco Hn
    |pre commands there out ptr Hpre Hco Hpack].
  - apply NoDup_nil_2.
  - apply NoDup_nil_2.
  - rewrite (written_paths_passed _ _ _ _ _ Hpre). apply NoDup_nil_2.
  - unfold written_paths. rewrite omap_app. fold (written_paths pre).
    rewrite (written_paths_passed _ _ _ _ _ Hpre). cbn [app omap list_omap written_path].
    assert (Heq : omap written_path
                    ((performed (Returned tt)
                        <$> take n (datapack_actions version ponder_name
                                      (Ponder.datapack_dir ponder_name output_dir) there
                                      (group_commands commands)))
                     ++ [performed (Raised e) a])
                  = omap action_path
                      (take (S n) (datapack_actions version ponder_name
                                     (Ponder.datapack_dir ponder_name output_dir) there
                                     (group_commands commands)))).
    { erewrite take_S_r by done. rewrite !omap_app.
      fold (written_paths
              (performed (Returned tt)
                 <$> take n (datapack_actions version ponder_name
                               (Ponder.datapack_dir ponder_name output_dir) there
                               (group_commands commands)))).
      rewrite written_paths_performed. f_equal. by destruct a. }
    rewrite Heq. eapply sublist_NoDup; [apply NoDup_action_paths|].
    rewrite <-(take_drop (S n) (datapack_actions _ _ _ _ _)) at 2.
    rewrite omap_app. by apply sublist_inserts_r.
  - unfold written_paths. rewrite omap_app. fold (written_paths pre).
    rewrite (written_paths_passed _ _ _ _ _ Hpre). cbn [app omap list_omap written_path].
    rewrite omap_app. fold (written_paths ptr).
    rewrite (written_paths_pack _ _ _ _ _ _ Hpack).
    rewrite app_nil_r.
    fold (written_paths
            (performed (Returned tt)
               <$> datapack_actions version ponder_name
                     (Ponder.datapack_dir ponder_name output_dir) there
                     (group_commands commands))).
    rewrite written_paths_performed. apply NoDup_action_paths.
Qed.

(** ** The buckets hold the commands *)

Lemma filter_key_split (l : list compiled) (k : Z) (ks : list Z) :
  k ∉ ks →
  filter (λ c : compiled, c.1 = k) l ++ filter (λ c : compiled, c.1 ∈ ks) l
  ≡ₚ filter (λ c : compiled, c.1 ∈ k :: ks) l.
Proof.
  intros Hk. induction l as [|c l IHl]; [done|].
  destruct (decide (c.1 = k)) as [Heq|Hne].
  - rewrite filter_cons_True by done.
    rewrite (filter_cons_True (λ c : compiled, c.1 ∈ k :: ks)) by (rewrite Heq; by left).
    rewrite (filter_cons_False (λ c : compiled, c.1 ∈ ks)) by (rewrite Heq; done).
    simpl. by rewrite IHl.
  - rewrite filter_cons_False by done.
    destruct (decide (c.1 ∈ ks)) as [Hin|Hnin].
    + rewrite filter_cons_True by done.
      rewrite (filter_cons_True (λ c : compiled, c.1 ∈ k :: ks)) by by right.
      rewrite <-Permutation_middle. by rewrite IHl.
    + rewrite filter_cons_False by done.
      rewrite (filter_cons_False (λ c : compiled, c.1 ∈ k :: ks)); [done|].
      rewrite elem_of_cons. naive_solver.
Qed.

Lemma filter_by_keys (l : list compiled) (ks : list Z) :
  NoDup ks →
  mjoin ((λ t, filter (λ c : compiled, c.1 = t) l) <$> ks)
  ≡ₚ filter (λ c : compiled, c.1 ∈ ks) l.
Proof.
  induction 1 as [|k ks Hk Hks IH].
  - induction l as [|c l IHl]; [done|].
    rewrite filter_cons_False; [done|]. apply not_elem_of_nil.
  - rewrite fmap_cons. cbn [mjoin list_join]. fold (@mjoin list _ compiled).
    rewrite IH. by apply filter_key_split.
Qed.

Lemma bucket_commands_entry (t : Z) (commands : list compiled) :
  bucket_commands (t, header :: texts_at t commands)
  = filter (λ c : compiled, c.1 = t) commands.
Proof.
  unfold bucket_commands, texts_at. cbn [fst snd drop].
  induction commands as [|[k s] l IH]; [done|].
  destruct (decide (k = t)) as [->|Hne].
  - rewrite filter_cons_True by done. simpl. by f_equal.
  - by rewrite filter_cons_False by done.
Qed.

(** X8. The loop of lines 159-166 loses no command and invents none: the
    entries of the buckets after their provenance lines, each taken with
    the key of its bucket, are the compiled commands again, up to the
    order of the buckets. *)
Theorem buckets_hold_the_commands (commands : list compiled) :
  mjoin (bucket_commands <$> group_commands commands) ≡ₚ commands.
Proof.
  rewrite group_commands_entries, <-list_fmap_compose.
  erewrite list_fmap_ext; [|intros i t _; apply bucket_commands_entry].
  rewrite filter_by_keys by apply NoDup_first_seen.
  rewrite filter_all; [done|].
  apply Forall_forall. intros c Hc. apply elem_of_first_seen.
  apply list_elem_of_fmap. by exists c.
Qed.

(** ** The worlds of a run *)

Section worlds.
Context `{OS W}.
Variable compile_operations : Ponder.t → position → outcome (list compiled).
Variables (self : Ponder.t) (version : bool) (pos_offset : position).
Variables (ponder_name output_dir : string).

Lemma exec_actions (acts : list action) (w : W) :
  let r := exec (for_each perform acts) w in
  (outcome_of r, world_of r) = run_actions acts w.
Proof.
  revert w. induction acts as [|a acts IH]; intros w; cbn [for_each run_actions].
  - done.
  - rewrite exec_bind, exec_perform.
    destruct (sys_perform a w) as [[[]|e] w1]; cbn [then_run]; [|done].
    specialize (IH w1). cbv zeta in IH.
    destruct (exec (for_each perform acts) w1) as [[o w2] tr2]. exact IH.
Qed.

(** A property of the world that every action keeps holds after the
    actions. *)
Lemma run_actions_inv (I : W → Prop) (acts : list action) (w : W) :
  (∀ a w1, a ∈ acts → I w1 → I (sys_perform a w1).2) →
  I w → I (run_actions acts w).2.
Proof.
  revert w. induction acts as [|a acts IH]; intros w Hstep Hw; cbn [run_actions].
  - done.
  - pose proof (Hstep a w (list_elem_of_here _ _) Hw) as Hw1.
    destruct (sys_perform a w) as [[[]|e] w1]; [|done].
    apply IH; [|done]. intros b w2 Hb. apply Hstep. by right.
Qed.

(** An action that raises wherever the property holds is never passed. *)
Lemma run_actions_blocked (I : W → Prop) (acts : list action) (a : action) (w : W) :
  (∀ b w1, b ∈ acts → I w1 → I (sys_perform b w1).2) →
  (∀ w1, I w1 → ∃ e, (sys_perform a w1).1 = Raised e) →
  a ∈ acts → I w → ∃ e, (run_actions acts w).1 = Raised e.
Proof.
  intros Hstep Ha. revert w.
  induction acts as [|b acts IH]; intros w Hin Hw; [by apply elem_of_nil in Hin|].
  cbn [run_actions].
  pose proof (Hstep b w (list_elem_of_here _ _) Hw) as Hw1.
  destruct (sys_perform b w) as [[[]|e] w1] eqn:Hb; [|by eauto].
  apply elem_of_cons in Hin as [->|Hin].
  - destruct (Ha w Hw) as (e & He). rewrite Hb in He. done.
  - apply IH; [|done..]. intros c w2 Hc. apply Hstep. by right.
Qed.

(** Lines 138-181 by the worlds. *)
Lemma write_datapack_world (datapack_dir : PurePath) (w : W) :
  let r := exec (Ponder.write_datapack compile_operations self version pos_offset
                   ponder_name datapack_dir) w in
  match compile_operations self pos_offset with
  | Raised e => outcome_of r = Raised e ∧ world_of r = w
  | Returned commands =>
      let functions := group_commands commands in
      let acts := datapack_actions version ponder_name datapack_dir
                    (sys_path_exists datapack_dir w) functions in
      match run_actions acts w with
      | (Raised e, w1) => outcome_of r = Raised e ∧ world_of r = w1
      | (Returned _, w1) => outcome_of r = Returned (commands, functions) ∧ world_of r = w1
      end
  end.
Proof.
  intros r. unfold r. rewrite write_datapack_script, exec_bind.
  destruct (compile_operations self pos_offset) as [commands|e]; simpl; [|done].
  rewrite exec_bind.
  pose proof (exec_actions
                (datapack_actions version ponder_name datapack_dir
                   (sys_path_exists datapack_dir w) (group_commands commands)) w) as Hw.
  cbv zeta in Hw.
  destruct (exec (for_each perform _) w) as [[[[]|e] w1] tr1].
  - unfold outcome_of, world_of in Hw. cbn [fst snd] in Hw. by rewrite <-Hw.
  - unfold outcome_of, world_of in Hw. cbn [fst snd] in Hw. by rewrite <-Hw.
Qed.

(** Lines 138-190 by the worlds: the actions of lines 141-181 from the
    world at line 138, then lines 183-190 from the world they leave. *)
Lemma compile_body_world (w : W) :
  let r := exec (Ponder.compile_body compile_operations self version pos_offset
                   ponder_name output_dir) w in
  let datapack_dir := Ponder.datapack_dir ponder_name output_dir in
  match compile_operations self pos_offset with
  | Raised e => outcome_of r = Raised e ∧ world_of r = w ∧ trace_of r = []
  | Returned commands =>
      let functions := group_commands commands in
      let acts := datapack_actions version ponder_name datapack_dir
                    (sys_path_exists datapack_dir w) functions in
      match run_actions acts w with
      | (Raised e, w1) =>
          outcome_of r = Raised e ∧ world_of r = w1
          ∧ Forall (λ ev, is_shutil ev = false) (trace_of r)
      | (Returned _, w1) =>
          let p := exec (Ponder.pack_datapack ponder_name output_dir datapack_dir
                           commands functions) w1 in
          outcome_of r = outcome_of p ∧ world_of r = world_of p
          ∧ ∃ before, trace_of r = before ++ trace_of p
                      ∧ Forall (λ ev, is_shutil ev = false) before
      end
  end.
Proof.
  intros r datapack_dir. unfold r, Ponder.compile_body. fold datapack_dir.
  rewrite exec_bind.
  pose proof (write_datapack_world datapack_dir w) as Hworld. cbv zeta in Hworld.
  destruct (exec (Ponder.write_datapack _ _ _ _ _ _) w) as [[o1 w1] tr1] eqn:Hwrite.
  apply write_datapack_run in Hwrite.
  assert (Hperf : ∀ r acts, Forall (λ ev, is_shutil ev = false) (performed r <$> acts)).
  { intros r0 acts. apply Forall_fmap, Forall_forall. intros a _.
    apply performed_not_shutil. }
  unfold outcome_of, world_of, trace_of in *. cbn [fst snd] in Hworld.
  destruct (compile_operations self pos_offset) as [commands|e].
  2:{ by destruct Hwrite as (-> & -> & ->). }
  cbv zeta in Hwrite.
  destruct (run_actions _ w) as [[[]|e] w2]; destruct Hworld as [-> ->].
  - destruct Hwrite as [[_ ->]|(n & a & e & _ & ? & _)]; [|done].
    cbn [then_run]. cbv zeta.
    destruct (exec (Ponder.pack_datapack _ _ _ _ _) w2) as [[o2 w3] tr2].
    cbn [fst snd]. split_and!; [done..|]. eexists (_ :: _). split; [done|].
    constructor; [done|]. apply Hperf.
  - destruct Hwrite as [[? _]|(n & a & e' & _ & _ & ->)]; [done|].
    cbn [then_run fst snd]. split_and!; [done..|].
    constructor; [done|]. apply Forall_app. split; [apply Hperf|].
    apply Forall_singleton, performed_not_shutil.
Qed.
End worlds.

(** ** The actions of lines 141-181 on the file system in memory *)

Section posix_perform.
Implicit Types (w : Posix.world) (fs : gmap (list string) Posix.node).
Implicit Types (k q : list string) (a : action).

(** [mkdir] and [write_text] by the worlds: the tree grows, or one file
    is written. *)
Lemma posix_perform_spec a w :
  Posix.extends w (sys_perform a w).2
  ∨ ∃ p data enc,
      a = DoWrite p data enc
      ∧ Posix.resolve w p ≠ []
      ∧ (sys_perform a w).2
        = Posix.set_files w
            (<[Posix.resolve w p := Posix.File (Posix.Text data)]> (Posix.files w)).
Proof.
  destruct a as [p|p data enc]; cbn [sys_perform sys_mkdir sys_write_text Posix.os].
  - left. apply posix_mkdir_extends.
  - pose proof (write_text_spec p data enc w) as Hspec.
    destruct (Posix.write_text p data enc w) as [[u|e] w1]; cbn [snd].
    + right. destruct Hspec as [-> Hne]. by eauto 10.
    + left. rewrite Hspec. apply extends_refl.
Qed.

Lemma posix_perform_cwd a w : Posix.cwd (sys_perform a w).2 = Posix.cwd w.
Proof.
  destruct (posix_perform_spec a w) as [Hext|(p & data & enc & _ & _ & ->)]; [|done].
  by apply extends_cwd.
Qed.

(** Neither [mkdir] nor [write_text] removes an entry, and [write_text]
    changes one entry only. *)
Lemma posix_perform_keeps a w k (n : Posix.node) :
  Posix.files w !! k = Some n →
  (∀ p data enc, a = DoWrite p data enc → Posix.resolve w p ≠ k) →
  Posix.files (sys_perform a w).2 !! k = Some n.
Proof.
  intros Hk Hother.
  destruct (posix_perform_spec a w) as [[_ [Hkeep _]]|(p & data & enc & -> & _ & ->)].
  - by apply Hkeep.
  - cbn [Posix.set_files Posix.files]. rewrite lookup_insert_ne; [done|].
    by eapply Hother.
Qed.

(** What exists still exists after [mkdir] or [write_text]. *)
Lemma posix_perform_exists a w k :
  is_Some (Posix.node_at (Posix.files w) k) →
  is_Some (Posix.node_at (Posix.files (sys_perform a w).2) k).
Proof.
  intros Hk.
  destruct (posix_perform_spec a w) as [[_ Hg]|(p & data & enc & -> & _ & ->)].
  - by eapply node_at_grows.
  - cbn [Posix.set_files Posix.files]. destruct k as [|x k]; [done|].
    cbn [Posix.node_at] in *.
    destruct (decide (Posix.resolve w p = x :: k)) as [->|Hne];
      [by rewrite lookup_insert_eq|by rewrite lookup_insert_ne].
Qed.

(** The world at line 138 has the files and the working directory of
    the world at line 125. *)
Lemma posix_prompt_world w :
  ∀ lv m, Posix.files (Posix.log lv m w) = Posix.files w
          ∧ Posix.cwd (Posix.log lv m w) = Posix.cwd w.
Proof. done. Qed.

Lemma posix_input_world w :
  Posix.files (Posix.input w).2 = Posix.files w
  ∧ Posix.cwd (Posix.input w).2 = Posix.cwd w.
Proof. unfold Posix.input. by destruct (Posix.stdin w). Qed.
End posix_perform.

(** ** Runs on the file system in memory, by the worlds *)

Section posix_runs.
Variable compile_operations : Ponder.t → position → outcome (list compiled).
Variables (self : Ponder.t) (version : bool) (pos_offset : position).
Variables (ponder_name output_dir : string).

(** A run is cancelled, or ends at [input()], or goes on to line 138 in a
    world with the same files and the same working directory. *)
Lemma posix_compile_cases (w : Posix.world) :
  let r := exec (Ponder.compile compile_operations self version pos_offset ponder_name
                   output_dir) w in
  (outcome_of r = Returned None ∧ EvLog Info MsgCancelled ∈ trace_of r
   ∧ Posix.files (world_of r) = Posix.files w ∧ Posix.cwd (world_of r) = Posix.cwd w
   ∧ Forall (λ ev, is_shutil ev = false) (trace_of r))
  ∨ (∃ e, outcome_of r = Raised e
          ∧ Posix.files (world_of r) = Posix.files w
          ∧ Posix.cwd (world_of r) = Posix.cwd w
          ∧ (EvLog Info MsgCancelled ∉ trace_of r)
          ∧ Forall (λ ev, is_shutil ev = false) (trace_of r))
  ∨ (∃ w1 pre,
       let body := exec (Ponder.compile_body compile_operations self version pos_offset
                           ponder_name output_dir) w1 in
       Posix.files w1 = Posix.files w ∧ Posix.cwd w1 = Posix.cwd w
       ∧ passed_prompt version pos_offset ponder_name output_dir pre
       ∧ outcome_of r = outcome_of body ∧ world_of r = world_of body
       ∧ trace_of r = pre ++ trace_of body).
Proof.
  intros r. unfold r. rewrite exec_compile.
  cbn [sys_log sys_input sys_os_path_exists Posix.os].
  set (w0 := Posix.log Debug _ (Posix.log Info MsgCompiling w)).
  destruct (Posix.os_path_exists _ w0).
  - pose proof (posix_input_world (Posix.log Warning (MsgArchiveExists ponder_name) w0))
      as [Hfiles Hcwd].
    destruct (Posix.input _) as [[answer|e] w1]; cbn [snd] in Hfiles, Hcwd.
    + destruct (decide (lower answer ≠ "y")) as [Hno|Hyes].
      * left. unfold outcome_of, world_of, trace_of. cbn [fst snd].
        split_and!; [done| |done..|].
        -- rewrite elem_of_app, !elem_of_cons. auto.
        -- repeat constructor.
      * right. right. exists w1, (asked version pos_offset ponder_name output_dir true
                                    ++ [EvInput (Returned answer)]).
        cbv zeta. destruct (exec _ w1) as [[o w2] tr].
        unfold outcome_of, world_of, trace_of. cbn [preceded fst snd].
        split_and!; [done..| |done|done|done].
        constructor. by apply dec_stable.
    + right. left. exists e. unfold outcome_of, world_of, trace_of. cbn [fst snd].
      split_and!; [done..| |repeat constructor].
      unfold asked. cbn [app]. rewrite !not_elem_of_cons.
      split_and!; try discriminate. apply not_elem_of_nil.
  - right. right. exists w0, (asked version pos_offset ponder_name output_dir false).
    cbv zeta. destruct (exec _ w0) as [[o w2] tr].
    unfold outcome_of, world_of, trace_of. cbn [preceded fst snd].
    split_and!; [done..|constructor|done|done|done].
Qed.
End posix_runs.

(** X9. On the file system in memory: when the directory
    [data/{ponder_name}/function] (or [functions]) of the pack is already
    there, for instance left by a run whose archive could not be written,
    [compile] cannot succeed. Unless the operator cancels, it raises, it
    makes no archive and removes nothing, and the directory is still there
    afterwards: line 157 calls [mkdir] without [exist_ok]. *)
Theorem leftover_tree_blocks_compile
    (compile_operations : Ponder.t → position → outcome (list compiled))
    (self : Ponder.t) (version : bool) (pos_offset : position)
    (ponder_name output_dir : string) (w : Posix.world) :
  let function_dir := Ponder.function_dir version ponder_name
                        (Ponder.datapack_dir ponder_name output_dir) in
  is_Some (Posix.node_at (Posix.files w) (Posix.resolve w function_dir)) →
  let r := exec (Ponder.compile compile_operations self version pos_offset ponder_name
                   output_dir) w in
  (EvLog Info MsgCancelled ∈ trace_of r ∨ ∃ e, outcome_of r = Raised e)
  ∧ Forall (λ ev, is_shutil ev = false) (trace_of r)
  ∧ is_Some (Posix.node_at (Posix.files (world_of r))
               (Posix.resolve (world_of r) function_dir)).
Proof.
  intros function_dir Hthere r.
  destruct (posix_compile_cases compile_operations self version pos_offset ponder_name
              output_dir w)
    as [(Hout & Hcancel & Hfiles & Hcwd & Hshutil)
       |[(e & Hout & Hfiles & Hcwd & _ & Hshutil)
        |(w1 & pre & Hfiles & Hcwd & Hpre & Hout & Hworld & Htrace)]];
    fold r in Hout, Hfiles, Hcwd.
  - split_and!; [by left|done|].
    by rewrite (posix_resolve_cwd w _ _ Hcwd), Hfiles.
  - split_and!; [right; by exists e|done|].
    by rewrite (posix_resolve_cwd w _ _ Hcwd), Hfiles.
  - fold r in Hworld, Htrace. rewrite Hout, Hworld, Htrace. clear Hout Hworld Htrace.
    pose proof (compile_body_world compile_operations self version pos_offset ponder_name
                  output_dir w1) as Hbody.
    cbv zeta in Hbody.
    destruct (exec (Ponder.compile_body _ _ _ _ _ _) w1) as [[out w2] tr].
    unfold outcome_of, world_of, trace_of in *. cbn [fst snd] in *.
    pose proof (passed_not_shutil _ _ _ _ _ Hpre) as Hpass.
    set (k := Posix.resolve w function_dir) in *.
    destruct (compile_operations self pos_offset) as [commands|e].
    2:{ destruct Hbody as (-> & -> & ->). split_and!.
        - right. by exists e.
        - by rewrite app_nil_r.
        - by rewrite (posix_resolve_cwd w _ _ Hcwd), Hfiles. }
    set (acts := datapack_actions version ponder_name
                   (Ponder.datapack_dir ponder_name output_dir)
                   (sys_path_exists (Ponder.datapack_dir ponder_name output_dir) w1)
                   (group_commands commands)) in *.
    set (I := λ w' : Posix.world,
           Posix.cwd w' = Posix.cwd w ∧ is_Some (Posix.node_at (Posix.files w') k)).
    assert (Hstep : ∀ b w', b ∈ acts → I w' → I (sys_perform b w').2).
    { intros b w' _ [Hc Hk]. split.
      - by rewrite posix_perform_cwd.
      - by apply posix_perform_exists. }
    assert (Hstart : I w1) by (split; [done|by rewrite Hfiles]).
    assert (Hblocked : ∃ e, (run_actions acts w1).1 = Raised e).
    { apply (run_actions_blocked I acts (DoMkdir function_dir)); [done| | |done].
      - intros w' [Hc Hk]. cbn [sys_perform sys_mkdir Posix.os].
        apply posix_mkdir_exists. by rewrite (posix_resolve_cwd w _ _ Hc).
      - unfold acts, datapack_actions. fold function_dir.
        rewrite elem_of_app. right. rewrite elem_of_app. left.
        rewrite !elem_of_cons. auto. }
    pose proof (run_actions_inv I acts w1 Hstep Hstart) as [Hc Hk].
    destruct (run_actions acts w1) as [[[]|e] w3]; destruct Hblocked as (e' & He');
      [done|]. cbn [fst snd] in *.
    destruct Hbody as (-> & -> & Hshutil). split_and!.
    + right. by exists e.
    + by apply Forall_app.
    + by rewrite (posix_resolve_cwd w _ _ Hc).
Qed.

Lemma leftover_tree_blocks_compile_witness :
  let r := exec (Ponder.compile (fixed_commands stone_commands) empty_ponder true
                   (0, 0, 0) "ponders" ".") after_failed_archive in
  (EvLog Info MsgCancelled ∈ trace_of r ∨ ∃ e, outcome_of r = Raised e)
  ∧ Forall (λ ev, is_shutil ev = false) (trace_of r)
  ∧ is_Some (Posix.node_at (Posix.files (world_of r))
               (Posix.resolve (world_of r)
                  (Ponder.function_dir true "ponders"
                     (Ponder.datapack_dir "ponders" ".")))).
Proof.
  apply (leftover_tree_blocks_compile (fixed_commands stone_commands) empty_ponder true
           (0, 0, 0) "ponders" "." after_failed_archive).
  vm_compute. eauto.
Defined.

(** The retry after a failed archive ends at line 157. *)
Example retry_after_failed_archive :
  let r := exec (Ponder.compile (fixed_commands stone_commands) empty_ponder true
                   (0, 0, 0) "ponders" ".") after_failed_archive in
  outcome_of r = Raised FileExistsError
  ∧ last (trace_of r)
    = Some (EvMkdir (Ponder.function_dir true "ponders"
                       (Ponder.datapack_dir "ponders" "."))
              (Raised FileExistsError)).
Proof. split; vm_compute; reflexivity. Qed.

(** ** The files of the pack on the file system in memory *)

Section pack_files.
Variables (version : bool) (ponder_name output_dir : string).
Hypothesis Hplain : plain_name ponder_name.

Abbreviation pack_dir := (Ponder.datapack_dir ponder_name output_dir).
Abbreviation pack_function_dir := (Ponder.function_dir version ponder_name pack_dir).

Lemma walk_plain (start l ns : list string) :
  Forall (λ n, n ≠ "..") ns → Posix.walk start (l ++ ns) = Posix.walk start l ++ ns.
Proof.
  induction ns as [|n ns IH] using rev_ind; intros Hns.
  - by rewrite !app_nil_r.
  - apply Forall_app in Hns as [Hns Hn]. rewrite Forall_singleton in Hn.
    by rewrite !app_assoc, walk_snoc, IH.
Qed.

(** A path made of the directory of the pack and names without [..]
    lies below it. *)
Lemma resolve_below (w : Posix.world) (dir : PurePath) (ns : list string) :
  Forall (λ n, n ≠ "..") ns →
  Posix.resolve w {| root := root dir; names := names dir ++ ns |}
  = Posix.resolve w dir ++ ns.
Proof. intros Hns. unfold Posix.resolve. cbn [root names]. by apply walk_plain. Qed.

Lemma meta_file_member :
  Ponder.meta_file pack_dir
  = {| root := root pack_dir; names := names pack_dir ++ meta_member |}.
Proof. apply meta_file_names. Qed.

Lemma function_file_member (t : Z) :
  Ponder.function_file pack_function_dir t
  = {| root := root pack_dir;
       names := names pack_dir ++ function_member version ponder_name t |}.
Proof.
  rewrite function_file_names, function_dir_names. cbn [root names].
  destruct Hplain as (Hslash & Hne & Hdot & _).
  rewrite path_names_plain by done. by rewrite <-!app_assoc.
Qed.

Lemma main_function_file_member :
  Ponder.main_function_file pack_function_dir
  = {| root := root pack_dir; names := names pack_dir ++ main_member version ponder_name |}.
Proof.
  rewrite main_function_file_names, function_dir_names. cbn [root names].
  destruct Hplain as (Hslash & Hne & Hdot & _).
  rewrite path_names_plain by done. by rewrite <-!app_assoc.
Qed.

Lemma function_dir_name_plain : function_dir_name version ≠ "..".
Proof. by destruct version. Qed.

Lemma meta_member_plain : Forall (λ n, n ≠ "..") meta_member.
Proof. by repeat constructor. Qed.

Lemma function_member_plain (t : Z) :
  Forall (λ n, n ≠ "..") (function_member version ponder_name t).
Proof.
  destruct Hplain as (_ & _ & _ & Hparent).
  repeat constructor; [done..|apply function_dir_name_plain|done].
Qed.

Lemma main_member_plain : Forall (λ n, n ≠ "..") (main_member version ponder_name).
Proof.
  destruct Hplain as (_ & _ & _ & Hparent).
  repeat constructor; [done..|apply function_dir_name_plain|done].
Qed.

(** Every file of lines 152-181 lies below the directory of the pack. *)
Lemma write_below (w : Posix.world) there (commands : list compiled) p data enc :
  DoWrite p data enc
    ∈ datapack_actions version ponder_name pack_dir there (group_commands commands) →
  ∃ ns, ns ≠ [] ∧ root p = root pack_dir ∧ names p = names pack_dir ++ ns
        ∧ Posix.resolve w p = Posix.resolve w pack_dir ++ ns.
Proof.
  intros Hin. apply write_actions in Hin
    as [(-> & _)|[(t & _ & -> & _)|(-> & _)]].
  - exists meta_member. rewrite meta_file_member.
    split_and!; [done..|apply resolve_below, meta_member_plain].
  - exists (function_member version ponder_name t). rewrite function_file_member.
    split_and!; [done..|apply resolve_below, function_member_plain].
  - exists (main_member version ponder_name). rewrite main_function_file_member.
    split_and!; [done..|apply resolve_below, main_member_plain].
Qed.
End pack_files.

Section posix_shutil.
Implicit Types (w : Posix.world) (k : list string) (n : Posix.node).

Lemma posix_make_archive_cwd (base_name root_dir : PurePath) w :
  Posix.cwd (Posix.make_archive base_name "zip" root_dir w).2 = Posix.cwd w.
Proof.
  destruct (make_archive_spec base_name root_dir w) as (w0 & Hext & Hspec).
  destruct (Posix.make_archive _ _ _ w) as [[s|e] w1]; cbn [snd].
  - by destruct Hspec as [-> _].
  - rewrite Hspec. by apply extends_cwd.
Qed.

Lemma posix_make_archive_keeps (base_name root_dir : PurePath) w k n :
  Posix.files w !! k = Some n →
  k ≠ Posix.resolve w (Posix.archive_path base_name) →
  Posix.files (Posix.make_archive base_name "zip" root_dir w).2 !! k = Some n.
Proof.
  intros Hk Hne.
  destruct (make_archive_spec base_name root_dir w) as (w0 & [_ [Hkeep _]] & Hspec).
  destruct (Posix.make_archive _ _ _ w) as [[s|e] w1]; cbn [snd].
  - destruct Hspec as [-> _]. cbn [Posix.set_files Posix.files].
    rewrite lookup_insert_ne by done. by apply Hkeep.
  - rewrite Hspec. by apply Hkeep.
Qed.

Lemma posix_rmtree_cwd (p : PurePath) w : Posix.cwd (Posix.rmtree p w).2 = Posix.cwd w.
Proof.
  pose proof (rmtree_spec p w) as Hspec.
  destruct (Posix.rmtree p w) as [[u|e] w1]; cbn [snd].
  - by destruct Hspec as [-> _].
  - by destruct Hspec as [->| ->].
Qed.

Lemma posix_rmtree_keeps (p : PurePath) w k n :
  Posix.files w !! k = Some n →
  ¬ Posix.resolve w p `prefix_of` k →
  Posix.files (Posix.rmtree p w).2 !! k = Some n.
Proof.
  intros Hk Hout. pose proof (rmtree_spec p w) as Hspec.
  destruct (Posix.rmtree p w) as [[u|e] w1]; cbn [snd].
  - destruct Hspec as [-> _]. by apply map_lookup_filter_Some.
  - destruct Hspec as [->| ->]; [done|]. apply map_lookup_filter_Some.
    split; [done|]. cbn [fst]. by intros [? _].
Qed.
End posix_shutil.

(** X10. On the file system in memory, for a plain [ponder_name]: a run
    of [compile], however it ends, changes and removes nothing outside
    the directory of the pack except the archive. Every file or directory
    that was elsewhere is there afterwards as it was, and the working
    directory is the same. *)
Theorem compile_touches_only_the_pack
    (compile_operations : Ponder.t → position → outcome (list compiled))
    (self : Ponder.t) (version : bool) (pos_offset : position)
    (ponder_name output_dir : string) (w : Posix.world)
    (k : list string) (n : Posix.node) :
  let datapack_dir := Ponder.datapack_dir ponder_name output_dir in
  plain_name ponder_name →
  Posix.files w !! k = Some n →
  ¬ Posix.resolve w datapack_dir `prefix_of` k →
  k ≠ Posix.resolve w (Posix.archive_path datapack_dir) →
  let r := exec (Ponder.compile compile_operations self version pos_offset ponder_name
                   output_dir) w in
  Posix.files (world_of r) !! k = Some n ∧ Posix.cwd (world_of r) = Posix.cwd w.
Proof.
  intros datapack_dir Hplain Hk Hout Hne r.
  set (I := λ w' : Posix.world,
         Posix.files w' !! k = Some n ∧ Posix.cwd w' = Posix.cwd w).
  change (I (world_of r)).
  destruct (posix_compile_cases compile_operations self version pos_offset ponder_name
              output_dir w)
    as [(_ & _ & Hfiles & Hcwd & _)
       |[(e & _ & Hfiles & Hcwd & _)
        |(w1 & pre & Hfiles & Hcwd & _ & _ & Hworld & _)]];
    fold r in Hfiles, Hcwd.
  - split; [by rewrite Hfiles|done].
  - split; [by rewrite Hfiles|done].
  - fold r in Hworld. rewrite Hworld. clear Hworld.
    assert (Hw1 : I w1) by (split; [by rewrite Hfiles|done]).
    pose proof (compile_body_world compile_operations self version pos_offset ponder_name
                  output_dir w1) as Hbody.
    cbv zeta in Hbody. fold datapack_dir in Hbody.
    destruct (exec (Ponder.compile_body _ _ _ _ _ _) w1) as [[out w'] tr].
    unfold outcome_of, world_of, trace_of in Hbody |- *. cbn [fst snd] in Hbody |- *.
    destruct (compile_operations self pos_offset) as [commands|e].
    2:{ by destruct Hbody as (_ & -> & _). }
    set (acts := datapack_actions version ponder_name datapack_dir
                   (sys_path_exists datapack_dir w1) (group_commands commands)) in *.
    assert (Hw2 : I (run_actions acts w1).2).
    { apply run_actions_inv; [|done]. intros a w2 Ha [Hk2 Hc2]. split.
      - apply posix_perform_keeps; [done|]. intros p data enc -> Heq.
        apply (write_below version ponder_name output_dir Hplain w2) in Ha
          as (ns & _ & _ & _ & Hp).
        apply Hout. rewrite <-Heq, Hp.
        rewrite (posix_resolve_cwd w w2 _ Hc2). by apply prefix_app_r.
      - by rewrite posix_perform_cwd. }
    destruct (run_actions acts w1) as [[[]|e] w2]; cbn [snd] in Hw2.
    2:{ by destruct Hbody as (_ & -> & _). }
    destruct Hbody as (_ & -> & _). clear Hw1 Hfiles Hcwd.
    rewrite exec_pack_datapack. cbn [sys_make_archive sys_rmtree sys_log Posix.os].
    destruct Hw2 as [Hk2 Hc2].
    pose proof (posix_make_archive_keeps datapack_dir datapack_dir w2 k n Hk2) as Hk3.
    rewrite (posix_resolve_cwd w w2 _ Hc2) in Hk3. specialize (Hk3 Hne).
    pose proof (posix_make_archive_cwd datapack_dir datapack_dir w2) as Hc3.
    destruct (Posix.make_archive _ _ _ w2) as [[s|e] w3]; cbn [fst snd] in *.
    2:{ split; [done|congruence]. }
    pose proof (posix_rmtree_keeps datapack_dir w3 k n Hk3) as Hk4.
    rewrite (posix_resolve_cwd w w3) in Hk4 by congruence. specialize (Hk4 Hout).
    pose proof (posix_rmtree_cwd datapack_dir w3) as Hc4.
    destruct (Posix.rmtree _ w3) as [[u|e] w4]; cbn [fst snd] in *.
    2:{ split; [done|congruence]. }
    destruct (max_of _); cbn [fst snd]; (split; [done|]); simpl; congruence.
Qed.

Lemma compile_touches_only_the_pack_witness :
  let r := exec (Ponder.compile (fixed_commands stone_commands) empty_ponder true
                   (0, 0, 0) "ponders" ".") Posix.fresh in
  Posix.files (world_of r) !! ["home"] = Some Posix.Dir
  ∧ Posix.cwd (world_of r) = Posix.cwd Posix.fresh.
Proof.
  apply (compile_touches_only_the_pack (fixed_commands stone_commands) empty_ponder true
           (0, 0, 0) "ponders" "." Posix.fresh ["home"] Posix.Dir).
  - by split_and!.
  - reflexivity.
  - vm_compute. intros [rest Hrest]. discriminate Hrest.
  - vm_compute. discriminate.
Defined.

(** ** What the archive holds *)

Section posix_writes.
Implicit Types (w : Posix.world) (k : list string) (a : action).

Lemma posix_write_text_returned (p : PurePath) (data : string) enc w w1 (u : unit) :
  Posix.write_text p data enc w = (Returned u, w1) →
  Posix.files w1 = <[Posix.resolve w p := Posix.File (Posix.Text data)]> (Posix.files w).
Proof.
  intros Hrun. pose proof (write_text_spec p data enc w) as Hspec.
  rewrite Hrun in Hspec. by destruct Hspec as [-> _].
Qed.

(** An entry that no later write names is there after the actions. *)
Lemma run_actions_keeps (acts : list action) w k (n : Posix.node) :
  Posix.files w !! k = Some n →
  (∀ p data enc, DoWrite p data enc ∈ acts → Posix.resolve w p ≠ k) →
  Posix.files (run_actions acts w).2 !! k = Some n
  ∧ Posix.cwd (run_actions acts w).2 = Posix.cwd w.
Proof.
  intros Hk Hother.
  apply (run_actions_inv
           (λ w', Posix.files w' !! k = Some n ∧ Posix.cwd w' = Posix.cwd w)); [|done].
  intros a w1 Ha [Hk1 Hc1]. split.
  - apply posix_perform_keeps; [done|]. intros p data enc ->.
    rewrite (posix_resolve_cwd w w1 _ Hc1). by eapply Hother.
  - by rewrite posix_perform_cwd.
Qed.

(** When the actions all return and no two writes go to one file, every
    file written holds its text afterwards. *)
Lemma run_actions_written (w0 : Posix.world) (acts : list action) w w2
    (p : PurePath) (data : string) enc :
  Posix.cwd w = Posix.cwd w0 →
  NoDup (Posix.resolve w0 <$> omap action_path acts) →
  run_actions acts w = (Returned tt, w2) →
  DoWrite p data enc ∈ acts →
  Posix.files w2 !! Posix.resolve w0 p = Some (Posix.File (Posix.Text data)).
Proof.
  revert w. induction acts as [|a acts IH]; intros w Hcwd Hnd Hrun Hin;
    [by apply elem_of_nil in Hin|].
  cbn [run_actions] in Hrun.
  pose proof (posix_perform_cwd a w) as Hc1.
  destruct (sys_perform a w) as [[[]|e] w1] eqn:Ha; [|done]. cbn [snd] in Hc1.
  apply elem_of_cons in Hin as [<-|Hin].
  - cbn [omap list_omap action_path fmap list_fmap] in Hnd.
    apply NoDup_cons in Hnd as [Hfirst _].
    cbn [sys_perform sys_write_text Posix.os] in Ha.
    apply posix_write_text_returned in Ha.
    rewrite (posix_resolve_cwd w0 w _ Hcwd) in Ha.
    destruct (run_actions_keeps acts w1 (Posix.resolve w0 p)
                (Posix.File (Posix.Text data))) as [Hk _].
    + rewrite Ha. apply lookup_insert_eq.
    + intros p' data' enc' Hin' Heq. apply Hfirst.
      rewrite (posix_resolve_cwd w0 w1) in Heq by congruence. rewrite <-Heq.
      apply list_elem_of_fmap. exists p'. split; [done|].
      apply list_elem_of_omap. by exists (DoWrite p' data' enc').
    + by rewrite Hrun in Hk.
  - apply (IH w1); [congruence| |done..].
    destruct a as [q|q d c]; cbn [omap list_omap action_path fmap list_fmap] in Hnd;
      [done|]. by apply NoDup_cons in Hnd as [_ Hnd].
Qed.

(** A file below a directory is a member of its snapshot. *)
Lemma elem_of_snapshot (fs : gmap (list string) Posix.node) (r ns : list string)
    (c : Posix.content) :
  ns ≠ [] → fs !! (r ++ ns) = Some (Posix.File c) →
  (ns, Some c) ∈ Posix.snapshot fs r.
Proof.
  intros Hns Hfile. unfold Posix.snapshot. apply list_elem_of_fmap.
  exists (r ++ ns, Posix.File c). cbn [fst snd]. split.
  - by rewrite drop_app_length.
  - apply elem_of_map_to_list, map_lookup_filter_Some. split; [done|].
    cbn [fst]. split; [by apply prefix_app_r|].
    intros Heq. apply Hns. apply (app_inv_head r). by rewrite app_nil_r.
Qed.
End posix_writes.

Lemma not_shutil_rmtree (l : list event) (p : PurePath) res :
  Forall (λ ev, is_shutil ev = false) l → EvRmtree p res ∉ l.
Proof. intros Hl Hin. by apply (proj1 (Forall_forall _ _) Hl) in Hin. Qed.

(** A run that has seen [shutil.rmtree] return, by the worlds: [w1] at
    line 138, [w2] after line 181, the tree [fs0] when the archive is
    opened. *)
Lemma posix_packed_run
    (compile_operations : Ponder.t → position → outcome (list compiled))
    (self : Ponder.t) (version : bool) (pos_offset : position)
    (ponder_name output_dir : string) (w : Posix.world) :
  let datapack_dir := Ponder.datapack_dir ponder_name output_dir in
  let dir := Posix.resolve w datapack_dir in
  let target := Posix.resolve w (Posix.archive_path datapack_dir) in
  let r := exec (Ponder.compile compile_operations self version pos_offset ponder_name
                   output_dir) w in
  EvRmtree datapack_dir (Returned tt) ∈ trace_of r →
  ∃ commands w1 w2 fs0,
    compile_operations self pos_offset = Returned commands
    ∧ Posix.files w1 = Posix.files w ∧ Posix.cwd w1 = Posix.cwd w
    ∧ Posix.cwd w2 = Posix.cwd w
    ∧ run_actions (datapack_actions version ponder_name datapack_dir
                     (sys_path_exists datapack_dir w1) (group_commands commands)) w1
      = (Returned tt, w2)
    ∧ Posix.cwd (world_of r) = Posix.cwd w
    ∧ Posix.grows (Posix.files w2) fs0
    ∧ fs0 !! dir = Some Posix.Dir
    ∧ dir ≠ target
    ∧ Posix.files (world_of r)
      = filter (λ kv, ¬ dir `prefix_of` kv.1)
          (<[target := Posix.File
                         (Posix.Zip
                            (Posix.snapshot
                               (<[target := Posix.File (Posix.Zip [])]> fs0) dir))]>
             fs0)
    ∧ Posix.locate fs0
        (if decide (root (Posix.archive_path datapack_dir) = "") then Posix.cwd w else [])
        (names (Posix.archive_path datapack_dir))
      = Returned (Posix.Entry target).
Proof.
  intros datapack_dir dir target r Hrm.
  destruct (posix_compile_cases compile_operations self version pos_offset ponder_name
              output_dir w)
    as [(_ & _ & _ & _ & Hshutil)
       |[(e & _ & _ & _ & _ & Hshutil)
        |(w1 & pre & Hfiles & Hcwd & Hpre & _ & Hworld & Htrace)]];
    [fold r in Hshutil; by apply not_shutil_rmtree in Hrm..|].
  fold r in Hworld, Htrace. rewrite Hworld. rewrite Htrace in Hrm. clear Hworld Htrace.
  apply elem_of_app in Hrm as [Hrm|Hrm].
  { exfalso. revert Hrm. by eapply not_shutil_rmtree, passed_not_shutil. }
  pose proof (compile_body_world compile_operations self version pos_offset ponder_name
                output_dir w1) as Hbody.
  cbv zeta in Hbody. fold datapack_dir in Hbody.
  destruct (exec (Ponder.compile_body _ _ _ _ _ _) w1) as [[out w'] tr].
  unfold outcome_of, world_of, trace_of in Hbody, Hrm |- *.
  cbn [fst snd] in Hbody, Hrm |- *.
  destruct (compile_operations self pos_offset) as [commands|e].
  2:{ destruct Hbody as (_ & _ & ->). by apply elem_of_nil in Hrm. }
  set (acts := datapack_actions version ponder_name datapack_dir
                 (sys_path_exists datapack_dir w1) (group_commands commands)) in *.
  pose proof (run_actions_inv (λ w', Posix.cwd w' = Posix.cwd w) acts w1) as Hcwd2.
  destruct (run_actions acts w1) as [[[]|e] w2] eqn:Hrun.
  2:{ destruct Hbody as (_ & _ & Hshutil). by apply not_shutil_rmtree in Hrm. }
  cbn [snd] in Hcwd2.
  assert (Hc2 : Posix.cwd w2 = Posix.cwd w).
  { apply Hcwd2; [|done]. intros a w3 _ Hc. by rewrite posix_perform_cwd. }
  clear Hcwd2.
  destruct Hbody as (_ & -> & before & -> & Hbefore).
  apply elem_of_app in Hrm as [Hrm|Hrm]; [by apply not_shutil_rmtree in Hrm|].
  revert Hrm. rewrite exec_pack_datapack.
  cbn [sys_make_archive sys_rmtree sys_log Posix.os].
  destruct (make_archive_spec datapack_dir datapack_dir w2) as (w0 & Hext & Hw3).
  destruct (Posix.make_archive _ _ _ w2) as [[s|e] w3]; cbn [fst snd] in *.
  2:{ intros Hin. apply list_elem_of_singleton in Hin. done. }
  cbv zeta in Hw3. rewrite !(posix_resolve_cwd w w2) in Hw3 by done.
  fold dir target in Hw3. destruct Hw3 as (Hw3 & _ & Hfind).
  pose proof (rmtree_spec datapack_dir w3) as Hw4. cbv zeta in Hw4.
  rewrite (posix_resolve_cwd w w3) in Hw4 by (by rewrite Hw3). fold dir in Hw4.
  destruct (Posix.rmtree _ w3) as [[u|e] w4]; cbn [fst snd] in *.
  2:{ rewrite !elem_of_cons, elem_of_nil. naive_solver. }
  intros _. destruct Hw4 as (Hw4 & Hdir & _).
  rewrite Hw3 in Hdir. cbn [Posix.set_files Posix.files] in Hdir.
  assert (Hne : dir ≠ target).
  { intros Heq. rewrite Heq, lookup_insert_eq in Hdir. done. }
  rewrite lookup_insert_ne in Hdir by done.
  assert (Hopened : Posix.node_at (<[target := Posix.File (Posix.Zip [])]>
                                     (Posix.files w0)) dir = Some Posix.Dir).
  { destruct dir as [|x dir']; [done|]. cbn [Posix.node_at].
    by rewrite lookup_insert_ne. }
  rewrite Hopened in Hw3.
  exists commands, w1, w2, (Posix.files w0). do 5 (split; [done|]).
  assert (Hfinal : Posix.cwd w4 = Posix.cwd w ∧ Posix.files w4
                   = filter (λ kv, ¬ dir `prefix_of` kv.1)
                       (<[target := Posix.File
                                      (Posix.Zip
                                         (Posix.snapshot
                                            (<[target := Posix.File (Posix.Zip [])]>
                                               (Posix.files w0)) dir))]>
                          (Posix.files w0))).
  { rewrite Hw4, Hw3. done. }
  assert (Hlocate : Posix.locate (Posix.files w0)
                      (if decide (root (Posix.archive_path datapack_dir) = "")
                       then Posix.cwd w else [])
                      (names (Posix.archive_path datapack_dir))
                    = Returned (Posix.Entry target)).
  { unfold Posix.find, Posix.find_as in Hfind.
    destruct (Posix.refused _); [done|].
    by rewrite (extends_cwd _ _ Hext), Hc2 in Hfind. }
  destruct Hext as [_ Hgrows].
  destruct (max_of _); cbn [fst snd Posix.log Posix.files Posix.cwd];
    by destruct Hfinal.
Qed.

(** What is below the directory of the pack after line 181 is still there
    in the tree with the archive opened. *)
Lemma opened_keeps (fs fs0 : gmap (list string) Posix.node) (dir target ns : list string)
    (n m : Posix.node) :
  Posix.grows fs fs0 → ¬ dir `prefix_of` target →
  fs !! (dir ++ ns) = Some n →
  <[target := m]> fs0 !! (dir ++ ns) = Some n.
Proof.
  intros [Hkept _] Hout Hfile. rewrite lookup_insert_ne; [by apply Hkept|].
  intros ->. apply Hout. by apply prefix_app_r.
Qed.

(** X11. On the file system in memory, for a plain [ponder_name]: once
    [shutil.rmtree] has returned, the archive
    [{output_dir}/{ponder_name}.zip] holds [pack.mcmeta] with the JSON
    text, one file [data/{ponder_name}/function/_{time}.mcfunction] for
    every time of the commands, with the provenance line and the commands
    of that time, and [main.mcfunction] with the provenance line and the
    scheduling directives. *)
Theorem archive_holds_the_pack
    (compile_operations : Ponder.t → position → outcome (list compiled))
    (self : Ponder.t) (version : bool) (pos_offset : position)
    (ponder_name output_dir : string) (w : Posix.world) :
  let datapack_dir := Ponder.datapack_dir ponder_name output_dir in
  plain_name ponder_name →
  let r := exec (Ponder.compile compile_operations self version pos_offset ponder_name
                   output_dir) w in
  EvRmtree datapack_dir (Returned tt) ∈ trace_of r →
  ∃ commands members,
    compile_operations self pos_offset = Returned commands
    ∧ Posix.files (world_of r) !! Posix.resolve w (Posix.archive_path datapack_dir)
      = Some (Posix.File (Posix.Zip members))
    ∧ (meta_member, Some (Posix.Text pack_mcmeta_text)) ∈ members
    ∧ (∀ t, t ∈ commands.*1 →
         (function_member version ponder_name t,
          Some (Posix.Text (join newline (header :: texts_at t commands)))) ∈ members)
    ∧ (main_member version ponder_name,
       Some (Posix.Text
               (join newline
                  (header :: (schedule_line ponder_name <$> first_seen commands.*1)))))
      ∈ members.
Proof.
  intros datapack_dir Hplain r Hrm.
  destruct (posix_packed_run compile_operations self version pos_offset ponder_name
              output_dir w Hrm)
    as (commands & w1 & w2 & fs0 & Hco & Hfiles & Hcwd & Hc2 & Hrun & _ & Hgrows & _ & _
        & Hfinal & _).
  fold r datapack_dir in Hfinal.
  set (acts := datapack_actions version ponder_name datapack_dir
                 (sys_path_exists datapack_dir w1) (group_commands commands)) in *.
  set (dir := Posix.resolve w datapack_dir) in *.
  set (target := Posix.resolve w (Posix.archive_path datapack_dir)) in *.
  assert (Hout : ¬ dir `prefix_of` target) by by apply archive_outside_tree.
  assert (Hwritten : ∀ p data enc ns,
    DoWrite p data enc ∈ acts →
    p = {| root := root datapack_dir; names := names datapack_dir ++ ns |} →
    Forall (λ n, n ≠ "..") ns →
    Posix.files w2 !! (dir ++ ns) = Some (Posix.File (Posix.Text data))).
  { intros p data enc ns Hin Hp Hns. unfold dir.
    rewrite <-resolve_below, <-Hp by done.
    apply (run_actions_written w acts w1 w2 p data enc); [done| |done..].
    apply NoDup_fmap_2_strong; [|apply NoDup_action_paths].
    intros p1 p2 (a1 & Ha1 & Hp1)%list_elem_of_omap (a2 & Ha2 & Hp2)%list_elem_of_omap.
    destruct a1 as [?|q1 d1 c1], a2 as [?|q2 d2 c2]; simplify_eq/=.
    apply (write_below version ponder_name output_dir Hplain w) in Ha1
      as (ns1 & _ & Hr1 & Hn1 & ->).
    apply (write_below version ponder_name output_dir Hplain w) in Ha2
      as (ns2 & _ & Hr2 & Hn2 & ->).
    intros Heq%app_inv_head. destruct p1, p2; simplify_eq/=. done. }
  exists commands,
    (Posix.snapshot (<[target := Posix.File (Posix.Zip [])]> fs0) dir).
  destruct (datapack_actions_writes version ponder_name datapack_dir
              (sys_path_exists datapack_dir w1) commands) as (Hmeta & Hfun & Hmain).
  fold acts in Hmeta, Hfun, Hmain.
  split_and!; [done| | | |].
  - rewrite Hfinal. apply map_lookup_filter_Some. split; [apply lookup_insert_eq|].
    cbn [fst]. done.
  - apply elem_of_snapshot; [done|]. eapply opened_keeps; [done..|].
    eapply Hwritten; [exact Hmeta| |apply meta_member_plain].
    by apply meta_file_member.
  - intros t Ht. apply elem_of_snapshot; [done|]. eapply opened_keeps; [done..|].
    eapply Hwritten; [exact (Hfun t Ht)| |by apply function_member_plain].
    by apply function_file_member.
  - apply elem_of_snapshot; [done|]. eapply opened_keeps; [done..|].
    eapply Hwritten; [exact Hmain| |by apply main_member_plain].
    by apply main_function_file_member.
Qed.

Lemma archive_holds_the_pack_witness :
  let r := exec (Ponder.compile (fixed_commands stone_commands) empty_ponder true
                   (0, 0, 0) "ponders" ".") Posix.fresh in
  ∃ commands members,
    fixed_commands stone_commands empty_ponder (0, 0, 0) = Returned commands
    ∧ Posix.files (world_of r)
        !! Posix.resolve Posix.fresh
             (Posix.archive_path (Ponder.datapack_dir "ponders" "."))
      = Some (Posix.File (Posix.Zip members))
    ∧ (meta_member, Some (Posix.Text pack_mcmeta_text)) ∈ members
    ∧ (∀ t, t ∈ commands.*1 →
         (function_member true "ponders" t,
          Some (Posix.Text (join newline (header :: texts_at t commands)))) ∈ members)
    ∧ (main_member true "ponders",
       Some (Posix.Text
               (join newline
                  (header :: (schedule_line "ponders" <$> first_seen commands.*1)))))
      ∈ members.
Proof.
  apply (archive_holds_the_pack (fixed_commands stone_commands) empty_ponder true
           (0, 0, 0) "ponders" "." Posix.fresh).
  - by split_and!.
  - vm_compute. repeat constructor.
Defined.

(** X12. On the file system in memory, for a plain [ponder_name]: when
    [{output_dir}/{ponder_name}] is there before the run, line 141 takes
    it as the directory of the pack. Once [shutil.rmtree] has returned,
    every file that was below it and has not the name of a file of the
    pack is a member of the archive and is gone from the directory: the
    run removes it with the tree. *)
Theorem own_files_packed_and_removed
    (compile_operations : Ponder.t → position → outcome (list compiled))
    (self : Ponder.t) (version : bool) (pos_offset : position)
    (ponder_name output_dir : string) (w : Posix.world)
    (commands : list compiled) (ns : list string) (c : Posix.content) :
  let datapack_dir := Ponder.datapack_dir ponder_name output_dir in
  let dir := Posix.resolve w datapack_dir in
  plain_name ponder_name →
  compile_operations self pos_offset = Returned commands →
  Posix.files w !! (dir ++ ns) = Some (Posix.File c) →
  ns ≠ [] → ns ≠ meta_member → ns ≠ main_member version ponder_name →
  (∀ t, t ∈ commands.*1 → ns ≠ function_member version ponder_name t) →
  let r := exec (Ponder.compile compile_operations self version pos_offset ponder_name
                   output_dir) w in
  EvRmtree datapack_dir (Returned tt) ∈ trace_of r →
  Posix.files (world_of r) !! (dir ++ ns) = None
  ∧ ∃ members,
      Posix.files (world_of r) !! Posix.resolve w (Posix.archive_path datapack_dir)
      = Some (Posix.File (Posix.Zip members))
      ∧ (ns, Some c) ∈ members.
Proof.
  intros datapack_dir dir Hplain Hco Hfile Hns Hmeta Hmain Hfun r Hrm.
  destruct (posix_packed_run compile_operations self version pos_offset ponder_name
              output_dir w Hrm)
    as (commands' & w1 & w2 & fs0 & Hco' & Hfiles & Hcwd & Hc2 & Hrun & _ & Hgrows & _ & _
        & Hfinal & _).
  assert (commands' = commands) as -> by congruence.
  fold r datapack_dir dir in Hfinal.
  set (acts := datapack_actions version ponder_name datapack_dir
                 (sys_path_exists datapack_dir w1) (group_commands commands)) in *.
  set (target := Posix.resolve w (Posix.archive_path datapack_dir)) in *.
  assert (Hout : ¬ dir `prefix_of` target) by by apply archive_outside_tree.
  split.
  - rewrite Hfinal. apply map_lookup_filter_None. right. intros x _ Hx.
    apply Hx. cbn [fst]. by apply prefix_app_r.
  - exists (Posix.snapshot (<[target := Posix.File (Posix.Zip [])]> fs0) dir). split.
    + rewrite Hfinal. apply map_lookup_filter_Some. split; [apply lookup_insert_eq|].
      cbn [fst]. done.
    + apply elem_of_snapshot; [done|]. eapply opened_keeps; [done..|].
      destruct (run_actions_keeps acts w1 (dir ++ ns) (Posix.File c)) as [Hk _].
      * by rewrite Hfiles.
      * intros p data enc Hin Heq.
        rewrite (posix_resolve_cwd w w1 _ Hcwd) in Heq.
        unfold acts, dir, datapack_dir in Hin, Heq.
        apply write_actions in Hin as [(-> & _)|[(t & Ht & -> & _)|(-> & _)]].
        -- rewrite meta_file_member, resolve_below in Heq
             by (done || apply meta_member_plain).
           by apply app_inv_head in Heq.
        -- rewrite function_file_member, resolve_below in Heq
             by (done || by apply function_member_plain).
           apply app_inv_head in Heq. by apply (Hfun t Ht).
        -- rewrite main_function_file_member, resolve_below in Heq
             by (done || by apply main_member_plain).
           by apply app_inv_head in Heq.
      * unfold acts, datapack_dir in Hk. by rewrite Hrun in Hk.
Qed.

Lemma own_files_packed_and_removed_witness :
  let r := exec (Ponder.compile (fixed_commands stone_commands) empty_ponder true
                   (0, 0, 0) "ponders" ".") with_own_folder in
  Posix.files (world_of r) !! ["home"; "ponders"; "notes.txt"] = None
  ∧ ∃ members,
      Posix.files (world_of r) !! ["home"; "ponders.zip"]
      = Some (Posix.File (Posix.Zip members))
      ∧ (["notes.txt"], Some (Posix.Text "mine")) ∈ members.
Proof.
  apply (own_files_packed_and_removed (fixed_commands stone_commands) empty_ponder true
           (0, 0, 0) "ponders" "." with_own_folder stone_commands ["notes.txt"]
           (Posix.Text "mine")).
  - by split_and!.
  - reflexivity.
  - reflexivity.
  - discriminate.
  - discriminate.
  - discriminate.
  - intros t _. discriminate.
  - vm_compute. repeat constructor.
Defined.

(** ** The test of line 132 *)

Lemma zip_name_kept (ponder_name : string) :
  plain_name ponder_name →
  str_mem "/" (ponder_name +:+ ".zip") = false
  ∧ ponder_name +:+ ".zip" ≠ "" ∧ ponder_name +:+ ".zip" ≠ ".".
Proof.
  intros (Hslash & Hne & Hdot & _). split_and!.
  - by rewrite str_mem_app, Hslash.
  - by destruct ponder_name.
  - destruct ponder_name as [|c [|d name]]; done.
Qed.

(** For a plain [ponder_name] and an [output_dir] that is not the empty
    string, the string of line 132 has the names of the path of the
    archive, and is relative when that path is. *)
Lemma zip_file_names (ponder_name output_dir : string) :
  plain_name ponder_name → output_dir ≠ "" →
  let tested := Path (Ponder.zip_file ponder_name output_dir) in
  let written := Posix.archive_path (Ponder.datapack_dir ponder_name output_dir) in
  names tested = names written ∧ (root tested = "" ↔ root written = "").
Proof.
  intros Hplain Hod tested written. unfold written.
  rewrite archive_path_plain by done.
  destruct (zip_name_kept ponder_name Hplain) as (Hslash & Hne & Hdot).
  unfold tested, Path, Ponder.zip_file. cbn [root names]. split.
  - unfold path_names. rewrite split_slash_concat, filter_app. f_equal.
    rewrite split_slash_plain by done. by rewrite filter_cons_True.
  - destruct output_dir as [|c rest]; [done|].
    change (String c rest +:+ ?s) with (String c (rest +:+ s)).
    destruct (decide (c = "/"%char)) as [->|Hc]; unfold path_root;
      repeat (case_match; simplify_eq/=; try done).
Qed.




(** With [output_dir = ""] the archive in the working directory is
    replaced without a question. *)
Example archive_replaced_unasked :
  let r := exec (Ponder.compile (fixed_commands stone_commands) empty_ponder true
                   (0, 0, 0) "ponders" "") (Posix.with_archive []) in
  outcome_of r = Returned None
  ∧ Forall (λ ev, ∀ res, ev ≠ EvInput res) (trace_of r)
  ∧ Posix.files (Posix.with_archive []) !! ["home"; "ponders.zip"]
    = Some (Posix.File (Posix.Text "old"))
  ∧ ∃ members, Posix.files (world_of r) !! ["home"; "ponders.zip"]
               = Some (Posix.File (Posix.Zip members)).
Proof.
  split_and!.
  - vm_compute. reflexivity.
  - vm_compute. repeat constructor; discriminate.
  - reflexivity.
  - eexists. vm_compute. reflexivity.
Qed.

(** The tree changes between line 132 and line 184. With
    [output_dir = "nodir/.."] and no [nodir], the test of line 132 fails on
    the way through [nodir]; line 142 then makes [nodir], and the archive
    in the working directory is replaced without a question. *)
Example archive_replaced_through_parent :
  let r := exec (Ponder.compile (fixed_commands stone_commands) empty_ponder true
                   (0, 0, 0) "ponders" "nodir/..") (Posix.with_archive []) in
  outcome_of r = Returned None
  ∧ Forall (λ ev, ∀ res, ev ≠ EvInput res) (trace_of r)
  ∧ Posix.files (Posix.with_archive []) !! ["home"; "ponders.zip"]
    = Some (Posix.File (Posix.Text "old"))
  ∧ Posix.files (world_of r) !! ["home"; "nodir"] = Some Posix.Dir
  ∧ ∃ members, Posix.files (world_of r) !! ["home"; "ponders.zip"]
               = Some (Posix.File (Posix.Zip members)).
Proof.
  split_and!.
  - vm_compute. reflexivity.
  - vm_compute. repeat constructor; discriminate.
  - reflexivity.
  - vm_compute. reflexivity.
  - eexists. vm_compute. reflexivity.
Qed.

(** ** A second run *)

(** A path without [..] is looked up through the directories on its
    way: two trees that agree there give the same lookup. *)
Lemma locate_agree (fs fs' : gmap (list string) Posix.node) (cur ns : list string) :
  Forall (λ n, n ≠ "..") ns →
  (∀ m, m `prefix_of` ns → m ≠ [] → m ≠ ns → fs !! (cur ++ m) = fs' !! (cur ++ m)) →
  Posix.locate fs cur ns = Posix.locate fs' cur ns.
Proof.
  revert cur. induction ns as [|n rest IH]; intros cur Hplain Hagree; [done|].
  destruct rest as [|n' rest]; [done|].
  apply Forall_cons in Hplain as [Hn Hplain].
  change (Posix.locate ?f cur (n :: n' :: rest))
    with (match Posix.enter f cur n with
          | Raised e => Raised e
          | Returned d => Posix.locate f d (n' :: rest)
          end).
  unfold Posix.enter. rewrite !decide_False by done.
  destruct (Posix.long n); [done|].
  rewrite <-(Hagree [n]); [|by apply prefix_cons, prefix_nil|done..].
  destruct (fs !! (cur ++ [n])) as [[|c]|]; [|done..].
  apply IH; [done|]. intros m Hpre Hne Hneq.
  rewrite <-!app_assoc. apply (Hagree (n :: m)); [by apply prefix_cons|done|congruence].
Qed.

(** X14. On the file system in memory, for a plain [ponder_name] and an
    [output_dir] that is not the empty string and has no name [..], with
    a string of line 132 that is not refused for its length or a NUL
    byte: after a run that has seen [shutil.rmtree] return, a second call
    of [compile] with the same [ponder_name] and [output_dir] finds the
    archive of the first, logs the warning and asks the operator before
    it does anything else. *)
Theorem second_run_asks
    (compile_operations compile_operations' : Ponder.t → position
                                                → outcome (list compiled))
    (self self' : Ponder.t) (version version' : bool) (pos_offset pos_offset' : position)
    (ponder_name output_dir : string) (w : Posix.world) :
  let datapack_dir := Ponder.datapack_dir ponder_name output_dir in
  plain_name ponder_name → output_dir ≠ "" →
  Forall (λ n, n ≠ "..") (path_names output_dir) →
  Posix.refused (Ponder.zip_file ponder_name output_dir) = None →
  let r := exec (Ponder.compile compile_operations self version pos_offset ponder_name
                   output_dir) w in
  EvRmtree datapack_dir (Returned tt) ∈ trace_of r →
  let r' := exec (Ponder.compile compile_operations' self' version' pos_offset'
                    ponder_name output_dir) (world_of r) in
  ∃ res rest,
    trace_of r' = asked version' pos_offset' ponder_name output_dir true
                  ++ EvInput res :: rest.
Proof.
  intros datapack_dir Hplain Hod Hnames Hrefused r Hrm r'.
  destruct (posix_packed_run compile_operations self version pos_offset ponder_name
              output_dir w Hrm)
    as (commands & w1 & w2 & fs0 & _ & _ & _ & _ & _ & Hcwd & _ & _ & _ & Hfinal
        & Hlocate).
  fold r datapack_dir in Hcwd, Hfinal, Hlocate.
  set (dir := Posix.resolve w datapack_dir) in *.
  set (target := Posix.resolve w (Posix.archive_path datapack_dir)) in *.
  set (start := if decide (root (Posix.archive_path datapack_dir) = "")
                then Posix.cwd w else []) in *.
  assert (Hout : ¬ dir `prefix_of` target) by by apply archive_outside_tree.
  assert (Hthere : is_Some (Posix.files (world_of r) !! target)).
  { rewrite Hfinal. eexists. apply map_lookup_filter_Some.
    split; [apply lookup_insert_eq|done]. }
  assert (Hdir : dir = start ++ path_names output_dir ++ [ponder_name]).
  { unfold dir, start, datapack_dir.
    rewrite archive_path_plain, datapack_dir_plain by done.
    unfold Posix.resolve. cbn [root names]. apply (walk_plain _ []).
    apply Forall_app. split; [done|]. apply Forall_singleton. by destruct Hplain as (_ & _ & _ & ?). }
  assert (Hnames' : names (Posix.archive_path datapack_dir)
                    = path_names output_dir ++ [ponder_name +:+ ".zip"]).
  { unfold datapack_dir. by rewrite archive_path_plain. }
  assert (Hsecond : Posix.locate (Posix.files (world_of r)) start
                      (names (Posix.archive_path datapack_dir))
                    = Returned (Posix.Entry target)).
  { etrans; [|exact Hlocate]. symmetry. apply locate_agree.
    - rewrite Hnames'. apply Forall_app. split; [done|].
      apply Forall_singleton, zip_name_not_parent.
    - intros m Hpre Hne Hneq. rewrite Hfinal.
      rewrite Hnames' in Hpre, Hneq.
      assert (Hm : m `prefix_of` path_names output_dir).
      { destruct Hpre as [rest Hrest]. destruct rest as [|x rest _] using rev_ind.
        - by rewrite app_nil_r in Hrest.
        - rewrite app_assoc in Hrest. apply app_inj_tail in Hrest as [-> _].
          by exists rest. }
      assert (Hlen : (length m ≤ length (path_names output_dir))%nat)
        by by apply prefix_length.
      assert (Hkeep : ¬ dir `prefix_of` start ++ m).
      { intros Hd%prefix_length. rewrite Hdir, !length_app in Hd. simpl in Hd. lia. }
      assert (Hoff : target ≠ start ++ m).
      { assert (Hlocated : Posix.key (Posix.Entry target)
                           = Posix.walk start (names (Posix.archive_path datapack_dir)))
          by by eapply locate_walk.
        cbn [Posix.key] in Hlocated. rewrite Hnames' in Hlocated.
        pose proof (walk_plain start [] (path_names output_dir ++ [ponder_name +:+ ".zip"]))
          as Hwalk.
        cbn [app] in Hwalk. rewrite Hwalk in Hlocated.
        2:{ apply Forall_app. split; [done|].
            apply Forall_singleton, zip_name_not_parent. }
        change (Posix.walk start []) with start in Hlocated.
        rewrite Hlocated. intros Heq%app_inv_head.
        apply (f_equal length) in Heq. rewrite length_app in Heq. simpl in Heq. lia. }
      symmetry. destruct (fs0 !! (start ++ m)) as [n|] eqn:Hm0.
      + apply map_lookup_filter_Some. split; [|done]. by rewrite lookup_insert_ne.
      + apply map_lookup_filter_None. left. by rewrite lookup_insert_ne. }
  unfold r'. rewrite exec_compile. cbn [sys_log sys_input sys_os_path_exists Posix.os].
  set (w0 := Posix.log Debug _ (Posix.log Info MsgCompiling (world_of r))).
  assert (Hfound : Posix.os_path_exists (Ponder.zip_file ponder_name output_dir) w0
                   = true).
  { unfold Posix.os_path_exists. rewrite decide_False.
    2:{ unfold Ponder.zip_file. by destruct output_dir. }
    destruct (zip_file_names ponder_name output_dir Hplain Hod) as [Hn Hr].
    unfold Posix.find_as. rewrite Hrefused, Hn.
    change (Posix.files w0) with (Posix.files (world_of r)).
    change (Posix.cwd w0) with (Posix.cwd (world_of r)). rewrite Hcwd.
    rewrite (decide_ext _ _ _ _ Hr). fold datapack_dir start. rewrite Hsecond.
    cbn [Posix.found Posix.stat]. by apply bool_decide_eq_true. }
  rewrite Hfound.
  destruct (Posix.input _) as [[answer|e] w1'].
  - destruct (decide (lower answer ≠ "y")).
    + eexists _, _. unfold trace_of. cbn [snd]. reflexivity.
    + destruct (exec _ w1') as [[o w2'] tr]. unfold trace_of. cbn [preceded snd].
      eexists _, _. rewrite <-app_assoc. reflexivity.
  - eexists _, _. unfold trace_of. cbn [snd]. reflexivity.
Qed.

Lemma second_run_asks_witness :
  let r := exec (Ponder.compile (fixed_commands stone_commands) empty_ponder true
                   (0, 0, 0) "ponders" ".") Posix.fresh in
  let r' := exec (Ponder.compile (fixed_commands []) empty_ponder false (1, 0, 0)
                    "ponders" ".") (world_of r) in
  ∃ res rest,
    trace_of r' = asked false (1, 0, 0) "ponders" "." true ++ EvInput res :: rest.
Proof.
  apply (second_run_asks (fixed_commands stone_commands) (fixed_commands [])
           empty_ponder empty_ponder true false (0, 0, 0) (1, 0, 0) "ponders" "."
           Posix.fresh).
  - by split_and!.
  - discriminate.
  - vm_compute. constructor.
  - reflexivity.
  - vm_compute. repeat constructor.
Defined.

(** ** Paths within the limits *)

Section limits.
Implicit Types (r : string) (ns ms : list string).

Lemma refused_prefix (a b : string) :
  Posix.refused (a +:+ b) = None → Posix.refused a = None.
Proof.
  unfold Posix.refused. rewrite str_mem_app, str_length_app.
  destruct (str_mem _ a); [done|]. cbn [orb]. destruct (str_mem _ b); [done|].
  destruct (Posix.path_max <=? _ + _)%nat eqn:Hlen; [done|]. intros _.
  apply Nat.leb_gt in Hlen.
  destruct (Posix.path_max <=? String.length a)%nat eqn:Hlen'; [|done].
  apply Nat.leb_le in Hlen'. lia.
Qed.

Lemma str_app_nil (s : string) : s +:+ "" = s.
Proof.
  induction s as [|c s IH]; [done|].
  change (String c s +:+ "") with (String c (s +:+ "")). by rewrite IH.
Qed.

Lemma join_below (sep : string) ns ms :
  ns ≠ [] → ∃ rest, join sep (ns ++ ms) = join sep ns +:+ rest.
Proof.
  induction ns as [|x ns IH]; [done|]. intros _. destruct ns as [|y ns].
  - destruct ms as [|z ms].
    + exists "". by rewrite str_app_nil.
    + exists (sep +:+ join sep (z :: ms)). done.
  - destruct IH as [rest IH]; [done|]. exists rest.
    change ((x :: y :: ns) ++ ms) with (x :: (y :: ns) ++ ms).
    rewrite !join_cons by done. rewrite IH. by rewrite !str_app_assoc.
Qed.

Lemma refused_below r ns ms :
  Posix.refused (str {| root := r; names := ns ++ ms |}) = None →
  Posix.refused (str {| root := r; names := ns |}) = None.
Proof.
  destruct ns as [|x ns].
  - unfold str. cbn [root names app]. destruct (decide (r = "")) as [->|Hr]; [done|].
    destruct ms as [|y ms]; [done|]. apply refused_prefix.
  - destruct (join_below "/" (x :: ns) ms) as [rest Hrest]; [done|].
    unfold str. cbn [root names]. change ((x :: ns) ++ ms) with (x :: ns ++ ms).
    cbn iota. change (x :: ns ++ ms) with ((x :: ns) ++ ms).
    rewrite Hrest, <-str_app_assoc. apply refused_prefix.
Qed.

Lemma within_limits_spec (p : PurePath) :
  within_limits p = true
  ↔ Posix.refused (str p) = None ∧ Forall (λ n, Posix.long n = false) (names p).
Proof.
  unfold within_limits. rewrite andb_true_iff, forallb_forall, Forall_forall.
  split.
  - intros [Hr Hl]. split; [by destruct (Posix.refused _)|].
    intros n Hn%list_elem_of_In. apply Hl in Hn. by destruct (Posix.long n).
  - intros [-> Hl]. split; [done|]. intros n Hn%list_elem_of_In. by rewrite Hl.
Qed.

Lemma within_limits_below r ns ms :
  within_limits {| root := r; names := ns ++ ms |} = true →
  within_limits {| root := r; names := ns |} = true.
Proof.
  rewrite !within_limits_spec. cbn [names]. intros [Hr Hl]. split.
  - by eapply refused_below.
  - by apply Forall_app in Hl as [? _].
Qed.
End limits.

(** ** Lookups of paths without [..] *)

Section plain_lookup.
Implicit Types (fs : gmap (list string) Posix.node) (cur ns : list string) (n : string).

Lemma prefix_snoc_cases {A} (q l : list A) (x : A) :
  q `prefix_of` l ++ [x] → q = l ++ [x] ∨ q `prefix_of` l.
Proof.
  intros [rest Hrest]. destruct rest as [|y rest _] using rev_ind.
  - rewrite app_nil_r in Hrest. by left.
  - rewrite app_assoc in Hrest. apply app_inj_tail in Hrest as [-> _].
    right. by exists rest.
Qed.

Lemma all_dirs_cons fs cur n ns :
  all_dirs fs cur (n :: ns) ↔ fs !! (cur ++ [n]) = Some Posix.Dir ∧ all_dirs fs (cur ++ [n]) ns.
Proof.
  split.
  - intros Hall. split; [by apply Hall; [apply prefix_cons, prefix_nil|]|].
    intros m Hm Hne. rewrite <-app_assoc. apply Hall; [by apply prefix_cons|done].
  - intros [Hn Hall] m Hm Hne. destruct m as [|x m]; [done|].
    apply prefix_cons_inv_1 in Hm as Hx. subst x. apply prefix_cons_inv_2 in Hm.
    destruct m as [|y m]; [done|].
    change (cur ++ n :: y :: m) with (cur ++ [n] ++ y :: m).
    rewrite (app_assoc cur [n] (y :: m)). by apply Hall.
Qed.

Lemma no_files_cons fs cur n ns :
  no_files fs cur (n :: ns)
  → Posix.is_file (fs !! (cur ++ [n])) = false ∧ no_files fs (cur ++ [n]) ns.
Proof.
  intros Hall. split; [by apply Hall; [apply prefix_cons, prefix_nil|]|].
  intros m Hm Hne. rewrite <-app_assoc. apply Hall; [by apply prefix_cons|done].
Qed.

Lemma locate_cons fs cur n ns :
  ns ≠ [] →
  Posix.locate fs cur (n :: ns)
  = match Posix.enter fs cur n with
    | Raised e => Raised e
    | Returned d => Posix.locate fs d ns
    end.
Proof. by destruct ns. Qed.

(** Through directories the lookup arrives at the entry of the last
    name. *)
Lemma locate_way fs cur ns n :
  Forall (λ x, x ≠ "..") ns → n ≠ ".." →
  Forall (λ x, Posix.long x = false) ns → Posix.long n = false →
  all_dirs fs cur ns →
  Posix.locate fs cur (ns ++ [n]) = Returned (Posix.Entry (cur ++ ns ++ [n])).
Proof.
  intros Hplain Hn Hlong Hl. revert cur.
  induction ns as [|x ns IH]; intros cur Hdirs.
  - cbn [app Posix.locate]. by rewrite decide_False, Hl.
  - apply Forall_cons in Hplain as [Hx Hplain]. apply Forall_cons in Hlong as [Hlx Hlong].
    apply all_dirs_cons in Hdirs as [Hdir Hdirs].
    change ((x :: ns) ++ [n]) with (x :: (ns ++ [n])).
    rewrite locate_cons by (by destruct ns).
    unfold Posix.enter. rewrite decide_False, Hlx, Hdir by done.
    rewrite IH by done. by rewrite <-app_assoc.
Qed.

(** Where no name on the way is a file, the lookup arrives, through
    directories, or a directory is missing. *)
Lemma locate_cases fs cur ns n :
  Forall (λ x, x ≠ "..") ns → n ≠ ".." →
  Forall (λ x, Posix.long x = false) ns → Posix.long n = false →
  no_files fs cur ns →
  (Posix.locate fs cur (ns ++ [n]) = Returned (Posix.Entry (cur ++ ns ++ [n]))
   ∧ all_dirs fs cur ns)
  ∨ Posix.locate fs cur (ns ++ [n]) = Raised FileNotFoundError.
Proof.
  intros Hplain Hn Hlong Hl. revert cur.
  induction ns as [|x ns IH]; intros cur Hfree.
  - left. split; [|by intros m ->%prefix_nil_inv].
    cbn [app Posix.locate]. by rewrite decide_False, Hl.
  - apply Forall_cons in Hplain as [Hx Hplain]. apply Forall_cons in Hlong as [Hlx Hlong].
    apply no_files_cons in Hfree as [Hfile Hfree].
    change ((x :: ns) ++ [n]) with (x :: (ns ++ [n])).
    rewrite locate_cons by (by destruct ns).
    unfold Posix.enter. rewrite decide_False, Hlx by done.
    destruct (fs !! (cur ++ [x])) as [[|c]|] eqn:Hdir; [|done|by right].
    destruct (IH Hplain Hlong (cur ++ [x]) Hfree) as [[-> Hdirs]| ->]; [|by right].
    left. split; [by rewrite <-app_assoc|]. by apply all_dirs_cons.
Qed.
End plain_lookup.

(** ** Calls on paths without [..] *)

(** Two lists of different lengths differ. *)
Ltac by_length :=
  let Heq := fresh in
  intros Heq; apply (f_equal length) in Heq; rewrite ?length_app in Heq;
  simpl in Heq; lia.

Section plain_calls.
Implicit Types (w : Posix.world) (fs : gmap (list string) Posix.node).
Implicit Types (r n : string) (ns : list string).

Lemma prefix_removelast {A} (m l : list A) : m `prefix_of` removelast l → m `prefix_of` l.
Proof.
  destruct l as [|x l _] using rev_ind; [done|].
  rewrite removelast_last. apply prefix_app_r.
Qed.

Lemma no_files_prefix fs cur ns ms : no_files fs cur (ns ++ ms) → no_files fs cur ns.
Proof. intros Hfree m Hm Hne. apply Hfree; [by apply prefix_app_r|done]. Qed.

Lemma all_dirs_prefix fs cur ns ms : all_dirs fs cur (ns ++ ms) → all_dirs fs cur ns.
Proof. intros Hdirs m Hm Hne. apply Hdirs; [by apply prefix_app_r|done]. Qed.

Lemma all_dirs_no_files fs cur ns : all_dirs fs cur ns → no_files fs cur ns.
Proof. intros Hdirs m Hm Hne. by rewrite (Hdirs m Hm Hne). Qed.

Lemma all_dirs_insert fs cur ns k (c : Posix.content) :
  all_dirs fs cur ns → (∀ m, m `prefix_of` ns → k ≠ cur ++ m) →
  all_dirs (<[k := Posix.File c]> fs) cur ns.
Proof.
  intros Hdirs Hk m Hm Hne. rewrite lookup_insert_ne; [by apply Hdirs|by apply Hk].
Qed.

Lemma find_way r ns n w :
  let p := {| root := r; names := ns ++ [n] |} in
  let start := if decide (r = "") then Posix.cwd w else [] in
  Forall (λ x, x ≠ "..") (ns ++ [n]) → within_limits p = true →
  all_dirs (Posix.files w) start ns →
  Posix.find p w = Returned (Posix.Entry (start ++ ns ++ [n])).
Proof.
  intros p start Hplain [Hrefused Hlong]%within_limits_spec Hdirs.
  cbn [names p] in Hlong.
  rewrite Forall_app, Forall_singleton in Hplain. destruct Hplain as [Hplain Hn].
  rewrite Forall_app, Forall_singleton in Hlong. destruct Hlong as [Hlong Hl].
  unfold Posix.find, Posix.find_as. rewrite Hrefused. cbn [root names p].
  by apply locate_way.
Qed.

Lemma find_cases r ns n w :
  let p := {| root := r; names := ns ++ [n] |} in
  let start := if decide (r = "") then Posix.cwd w else [] in
  Forall (λ x, x ≠ "..") (ns ++ [n]) → within_limits p = true →
  no_files (Posix.files w) start ns →
  (Posix.find p w = Returned (Posix.Entry (start ++ ns ++ [n]))
   ∧ all_dirs (Posix.files w) start ns)
  ∨ Posix.find p w = Raised FileNotFoundError.
Proof.
  intros p start Hplain [Hrefused Hlong]%within_limits_spec Hfree.
  cbn [names p] in Hlong.
  rewrite Forall_app, Forall_singleton in Hplain. destruct Hplain as [Hplain Hn].
  rewrite Forall_app, Forall_singleton in Hlong. destruct Hlong as [Hlong Hl].
  unfold Posix.find, Posix.find_as. rewrite Hrefused. cbn [root names p].
  by apply locate_cases.
Qed.

(** [os.mkdir] where the directories on the way are there. *)
Lemma os_mkdir_way r ns n w :
  let p := {| root := r; names := ns ++ [n] |} in
  let start := if decide (r = "") then Posix.cwd w else [] in
  let k := start ++ ns ++ [n] in
  Forall (λ x, x ≠ "..") (ns ++ [n]) → within_limits p = true →
  all_dirs (Posix.files w) start ns →
  Posix.os_mkdir p w
  = match Posix.files w !! k with
    | Some _ => (Raised FileExistsError, w)
    | None => (Returned tt, Posix.set_files w (<[k := Posix.Dir]> (Posix.files w)))
    end.
Proof.
  intros p start k Hplain Hlim Hdirs. subst p. unfold Posix.os_mkdir.
  by rewrite (find_way r ns n w).
Qed.

Lemma is_dir_way r ns n w :
  let p := {| root := r; names := ns ++ [n] |} in
  let start := if decide (r = "") then Posix.cwd w else [] in
  Forall (λ x, x ≠ "..") (ns ++ [n]) → within_limits p = true →
  all_dirs (Posix.files w) start (ns ++ [n]) →
  Posix.is_dir p w = true.
Proof.
  intros p start Hplain Hlim Hdirs. subst p. unfold Posix.is_dir.
  rewrite (find_way r ns n w); [|done..|by eapply all_dirs_prefix].
  cbn [Posix.stat]. fold start.
  assert (Hk : Posix.files w !! (start ++ ns ++ [n]) = Some Posix.Dir)
    by (apply Hdirs; [done|by destruct ns]).
  by rewrite Hk.
Qed.

Lemma mkdir_parents_missing (fuel : nat) (p : PurePath) (exist_ok : bool) w :
  Posix.os_mkdir p w = (Raised FileNotFoundError, w) → names p ≠ [] →
  Posix.mkdir_parents (S fuel) p exist_ok w
  = match Posix.mkdir_parents fuel (Posix.parent_path p) true w with
    | (Returned _, w2) => Posix.mkdir_plain p exist_ok w2
    | (Raised e, w2) => (Raised e, w2)
    end.
Proof. intros Hos Hne. cbn [Posix.mkdir_parents]. rewrite Hos. by destruct (names p). Qed.

(** [p.mkdir(parents=True, exist_ok=exist_ok)] where no name on the way
    is a file and the last name is free, or is a directory that may
    exist: the call returns, the directories on the way are there
    afterwards, and nothing else has changed. *)
Lemma mkdir_parents_returns (fuel : nat) r ns (exist_ok : bool) w :
  let p := {| root := r; names := ns |} in
  let start := if decide (r = "") then Posix.cwd w else [] in
  (length ns ≤ fuel)%nat →
  Forall (λ x, x ≠ "..") ns → within_limits p = true →
  no_files (Posix.files w) start (removelast ns) →
  (ns = [] ∧ exist_ok = true
   ∨ ns ≠ [] ∧ if exist_ok then Posix.is_file (Posix.files w !! (start ++ ns)) = false
               else Posix.files w !! (start ++ ns) = None) →
  ∃ fs1,
    Posix.mkdir_parents fuel p exist_ok w = (Returned tt, Posix.set_files w fs1)
    ∧ Posix.grows (Posix.files w) fs1
    ∧ all_dirs fs1 start ns
    ∧ (∀ q, (∀ m, m `prefix_of` ns → m ≠ [] → q ≠ start ++ m) →
            fs1 !! q = Posix.files w !! q).
Proof.
  cbv zeta. set (start := if decide (r = "") then Posix.cwd w else []).
  revert ns exist_ok.
  induction fuel as [|fuel IH]; intros ns exist_ok Hlen Hplain Hlim Hfree Htarget.
  - (* no name: the directory the lookup starts from *)
    destruct ns as [|x ns]; [|simpl in Hlen; lia].
    destruct Htarget as [[_ ->]|[? _]]; [|done].
    apply within_limits_spec in Hlim as [Hrefused _].
    exists (Posix.files w). split_and!.
    + cbn [Posix.mkdir_parents]. unfold Posix.os_mkdir, Posix.find, Posix.find_as.
      rewrite Hrefused. cbn [root names Posix.locate].
      unfold Posix.mkdir_failed, Posix.is_dir, Posix.find, Posix.find_as.
      rewrite Hrefused. cbn [root names Posix.locate Posix.stat Posix.is_os_error andb].
      by rewrite set_files_files.
    + apply grows_refl.
    + by intros m ->%prefix_nil_inv.
    + done.
  - destruct ns as [|n ns _] using rev_ind.
    { destruct Htarget as [[_ ->]|[? _]]; [|done].
      apply within_limits_spec in Hlim as [Hrefused _].
      exists (Posix.files w). split_and!.
      + cbn [Posix.mkdir_parents]. unfold Posix.os_mkdir, Posix.find, Posix.find_as.
        rewrite Hrefused. cbn [root names Posix.locate].
        unfold Posix.mkdir_failed, Posix.is_dir, Posix.find, Posix.find_as.
        rewrite Hrefused. cbn [root names Posix.locate Posix.stat Posix.is_os_error andb].
        by rewrite set_files_files.
      + apply grows_refl.
      + by intros m ->%prefix_nil_inv.
      + done. }
    rewrite removelast_last in Hfree.
    destruct Htarget as [[Hnil _]|[_ Htarget]]; [by destruct ns|].
    set (p := {| root := r; names := ns ++ [n] |}) in *.
    set (k := start ++ ns ++ [n]) in *.
    assert (Hlast : ∀ (w1 : Posix.world) fs1,
      w1 = Posix.set_files w fs1 →
      all_dirs fs1 start ns → fs1 !! k = Posix.files w !! k →
      Posix.grows (Posix.files w) fs1 →
      (∀ q, (∀ m, m `prefix_of` ns → m ≠ [] → q ≠ start ++ m) →
            fs1 !! q = Posix.files w !! q) →
      ∃ fs2,
        Posix.mkdir_plain p exist_ok w1 = (Returned tt, Posix.set_files w fs2)
        ∧ (match Posix.os_mkdir p w1 with
           | (Raised FileNotFoundError, _) => False
           | (Returned _, w2) => w2 = Posix.set_files w fs2
           | (Raised e, w2) =>
               Posix.mkdir_failed p exist_ok e w2 = (Returned tt, Posix.set_files w fs2)
           end)
        ∧ Posix.grows (Posix.files w) fs2
        ∧ all_dirs fs2 start (ns ++ [n])
        ∧ (∀ q, (∀ m, m `prefix_of` ns ++ [n] → m ≠ [] → q ≠ start ++ m) →
                fs2 !! q = Posix.files w !! q)).
    { intros w1 fs1 -> Hdirs Hk Hgrows Hsame.
      pose proof (os_mkdir_way r ns n (Posix.set_files w fs1) Hplain Hlim Hdirs) as Hos.
      cbv zeta in Hos. cbn [Posix.set_files Posix.files Posix.cwd] in Hos.
      fold start k p in Hos. unfold Posix.mkdir_plain. rewrite Hos, Hk.
      destruct (Posix.files w !! k) as [[|c]|] eqn:Hwk.
      - (* a directory that may exist *)
        destruct exist_ok; [|done].
        assert (Hall : all_dirs fs1 start (ns ++ [n])).
        { intros m [->|Hm]%prefix_snoc_cases Hne; [|by apply Hdirs].
          fold k. by rewrite Hk. }
        exists fs1. unfold Posix.mkdir_failed.
        pose proof (is_dir_way r ns n (Posix.set_files w fs1) Hplain Hlim Hall) as Hisdir.
        cbv zeta in Hisdir. fold p in Hisdir. rewrite Hisdir.
        cbn [Posix.is_os_error andb]. split_and!; [done..|].
        intros q Hq. apply Hsame. intros m Hm. apply Hq. by apply prefix_app_r.
      - by destruct exist_ok.
      - exists (<[k := Posix.Dir]> fs1). split_and!; [done..| | |].
        + eapply grows_trans; [done|]. apply grows_insert. by rewrite Hk.
        + intros m [->|Hm]%prefix_snoc_cases Hne; [apply lookup_insert_eq|].
          rewrite lookup_insert_ne; [by apply Hdirs|].
          unfold k. intros Heq%app_inv_head. subst m.
          apply prefix_length in Hm. rewrite length_app in Hm. simpl in Hm. lia.
        + intros q Hq. rewrite lookup_insert_ne.
          * apply Hsame. intros m Hm. apply Hq. by apply prefix_app_r.
          * intros <-. apply (Hq (ns ++ [n])); [done|by destruct ns|done]. }
    destruct (find_cases r ns n w Hplain Hlim Hfree) as [[Hfind Hdirs]|Hfind];
      fold start p in Hfind.
    + (* the directories on the way are there *)
      destruct (Hlast w (Posix.files w)) as (fs2 & _ & Hos & Hrest);
        [by rewrite set_files_files|done|done|apply grows_refl|done|].
      exists fs2. split; [|done]. cbn [Posix.mkdir_parents]. fold p.
      destruct (Posix.os_mkdir p w) as [[u|e] w2]; [by destruct u; subst|].
      by destruct e.
    + (* a directory on the way is missing *)
      assert (Hos : Posix.os_mkdir p w = (Raised FileNotFoundError, w)).
      { unfold Posix.os_mkdir. by rewrite Hfind. }
      assert (Hparent : Posix.parent_path p = {| root := r; names := ns |}).
      { unfold Posix.parent_path, p. cbn [root names]. by rewrite removelast_last. }
      rewrite (mkdir_parents_missing fuel p exist_ok w Hos) by (by destruct ns).
      rewrite Hparent.
      destruct (IH ns true) as (fs1 & -> & Hgrows & Hdirs & Hsame).
      * rewrite length_app in Hlen. simpl in Hlen. lia.
      * by apply Forall_app in Hplain as [? _].
      * by eapply within_limits_below.
      * intros m Hm Hne. apply Hfree; [by apply prefix_removelast|done].
      * destruct ns as [|y ns']; [by left|]. right. split; [done|].
        by apply Hfree.
      * destruct (Hlast (Posix.set_files w fs1) fs1) as (fs2 & Hplain2 & _ & Hrest);
          [done|done| |done|done|].
        { apply Hsame. intros m Hm Hne. unfold k. intros Heq%app_inv_head. subst m.
          apply prefix_length in Hm. rewrite length_app in Hm. simpl in Hm. lia. }
        exists fs2. by split.
Qed.

(** [p.mkdir(parents=True)] of a directory that is not there. *)
Lemma mkdir_returns r ns w :
  let p := {| root := r; names := ns |} in
  let start := if decide (r = "") then Posix.cwd w else [] in
  ns ≠ [] → Forall (λ x, x ≠ "..") ns → within_limits p = true →
  no_files (Posix.files w) start (removelast ns) →
  Posix.files w !! (start ++ ns) = None →
  ∃ fs1,
    Posix.mkdir p w = (Returned tt, Posix.set_files w fs1)
    ∧ Posix.grows (Posix.files w) fs1
    ∧ all_dirs fs1 start ns
    ∧ (∀ q, (∀ m, m `prefix_of` ns → m ≠ [] → q ≠ start ++ m) →
            fs1 !! q = Posix.files w !! q).
Proof.
  intros p start Hne Hplain Hlim Hfree Hnone. unfold Posix.mkdir.
  apply mkdir_parents_returns; [done..|]. by right.
Qed.

(** [p.write_text(data)] where the directories on the way are there and
    the last name is not a directory. *)
Lemma write_text_way r ns n (data : string) enc w :
  let p := {| root := r; names := ns ++ [n] |} in
  let start := if decide (r = "") then Posix.cwd w else [] in
  let k := start ++ ns ++ [n] in
  Forall (λ x, x ≠ "..") (ns ++ [n]) → within_limits p = true →
  all_dirs (Posix.files w) start ns →
  Posix.files w !! k ≠ Some Posix.Dir →
  Posix.write_text p data enc w
  = (Returned tt, Posix.set_files w (<[k := Posix.File (Posix.Text data)]> (Posix.files w))).
Proof.
  intros p start k Hplain Hlim Hdirs Hk. subst p. unfold Posix.write_text.
  rewrite (find_way r ns n w) by done. fold start k.
  by destruct (Posix.files w !! k) as [[|c]|].
Qed.

(** [shutil.rmtree(p)] of a directory. *)
Lemma rmtree_way r ns n w :
  let p := {| root := r; names := ns ++ [n] |} in
  let start := if decide (r = "") then Posix.cwd w else [] in
  let k := start ++ ns ++ [n] in
  Forall (λ x, x ≠ "..") (ns ++ [n]) → within_limits p = true →
  all_dirs (Posix.files w) start (ns ++ [n]) →
  Posix.rmtree p w
  = (Returned tt,
     Posix.set_files w (filter (λ kv, ¬ k `prefix_of` kv.1) (Posix.files w))).
Proof.
  intros p start k Hplain Hlim Hdirs. subst p. unfold Posix.rmtree.
  rewrite (find_way r ns n w); [|done..|by eapply all_dirs_prefix]. fold start k.
  assert (Hk : Posix.files w !! k = Some Posix.Dir)
    by (apply Hdirs; [done|by destruct ns]).
  by rewrite Hk.
Qed.

(** [p.exists()] of the directory before the last name. *)
Lemma parent_exists_way r ns n w :
  let p := {| root := r; names := ns ++ [n] |} in
  let start := if decide (r = "") then Posix.cwd w else [] in
  Forall (λ x, x ≠ "..") (ns ++ [n]) → within_limits p = true →
  all_dirs (Posix.files w) start ns →
  Posix.path_exists (Posix.parent_path p) w = true.
Proof.
  intros p start Hplain Hlim Hdirs.
  assert (Hparent : Posix.parent_path p = {| root := r; names := ns |}).
  { unfold Posix.parent_path, p. cbn [root names]. by rewrite removelast_last. }
  rewrite Hparent. unfold Posix.path_exists.
  apply within_limits_below in Hlim.
  destruct ns as [|x ns _] using rev_ind.
  - apply within_limits_spec in Hlim as [Hrefused _].
    unfold Posix.find, Posix.find_as. rewrite Hrefused. by cbn.
  - rewrite (find_way r ns x w); [|by apply Forall_app in Hplain as [? _]|done
                                   |by eapply all_dirs_prefix].
    cbn [Posix.found Posix.stat]. apply bool_decide_eq_true. fold start.
    rewrite (Hdirs (ns ++ [x])); [done..|by destruct ns].
Qed.

(** [shutil.make_archive(p, "zip", root_dir)] where the directories on
    the way are there and nothing is at the path of the archive, which
    is [zip] beside [p]. *)
Lemma make_archive_way r ns n (zip : string) (root_dir : PurePath) w :
  let p := {| root := r; names := ns ++ [n] |} in
  let start := if decide (r = "") then Posix.cwd w else [] in
  let k := start ++ ns ++ [zip] in
  Posix.archive_path p = {| root := r; names := ns ++ [zip] |} →
  Forall (λ x, x ≠ "..") (ns ++ [n]) → zip ≠ ".." →
  within_limits p = true → within_limits (Posix.archive_path p) = true →
  all_dirs (Posix.files w) start ns →
  Posix.files w !! k = None →
  ∃ members,
    Posix.make_archive p "zip" root_dir w
    = (Returned (Posix.abspath w (Posix.archive_path p)),
       Posix.set_files w (<[k := Posix.File (Posix.Zip members)]> (Posix.files w))).
Proof.
  intros p start k Harchive Hplain Hzip Hlim Hlimz Hdirs Hk. subst p.
  unfold Posix.make_archive. cbv zeta. rewrite decide_False by (by intros ?).
  rewrite (parent_exists_way r ns n w) by done.
  rewrite andb_false_r. rewrite Harchive in Hlimz |- *.
  rewrite (find_way r ns zip w); [|..|done|done].
  2:{ apply Forall_app in Hplain as [? _]. apply Forall_app. split; [done|].
      by apply Forall_singleton. }
  fold start k. rewrite Hk. by eexists.
Qed.
End plain_calls.

(** ** Names that are files *)

Section posix_tree.
Implicit Types (fs : gmap (list string) Posix.node) (k q : list string).

Lemma elem_of_proper_prefixes q k :
  q ∈ Posix.proper_prefixes k ↔ q `prefix_of` k ∧ q ≠ k.
Proof.
  unfold Posix.proper_prefixes. rewrite list_elem_of_fmap. split.
  - intros (n & -> & Hn). apply elem_of_seq in Hn. split; [apply prefix_take|].
    intros Heq. apply (f_equal length) in Heq. rewrite length_take in Heq. lia.
  - intros [Hpre Hne]. exists (length q). split.
    + destruct Hpre as [rest ->]. by rewrite take_app_length.
    + apply elem_of_seq. split; [lia|]. simpl.
      pose proof (prefix_length _ _ Hpre) as Hle.
      destruct (decide (length q = length k)) as [Heq|]; [|lia].
      exfalso. apply Hne. apply prefix_length_eq; [done|lia].
Qed.

Lemma blocked_false fs k :
  Posix.blocked fs k = false
  ↔ ∀ q, q `prefix_of` k → q ≠ k → Posix.is_file (Posix.node_at fs q) = false.
Proof.
  unfold Posix.blocked. split.
  - intros Hall q Hpre Hne.
    destruct (Posix.is_file (Posix.node_at fs q)) eqn:Hq; [|done].
    assert (Hex : existsb (λ q, Posix.is_file (Posix.node_at fs q))
                    (Posix.proper_prefixes k) = true).
    { apply existsb_exists. exists q. split; [|done].
      by apply list_elem_of_In, elem_of_proper_prefixes. }
    congruence.
  - intros Hall.
    destruct (existsb _ _) eqn:Hex; [|done].
    apply existsb_exists in Hex as (q & Hin & Hq).
    apply list_elem_of_In, elem_of_proper_prefixes in Hin as [Hpre Hne].
    by rewrite Hall in Hq.
Qed.

Lemma blocked_no_files fs cur ns n :
  Posix.blocked fs (cur ++ ns ++ [n]) = false → no_files fs cur ns.
Proof.
  intros Hblocked m Hm Hne.
  assert (Hq : Posix.is_file (Posix.node_at fs (cur ++ m)) = false).
  { apply (proj1 (blocked_false fs (cur ++ ns ++ [n])) Hblocked).
    - apply prefix_app, prefix_app_r, Hm.
    - intros Heq%app_inv_head. subst m. apply prefix_length in Hm.
      rewrite length_app in Hm. simpl in Hm. lia. }
  destruct (cur ++ m) as [|x l] eqn:Hk; [|done].
  apply app_eq_nil in Hk as [_ ->]. done.
Qed.

Lemma prefix_app_split {A} (m a b : list A) :
  m `prefix_of` a ++ b → m `prefix_of` a ∨ ∃ m', m = a ++ m' ∧ m' `prefix_of` b ∧ m' ≠ [].
Proof.
  intros Hm. destruct (prefix_weak_total m a (a ++ b) Hm) as [Hpre|[m' ->]];
    [by apply prefix_app_r|by left|].
  destruct m' as [|x m']; [left; by rewrite app_nil_r|].
  right. exists (x :: m'). split_and!; [done| |done]. by apply prefix_app_inv in Hm.
Qed.

Lemma prefix_antisym {A} (l1 l2 : list A) :
  l1 `prefix_of` l2 → l2 `prefix_of` l1 → l1 = l2.
Proof.
  intros H1 H2. apply prefix_length_eq; [done|]. by apply prefix_length.
Qed.
End posix_tree.

Section actions_return.
Context `{OS W}.

(** Actions that each return where the property holds, and keep it, all
    return. *)
Lemma run_actions_returns (I : W → Prop) (acts : list action) (w : W) :
  (∀ a w1, a ∈ acts → I w1 → ∃ w2, sys_perform a w1 = (Returned tt, w2) ∧ I w2) →
  I w → ∃ w2, run_actions acts w = (Returned tt, w2) ∧ I w2.
Proof.
  revert w. induction acts as [|a acts IH]; intros w Hstep Hw; cbn [run_actions].
  - by exists w.
  - destruct (Hstep a w (list_elem_of_here _ _) Hw) as (w1 & -> & Hw1).
    apply IH; [|done]. intros b w2 Hb. apply Hstep. by right.
Qed.
End actions_return.

(** ** A run in a clean place *)

Section clean_run.
Variables (version : bool) (ponder_name output_dir : string).
Hypothesis Hplain : plain_name ponder_name.
Hypothesis Hod : Forall (λ n, n ≠ "..") (path_names output_dir).

Abbreviation the_pack := (Ponder.datapack_dir ponder_name output_dir).
Abbreviation the_functions := (Ponder.function_dir version ponder_name the_pack).
Abbreviation the_root := (path_root output_dir).
Abbreviation way := (path_names output_dir).
Abbreviation pack_names := (way ++ [ponder_name]).
Abbreviation below := ["data"; ponder_name; function_dir_name version].
Abbreviation zip_name := (ponder_name +:+ ".zip").

Lemma pack_names_plain : Forall (λ n, n ≠ "..") pack_names.
Proof.
  apply Forall_app. split; [done|]. apply Forall_singleton.
  by destruct Hplain as (_ & _ & _ & ?).
Qed.

Lemma function_names_plain : Forall (λ n, n ≠ "..") (pack_names ++ below).
Proof.
  apply Forall_app. split; [apply pack_names_plain|].
  destruct Hplain as (_ & _ & _ & ?). repeat constructor; [done..|by destruct version].
Qed.

Lemma the_functions_names :
  the_functions = {| root := the_root; names := pack_names ++ below |}.
Proof.
  rewrite function_dir_names, datapack_dir_plain by done.
  destruct Hplain as (Hslash & Hne & Hdot & Hparent).
  by rewrite (path_names_plain ponder_name).
Qed.

Lemma the_meta_names :
  Ponder.meta_file the_pack
  = {| root := the_root; names := pack_names ++ ["pack.mcmeta"] |}.
Proof. by rewrite meta_file_names, datapack_dir_plain. Qed.

Lemma the_function_file_names (t : Z) :
  Ponder.function_file the_functions t
  = {| root := the_root;
       names := (pack_names ++ below) ++ ["_" +:+ str_int t +:+ ".mcfunction"] |}.
Proof. by rewrite function_file_names, the_functions_names. Qed.

Lemma the_main_names :
  Ponder.main_function_file the_functions
  = {| root := the_root; names := (pack_names ++ below) ++ ["main.mcfunction"] |}.
Proof. by rewrite main_function_file_names, the_functions_names. Qed.

Lemma function_file_name_plain (t : Z) : "_" +:+ str_int t +:+ ".mcfunction" ≠ "..".
Proof. done. Qed.

Lemma zip_off_pack (m l : list string) :
  m `prefix_of` pack_names ++ l → m ≠ way ++ [zip_name].
Proof.
  intros Hm ->. rewrite <-app_assoc in Hm.
  apply prefix_app_inv, prefix_cons_inv_1 in Hm.
  symmetry in Hm. by apply str_app_suffix_ne in Hm.
Qed.

(** In a clean place the actions of lines 141-181 all return. *)
Lemma clean_actions (w0 : Posix.world) (functions : functions_dict) :
  let start := if decide (the_root = "") then Posix.cwd w0 else [] in
  within_limits (Ponder.meta_file the_pack) = true →
  within_limits (Ponder.main_function_file the_functions) = true →
  (∀ entry, entry ∈ functions →
            within_limits (Ponder.function_file the_functions entry.1) = true) →
  no_files (Posix.files w0) start way →
  (∀ q, start ++ pack_names `prefix_of` q → Posix.files w0 !! q = None) →
  Posix.files w0 !! (start ++ way ++ [zip_name]) = None →
  ∃ w4,
    run_actions (datapack_actions version ponder_name the_pack false functions) w0
    = (Returned tt, w4)
    ∧ Posix.cwd w4 = Posix.cwd w0
    ∧ all_dirs (Posix.files w4) start pack_names
    ∧ Posix.files w4 !! (start ++ way ++ [zip_name]) = None.
Proof.
  intros start Hmeta Hmain Hfun Hfree Hnone Htarget.
  set (dir := start ++ pack_names) in *.
  set (target := start ++ way ++ [zip_name]) in *.
  pose proof pack_names_plain as Hpack_plain.
  pose proof function_names_plain as Hfun_plain.
  assert (Hlim_pack : within_limits {| root := the_root; names := pack_names |} = true).
  { rewrite the_meta_names in Hmeta. by eapply within_limits_below. }
  assert (Hlim_fun : within_limits {| root := the_root; names := pack_names ++ below |}
                     = true).
  { rewrite the_main_names in Hmain. by eapply within_limits_below. }
  unfold datapack_actions.
  cbn [app run_actions sys_perform sys_mkdir sys_write_text Posix.os].
  (* line 142 *)
  destruct (mkdir_returns the_root pack_names w0)
    as (fs1 & Hmkdir1 & Hgrows1 & Hdirs1 & Hsame1);
    [by destruct way|done|done|by rewrite removelast_last|by apply Hnone|].
  rewrite <-(datapack_dir_plain ponder_name output_dir Hplain) in Hmkdir1.
  rewrite Hmkdir1. clear Hmkdir1.
  fold start in Hdirs1, Hsame1.
  assert (Hbelow1 : ∀ q, dir `prefix_of` q → q ≠ dir → fs1 !! q = None).
  { intros q Hq Hne. rewrite Hsame1; [by apply Hnone|].
    intros m Hm _ ->. apply Hne. f_equal. apply prefix_antisym; [done|].
    by apply prefix_app_inv in Hq. }
  assert (Htarget1 : fs1 !! target = None).
  { rewrite Hsame1; [done|]. intros m Hm _ Heq%app_inv_head.
    apply (zip_off_pack m []); [by rewrite app_nil_r|done]. }
  (* line 153 *)
  rewrite the_meta_names.
  rewrite (write_text_way the_root pack_names "pack.mcmeta");
    [|by apply Forall_app; split; [|repeat constructor]
     |by rewrite <-the_meta_names|done|].
  2:{ cbn [Posix.set_files Posix.files Posix.cwd]. fold start.
      rewrite (app_assoc start). fold dir. rewrite Hbelow1; [done| |by_length].
      by apply prefix_app_r. }
  rewrite set_files_twice.
  change (Posix.files (Posix.set_files w0 fs1)) with fs1.
  change (Posix.cwd (Posix.set_files w0 fs1)) with (Posix.cwd w0). fold start.
  set (meta_key := start ++ pack_names ++ ["pack.mcmeta"]).
  set (fs2 := <[meta_key := Posix.File (Posix.Text (dumps meta_data))]> fs1).
  assert (Hdirs2 : all_dirs fs2 start pack_names).
  { apply all_dirs_insert; [done|]. intros m Hm. unfold meta_key.
    intros Heq%app_inv_head. subst m. apply prefix_length in Hm.
    rewrite length_app in Hm. simpl in Hm. lia. }
  assert (Hbelow2 : ∀ q, dir `prefix_of` q → q ≠ dir → q ≠ meta_key → fs2 !! q = None).
  { intros q Hq Hne Hmk. unfold fs2. rewrite lookup_insert_ne by done.
    by apply Hbelow1. }
  assert (Htarget2 : fs2 !! target = None).
  { unfold fs2. rewrite lookup_insert_ne; [done|]. unfold meta_key, target.
    intros Heq%app_inv_head. revert Heq. by_length. }
  (* line 157 *)
  destruct (mkdir_returns the_root (pack_names ++ below) (Posix.set_files w0 fs2))
    as (fs3 & Hmkdir3 & Hgrows3 & Hdirs3 & Hsame3); [by destruct way|done|done|..].
  { cbn [Posix.set_files Posix.files Posix.cwd]. fold start.
    change (pack_names ++ below)
      with (pack_names ++ ["data"; ponder_name] ++ [function_dir_name version]).
    rewrite app_assoc, removelast_last.
    intros m [Hm|(m' & -> & Hm' & Hne')]%prefix_app_split Hne.
    - by rewrite (Hdirs2 m).
    - rewrite app_assoc. fold dir. rewrite Hbelow2; [done|by apply prefix_app_r|..].
      + intros Heq. apply Hne'. apply (app_inv_head dir). by rewrite app_nil_r.
      + unfold meta_key. rewrite app_assoc. fold dir. intros Heq%app_inv_head. subst m'.
        apply prefix_cons_inv_1 in Hm'. done. }
  { cbn [Posix.set_files Posix.files Posix.cwd]. fold start.
    rewrite app_assoc. fold dir. apply Hbelow2; [by apply prefix_app_r|..].
    - intros Heq. apply (f_equal length) in Heq. rewrite length_app in Heq.
      simpl in Heq. lia.
    - unfold meta_key. rewrite app_assoc. fold dir. intros Heq%app_inv_head. done. }
  rewrite <-the_functions_names, set_files_twice in Hmkdir3.
  rewrite Hmkdir3. clear Hmkdir3.
  cbn [Posix.set_files Posix.files Posix.cwd] in Hgrows3, Hdirs3, Hsame3.
  fold start in Hdirs3, Hsame3.
  (* lines 168-181 *)
  set (deep := start ++ pack_names ++ below) in *.
  set (I := λ w' : Posix.world,
         Posix.cwd w' = Posix.cwd w0
         ∧ all_dirs (Posix.files w') start (pack_names ++ below)
         ∧ (∀ name, Posix.files w' !! (start ++ (pack_names ++ below) ++ [name])
                    ≠ Some Posix.Dir)
         ∧ Posix.files w' !! target = None).
  destruct (run_actions_returns I
              ((bucket_write the_functions <$> functions)
               ++ [DoWrite (Ponder.main_function_file the_functions)
                     (main_file_text ponder_name functions) None])
              (Posix.set_files w0 fs3))
    as (w4 & Hrun & Hc4 & Hdirs4 & _ & Htarget4).
  - intros a w' Ha (Hc & Hd & Hslot & Ht).
    assert (Hwrite : ∃ data enc name,
      a = DoWrite {| root := the_root; names := (pack_names ++ below) ++ [name] |}
            data enc
      ∧ name ≠ ".."
      ∧ within_limits {| root := the_root; names := (pack_names ++ below) ++ [name] |}
        = true).
    { apply elem_of_app in Ha as [Ha|Ha].
      - apply list_elem_of_fmap in Ha as ([t lines] & -> & Hin).
        eexists _, _, _. unfold bucket_write. cbn [fst snd].
        rewrite the_function_file_names. split_and!; [done|done|].
        rewrite <-the_function_file_names. by apply (Hfun (t, lines)).
      - apply list_elem_of_singleton in Ha as ->.
        eexists _, _, _. rewrite the_main_names. split_and!; [done|done|].
        by rewrite <-the_main_names. }
    destruct Hwrite as (data & enc & name & -> & Hname & Hlim).
    cbn [sys_perform sys_write_text Posix.os].
    rewrite (write_text_way the_root (pack_names ++ below) name);
      [|by apply Forall_app; split; [|apply Forall_singleton]|done
       |by rewrite Hc|rewrite Hc; by apply Hslot].
    rewrite Hc. fold start. eexists. split; [done|].
    unfold I. cbn [Posix.set_files Posix.files Posix.cwd]. split_and!.
    + done.
    + apply all_dirs_insert; [done|]. intros m Hm Heq%app_inv_head.
      subst m. apply prefix_length in Hm. rewrite length_app in Hm. simpl in Hm. lia.
    + intros name'. destruct (decide (name' = name)) as [->|Hne].
      * by rewrite lookup_insert_eq.
      * rewrite lookup_insert_ne; [by apply Hslot|].
        intros Heq%app_inv_head%app_inv_head. by injection Heq.
    + rewrite lookup_insert_ne; [done|]. unfold target.
      intros Heq%app_inv_head. revert Heq. by_length.
  - unfold I. cbn [Posix.set_files Posix.files Posix.cwd]. split_and!; [done|done| |].
    + intros name. rewrite Hsame3.
      * unfold fs2. rewrite lookup_insert_ne.
        -- rewrite Hbelow1; [done| |].
           ++ exists (below ++ [name]). unfold dir. by rewrite <-!app_assoc.
           ++ unfold dir. intros Heq%app_inv_head. revert Heq. by_length.
        -- unfold meta_key. intros Heq%app_inv_head. revert Heq. by_length.
      * intros m Hm _ Heq%app_inv_head. subst m. apply prefix_length in Hm.
        rewrite length_app in Hm. simpl in Hm. lia.
    + rewrite Hsame3; [done|]. intros m Hm _ Heq%app_inv_head.
      by apply (zip_off_pack m below).
  - exists w4. split_and!; [|done| |done].
    + cbn [app] in Hrun. exact Hrun.
    + by eapply all_dirs_prefix.
Qed.
End clean_run.

Lemma max_of_group (commands : list compiled) :
  commands ≠ [] → is_Some (max_of (dict_keys (group_commands commands))).
Proof.
  intros Hne. rewrite dict_keys_group. destruct commands as [|[t s] l]; [done|].
  cbn [fmap list_fmap fst first_seen max_of]. eauto.
Qed.

(** X15. On the file system in memory, for a plain [ponder_name] and an
    [output_dir] that is not the empty string and has no name [..],
    with paths within the limits of the kernel (the archive,
    [pack.mcmeta], [main.mcfunction] and the file of every time): where
    no name on the way to the directory of the pack is a file, nothing is
    at or below that directory and nothing is at the path of the archive,
    a call of [compile] whose commands compile, with at least one
    command, returns [None]: no call raises, the operator is not asked,
    the archive is made and the tree removed. *)
Theorem compile_succeeds_in_clean_place
    (compile_operations : Ponder.t → position → outcome (list compiled))
    (self : Ponder.t) (version : bool) (pos_offset : position)
    (ponder_name output_dir : string) (w : Posix.world) (commands : list compiled) :
  let datapack_dir := Ponder.datapack_dir ponder_name output_dir in
  let function_dir := Ponder.function_dir version ponder_name datapack_dir in
  let dir := Posix.resolve w datapack_dir in
  let target := Posix.resolve w (Posix.archive_path datapack_dir) in
  plain_name ponder_name → output_dir ≠ "" →
  Forall (λ n, n ≠ "..") (path_names output_dir) →
  within_limits (Posix.archive_path datapack_dir) = true →
  within_limits (Ponder.meta_file datapack_dir) = true →
  within_limits (Ponder.main_function_file function_dir) = true →
  Forall (λ t, within_limits (Ponder.function_file function_dir t) = true) commands.*1 →
  compile_operations self pos_offset = Returned commands → commands ≠ [] →
  Posix.blocked (Posix.files w) dir = false →
  (∀ q, dir `prefix_of` q → Posix.files w !! q = None) →
  Posix.files w !! target = None →
  let r := exec (Ponder.compile compile_operations self version pos_offset ponder_name
                   output_dir) w in
  outcome_of r = Returned None
  ∧ EvRmtree datapack_dir (Returned tt) ∈ trace_of r
  ∧ (∀ res, EvInput res ∉ trace_of r).
Proof.
  intros datapack_dir function_dir dir target Hplain Hodne Hod Hlzip Hlmeta Hlmain Hlfun
    Hco Hne Hblocked Hnone Htarget r.
  set (start := if decide (path_root output_dir = "") then Posix.cwd w else []).
  set (way := path_names output_dir) in *.
  set (zip := ponder_name +:+ ".zip").
  pose proof (pack_names_plain ponder_name output_dir Hplain Hod) as Hpack_plain.
  pose proof (datapack_dir_plain ponder_name output_dir Hplain) as Hpack.
  pose proof (archive_path_plain ponder_name output_dir Hplain) as Harchive.
  fold datapack_dir way in Hpack, Harchive, Hpack_plain. fold zip in Harchive.
  assert (Hdir : dir = start ++ way ++ [ponder_name]).
  { unfold dir, Posix.resolve. rewrite Hpack. cbn [root names].
    by apply (walk_plain _ []). }
  assert (Hzip_plain : Forall (λ n, n ≠ "..") (way ++ [zip])).
  { apply Forall_app. split; [done|]. apply Forall_singleton, zip_name_not_parent. }
  assert (Htarget_key : target = start ++ way ++ [zip]).
  { unfold target, Posix.resolve. rewrite Harchive. cbn [root names].
    by apply (walk_plain _ []). }
  rewrite Hdir in Hblocked, Hnone. rewrite Htarget_key in Htarget.
  pose proof (blocked_no_files _ _ _ _ Hblocked) as Hfree.
  assert (Hlpack : within_limits {| root := path_root output_dir;
                                     names := way ++ [ponder_name] |} = true).
  { pose proof Hlmeta as Hlim. unfold datapack_dir in Hlim.
    rewrite (the_meta_names ponder_name output_dir Hplain) in Hlim.
    by eapply within_limits_below. }
  assert (Hlzip' : within_limits {| root := path_root output_dir;
                                    names := way ++ [zip] |} = true)
    by by rewrite <-Harchive.
  unfold r. rewrite exec_compile. cbn [sys_log sys_input sys_os_path_exists Posix.os].
  set (w0 := Posix.log Debug _ (Posix.log Info MsgCompiling w)).
  (* line 132 *)
  assert (Hfound : Posix.os_path_exists (Ponder.zip_file ponder_name output_dir) w0
                   = false).
  { unfold Posix.os_path_exists. rewrite decide_False.
    2:{ unfold Ponder.zip_file. by destruct output_dir. }
    unfold Posix.find_as. destruct (Posix.refused _); [done|].
    destruct (zip_file_names ponder_name output_dir Hplain Hodne) as [Hn Hr].
    fold datapack_dir in Hn, Hr. rewrite Hn, (decide_ext _ _ _ _ Hr), Harchive.
    cbn [root names].
    change (Posix.files w0) with (Posix.files w).
    change (Posix.cwd w0) with (Posix.cwd w). fold start.
    apply within_limits_spec in Hlzip' as [_ Hlong]. cbn [names] in Hlong.
    rewrite Forall_app, Forall_singleton in Hlong. destruct Hlong as [Hlong Hl].
    destruct (locate_cases (Posix.files w) start way zip) as [[-> _]| ->];
      [by apply Forall_app in Hzip_plain as [? _]|apply zip_name_not_parent|done..| |done].
    cbn [Posix.found Posix.stat]. apply bool_decide_eq_false. rewrite Htarget.
    by intros [? ?]. }
  rewrite Hfound.
  pose proof (compile_body_world compile_operations self version pos_offset ponder_name
                output_dir w0) as Hbody.
  pose proof (compile_body_quiet compile_operations self version pos_offset ponder_name
                output_dir w0) as Hquiet.
  cbv zeta in Hbody. fold datapack_dir in Hbody. rewrite Hco in Hbody.
  cbn [sys_path_exists Posix.os] in Hbody.
  (* line 141 *)
  assert (Hthere : Posix.path_exists datapack_dir w0 = false).
  { unfold Posix.path_exists. rewrite Hpack.
    destruct (find_cases (path_root output_dir) way ponder_name w0) as [[-> _]| ->];
      [done..| |done].
    cbn [Posix.found Posix.stat]. apply bool_decide_eq_false.
    change (Posix.files w0) with (Posix.files w).
    change (Posix.cwd w0) with (Posix.cwd w). fold start.
    rewrite Hnone by done. by intros [? ?]. }
  rewrite Hthere in Hbody.
  (* lines 142-181 *)
  destruct (clean_actions version ponder_name output_dir Hplain Hod w0
              (group_commands commands))
    as (w4 & Hrun & Hc4 & Hdirs4 & Htarget4); [done|done| |done|done|done|].
  { intros [t lines] Hin. cbn [fst].
    apply (proj1 (Forall_forall _ _) Hlfun).
    apply elem_of_first_seen. rewrite <-dict_keys_group.
    apply list_elem_of_fmap. by exists (t, lines). }
  fold datapack_dir in Hrun. rewrite Hrun in Hbody.
  change (Posix.cwd w0) with (Posix.cwd w) in Hc4, Hdirs4, Htarget4.
  fold start way in Hdirs4, Htarget4. fold zip in Htarget4.
  (* lines 184-190 *)
  assert (Hpacked : ∃ s,
    let p := exec (Ponder.pack_datapack ponder_name output_dir datapack_dir commands
                     (group_commands commands)) w4 in
    outcome_of p = Returned None
    ∧ trace_of p
      = [EvMakeArchive datapack_dir "zip" datapack_dir (Returned s);
         EvRmtree datapack_dir (Returned tt);
         EvLog Info (MsgDone (length (group_commands commands)) (length commands)
                       (default 0 (max_of (dict_keys (group_commands commands))))
                       output_dir ponder_name)]).
  { destruct (make_archive_way (path_root output_dir) way ponder_name zip datapack_dir w4)
      as (members & Hmake); [by rewrite <-Hpack|done|apply zip_name_not_parent|done
                            |by rewrite <-Hpack|..].
    { rewrite Hc4. fold start. by eapply all_dirs_prefix. }
    { by rewrite Hc4. }
    rewrite Hc4, <-Hpack in Hmake. fold start in Hmake.
    set (w5 := Posix.set_files w4 _) in Hmake.
    pose proof (rmtree_way (path_root output_dir) way ponder_name w5 Hpack_plain Hlpack)
      as Hremove.
    cbv zeta in Hremove. rewrite <-Hpack in Hremove.
    eexists. cbv zeta. rewrite exec_pack_datapack.
    cbn [sys_make_archive sys_rmtree sys_log Posix.os].
    rewrite Hmake, Hremove.
    - by destruct (max_of_group commands Hne) as [m ->].
    - unfold w5. cbn [Posix.set_files Posix.files Posix.cwd]. rewrite Hc4. fold start.
      apply all_dirs_insert; [done|]. intros m Hm Heq%app_inv_head.
      revert Heq. apply not_eq_sym.
      apply (zip_off_pack ponder_name output_dir m []). by rewrite app_nil_r. }
  destruct Hpacked as (s & Hout & Htrace). cbv zeta in Hbody.
  rewrite Hout, Htrace in Hbody.
  destruct (exec (Ponder.compile_body _ _ _ _ _ _) w0) as [[out w'] tr].
  unfold outcome_of, world_of, trace_of in Hbody, Hquiet |- *.
  cbn [preceded fst snd] in Hbody, Hquiet |- *.
  destruct Hbody as (-> & _ & before & -> & _). split_and!.
  - done.
  - rewrite !elem_of_app, !elem_of_cons. auto.
  - intros res [Hin|Hin]%elem_of_app.
    + revert Hin. unfold asked. cbn [app]. rewrite !elem_of_cons, elem_of_nil.
      naive_solver.
    + destruct (Hquiet _ Hin) as (Hq & _). by apply (Hq res).
Qed.

Lemma compile_succeeds_in_clean_place_witness :
  let r := exec (Ponder.compile (fixed_commands stone_commands) empty_ponder true
                   (0, 0, 0) "ponders" ".") Posix.fresh in
  outcome_of r = Returned None
  ∧ EvRmtree (Ponder.datapack_dir "ponders" ".") (Returned tt) ∈ trace_of r
  ∧ (∀ res, EvInput res ∉ trace_of r).
Proof.
  apply (compile_succeeds_in_clean_place (fixed_commands stone_commands) empty_ponder
           true (0, 0, 0) "ponders" "." Posix.fresh stone_commands).
  - by split_and!.
  - discriminate.
  - vm_compute. constructor.
  - reflexivity.
  - reflexivity.
  - reflexivity.
  - vm_compute. repeat constructor.
  - reflexivity.
  - discriminate.
  - reflexivity.
  - intros q [rest ->].
    change (Posix.resolve Posix.fresh (Ponder.datapack_dir "ponders" "."))
      with ["home"; "ponders"].
    by apply lookup_singleton_ne.
  - reflexivity.
Defined.
